(** * Verification of the OCR extraction core of scam-detection-app

    Shallow embedding of [ocr_utils.py], [preprocess.py], [region_detect.py]
    and [urdu_support.py].

    Conventions.
    - A Python [str] is a list of Unicode code points ([pystr]).
    - A numpy array is a nested list ([ndarray]), two- or three-dimensional.
    - Confidences are binary64 floats ([PrimFloat.float]), as [float(conf)].
    - A Python call that may raise returns an [outcome]; the module-level
      variable [_OCR_READER] is threaded through a small state monad.
    - Everything the repository imports but does not define (easyocr, cv2,
      PIL, pytesseract, langdetect, arabic_reshaper, bidi, unicodedata) is a
      field of the record [Env]; a field of type [... -> option _] answers
      [None] when the library call raises. *)

From Stdlib Require Import ZArith List Bool Ascii String Floats Uint63 Lia.
From stdpp Require Import base option list gmap.

Open Scope Z_scope.

(** ** Python strings *)

Definition pystr : Type := list Z.

Definition ord (a : ascii) : Z := Z.of_N (N_of_ascii a).

(** An ASCII literal of the source as a Python string. *)
Definition lit (s : string) : pystr := map ord (list_ascii_of_string s).

(** [sep.join(parts)] *)
Fixpoint join (sep : pystr) (parts : list pystr) : pystr :=
  match parts with
  | [] => []
  | [p] => p
  | p :: rest => p ++ sep ++ join sep rest
  end.

Definition SPACE : pystr := lit " ".

(** [str.isspace] for one character, which is also what [\s] matches in a
    [str] pattern: the code points CPython lists as whitespace. *)
Definition is_space (c : Z) : bool :=
  ((9 <=? c) && (c <=? 13)) || ((28 <=? c) && (c <=? 32))
  || (c =? 0x85) || (c =? 0xA0) || (c =? 0x1680)
  || ((0x2000 <=? c) && (c <=? 0x200A))
  || (c =? 0x2028) || (c =? 0x2029) || (c =? 0x202F) || (c =? 0x205F)
  || (c =? 0x3000).

(** [str.strip()] *)
Fixpoint lstrip (s : pystr) : pystr :=
  match s with
  | c :: s' => if is_space c then lstrip s' else s
  | [] => []
  end.

Definition rstrip (s : pystr) : pystr := rev (lstrip (rev s)).

Definition strip (s : pystr) : pystr := rstrip (lstrip s).

(** ** The fragment of [re] the source uses

    Every repetition in the five patterns of [ocr_utils.py] is over a single
    character class, so [Rep] carries a class; matching is the backtracking
    search of [re]: alternatives left to right, repetitions greedy. *)
Module PyRe.

Inductive regex : Type :=
| Eps
| Cls (p : Z -> bool)
| Rep (p : Z -> bool) (lo : nat) (hi : option nat)
| Cat (r1 r2 : regex)
| Alt (r1 r2 : regex).

Definition may_repeat (hi : option nat) : bool :=
  match hi with Some O => false | _ => true end.

Definition dec_bound (hi : option nat) : option nat :=
  match hi with Some n => Some (Nat.pred n) | None => None end.

(** Greedy [p{lo,hi}]: take one more character while allowed, give it back
    when the continuation [k] fails. *)
Fixpoint rep_greedy (p : Z -> bool) (lo : nat) (hi : option nat) (s : pystr)
    (k : pystr -> option pystr) : option pystr :=
  let stop := match lo with O => k s | S _ => None end in
  match s with
  | c :: s' =>
      if p c && may_repeat hi then
        match rep_greedy p (Nat.pred lo) (dec_bound hi) s' k with
        | Some rest => Some rest
        | None => stop
        end
      else stop
  | [] => stop
  end.

(** [rmatch r s k]: match [r] at the start of [s]; the answer is what is
    left of [s] after the whole match. *)
Fixpoint rmatch (r : regex) (s : pystr) (k : pystr -> option pystr)
    : option pystr :=
  match r with
  | Eps => k s
  | Cls p => match s with
             | c :: s' => if p c then k s' else None
             | [] => None
             end
  | Rep p lo hi => rep_greedy p lo hi s k
  | Cat r1 r2 => rmatch r1 s (fun s' => rmatch r2 s' k)
  | Alt r1 r2 => match rmatch r1 s k with
                 | Some rest => Some rest
                 | None => rmatch r2 s k
                 end
  end.

Definition match_at (r : regex) (s : pystr) : option pystr := rmatch r s Some.

(** [re.findall(r, s)] for a pattern whose only group, if any, spans the
    whole match: the matched substrings, scanning left to right. *)
Fixpoint findall_from (fuel : nat) (r : regex) (s : pystr) : list pystr :=
  match fuel with
  | O => []
  | S fuel' =>
      match match_at r s with
      | Some rest =>
          match take (length s - length rest) s with
          | [] => [] :: match s with
                        | [] => []
                        | _ :: s' => findall_from fuel' r s'
                        end
          | m => m :: findall_from fuel' r rest
          end
      | None => match s with
                | [] => []
                | _ :: s' => findall_from fuel' r s'
                end
      end
  end.

Definition findall (r : regex) (s : pystr) : list pystr :=
  findall_from (S (length s)) r s.

(** [re.sub(r, repl, s)] with a literal replacement. *)
Fixpoint sub_from (fuel : nat) (r : regex) (repl s : pystr) : pystr :=
  match fuel with
  | O => s
  | S fuel' =>
      match match_at r s with
      | Some rest =>
          if (length rest <? length s)%nat
          then repl ++ sub_from fuel' r repl rest
          else repl ++ match s with
                       | [] => []
                       | c :: s' => c :: sub_from fuel' r repl s'
                       end
      | None => match s with
                | [] => []
                | c :: s' => c :: sub_from fuel' r repl s'
                end
      end
  end.

Definition sub (r : regex) (repl s : pystr) : pystr :=
  sub_from (S (length s)) r repl s.

(** Pattern syntax. *)
Definition chr (a : ascii) : Z -> bool := fun c => c =? ord a.

Definition between (a b : ascii) : Z -> bool :=
  fun c => (ord a <=? c) && (c <=? ord b).

Definition either (p q : Z -> bool) : Z -> bool := fun c => p c || q c.

Definition outside (p : Z -> bool) : Z -> bool := fun c => negb (p c).

Definition one_of (s : string) : Z -> bool :=
  fun c => existsb (Z.eqb c) (lit s).

Definition Lit (s : string) : regex :=
  fold_right (fun c r => Cat (Cls (Z.eqb c)) r) Eps (lit s).

Definition Opt (p : Z -> bool) : regex := Rep p 0 (Some 1%nat).
Definition Star (p : Z -> bool) : regex := Rep p 0 None.
Definition Plus (p : Z -> bool) : regex := Rep p 1 None.
Definition AtLeast (n : nat) (p : Z -> bool) : regex := Rep p n None.

Fixpoint sequence (rs : list regex) : regex :=
  match rs with
  | [] => Eps
  | [r] => r
  | r :: rs' => Cat r (sequence rs')
  end.

End PyRe.

Import PyRe.

(** ** Character classes of the patterns *)

(** [\d] in a [str] pattern is the Unicode decimal digits.  Below U+0080
    these are 0-9; above, the Unicode character database decides, which the
    caller supplies as [nd]. *)
Definition is_digit (nd : Z -> bool) (c : Z) : bool :=
  if c <? 128 then between "0" "9" c else nd c.

Definition alnum : Z -> bool :=
  either (between "a" "z") (either (between "A" "Z") (between "0" "9")).

Definition alpha : Z -> bool := either (between "a" "z") (between "A" "Z").

(** [\+?\d[\d\s\-]{5,}] *)
Definition PHONE_RE (nd : Z -> bool) : regex :=
  sequence
    [ Opt (chr "+");
      Cls (is_digit nd);
      AtLeast 5 (either (is_digit nd) (either is_space (chr "-"))) ].

(** [[a-zA-Z0-9._+-]+@[a-zA-Z0-9.-]+\.[a-zA-Z]{2,}] *)
Definition EMAIL_RE : regex :=
  sequence
    [ Plus (either alnum (one_of "._+-"));
      Cls (chr "@");
      Plus (either alnum (one_of ".-"));
      Cls (chr ".");
      AtLeast 2 alpha ].

(** [[A-Za-z0-9._%+-]+@[A-Za-z0-9.-]+\.[A-Za-z]{2,}] (the Urdu pipeline) *)
Definition EMAIL_RE_URDU : regex :=
  sequence
    [ Plus (either alnum (one_of "._%+-"));
      Cls (chr "@");
      Plus (either alnum (one_of ".-"));
      Cls (chr ".");
      AtLeast 2 alpha ].

(** [(https?://\S+|www\.\S+)] *)
Definition URL_RE : regex :=
  Alt (sequence
         [ Lit "http"; Opt (chr "s"); Lit "://"; Plus (outside is_space) ])
      (sequence [ Lit "www"; Cls (chr "."); Plus (outside is_space) ]).

(** [(?:Rs\.?|INR|\$)\s?\d[\d,]*] *)
Definition AMOUNT_RE (nd : Z -> bool) : regex :=
  sequence
    [ Alt (Cat (Lit "Rs") (Opt (chr ".")))
          (Alt (Lit "INR") (Cls (chr "$")));
      Opt is_space;
      Cls (is_digit nd);
      Star (either (is_digit nd) (chr ",")) ].

(** [\s+] *)
Definition WS_RUN_RE : regex := Plus is_space.

(** [[^\x00-\x7F]+] *)
Definition NON_ASCII_RUN_RE : regex :=
  Plus (outside (fun c => (0 <=? c) && (c <=? 0x7F))).

Record Fields : Type := {
  phones : list pystr;
  emails : list pystr;
  urls : list pystr;
  amounts : list pystr
}.

(** The four [re.findall] calls of [extract_text_from_image] and
    [extract_text_whatsapp_aware]. *)
Definition extract_fields (nd : Z -> bool) (clean : pystr) : Fields :=
  {| phones := findall (PHONE_RE nd) clean;
     emails := findall EMAIL_RE clean;
     urls := findall URL_RE clean;
     amounts := findall (AMOUNT_RE nd) clean |}.

(** The four [re.findall] calls of [extract_text_with_urdu_support]. *)
Definition extract_fields_urdu (nd : Z -> bool) (clean : pystr) : Fields :=
  {| phones := findall (PHONE_RE nd) clean;
     emails := findall EMAIL_RE_URDU clean;
     urls := findall URL_RE clean;
     amounts := findall (AMOUNT_RE nd) clean |}.

Definition SCENARIO_TEXT : pystr :=
  lit ("Call +92 300 1234567 or email scam@fraud.com, "
       ++ "send Rs. 5,000 via www.fakepay.com").

(** ** [urdu_support.py] *)

(** The dictionary [ARABIC_INDIC_DIGITS]: Arabic-Indic (U+0660..U+0669) and
    Extended Arabic-Indic (U+06F0..U+06F9) digits to ASCII digits. *)
Definition ARABIC_INDIC_DIGITS : gmap Z pystr :=
  list_to_map
    [ (0x660, lit "0"); (0x661, lit "1"); (0x662, lit "2"); (0x663, lit "3");
      (0x664, lit "4"); (0x665, lit "5"); (0x666, lit "6"); (0x667, lit "7");
      (0x668, lit "8"); (0x669, lit "9");
      (0x6F0, lit "0"); (0x6F1, lit "1"); (0x6F2, lit "2"); (0x6F3, lit "3");
      (0x6F4, lit "4"); (0x6F5, lit "5"); (0x6F6, lit "6"); (0x6F7, lit "7");
      (0x6F8, lit "8"); (0x6F9, lit "9") ].

(** [str.translate(table)] for a table whose values are strings. *)
Definition translate (table : gmap Z pystr) (text : pystr) : pystr :=
  flat_map (fun c => match table !! c with
                     | Some r => r
                     | None => [c]
                     end) text.

Definition normalize_digits (text : pystr) : pystr :=
  translate ARABIC_INDIC_DIGITS text.

(** ** Outcomes and images *)

Inductive exn : Type :=
| UnsupportedInputKind   (* ValueError("Unsupported image_input type") *)
| RecognitionUnavailable (* RuntimeError("easyocr not available, ...") *)
| ExternalError.         (* any other exception: a library call or a built-in *)

Inductive outcome (A : Type) : Type :=
| Ok (a : A)
| Raise (e : exn).

Arguments Ok {A} a.
Arguments Raise {A} e.

Definition of_call {A : Type} (r : option A) : outcome A :=
  match r with
  | Some a => Ok a
  | None => Raise ExternalError
  end.

(** A numpy array of [ndim] 2 (rows of scalars) or 3 (rows of pixels, a
    pixel being its list of channel values). *)
Inductive ndarray : Type :=
| Arr2 (rows : list (list Z))
| Arr3 (rows : list (list (list Z))).

Definition ndim (a : ndarray) : Z :=
  match a with
  | Arr2 _ => 2
  | Arr3 _ => 3
  end.

Definition row_width {A : Type} (rows : list (list A)) : nat :=
  match rows with
  | [] => O
  | r :: _ => length r
  end.

(** [a.shape[:2]] *)
Definition shape_hw (a : ndarray) : nat * nat :=
  match a with
  | Arr2 rows => (length rows, row_width rows)
  | Arr3 rows => (length rows, row_width rows)
  end.

(** [a.shape[2]] of a three-dimensional array. *)
Definition channels (rows : list (list (list Z))) : nat :=
  match rows with
  | (px :: _) :: _ => length px
  | _ => O
  end.

(** All scalars of an array, in row-major order. *)
Definition scalars (a : ndarray) : list Z :=
  match a with
  | Arr2 rows => concat rows
  | Arr3 rows => concat (concat rows)
  end.

(** Apply [f] to every scalar. *)
Definition map_scalars (f : Z -> Z) (a : ndarray) : ndarray :=
  match a with
  | Arr2 rows => Arr2 (map (map f) rows)
  | Arr3 rows => Arr3 (map (map (map f)) rows)
  end.

(** [np.repeat(a, 2, axis=0)] and [np.repeat(a, 2, axis=1)] *)
Definition repeat_axis0 {A : Type} (rows : list (list A)) : list (list A) :=
  flat_map (fun r => [r; r]) rows.

Definition repeat_axis1 {A : Type} (rows : list (list A)) : list (list A) :=
  map (flat_map (fun x => [x; x])) rows.

Definition upscale2 (a : ndarray) : ndarray :=
  match a with
  | Arr2 rows => Arr2 (repeat_axis1 (repeat_axis0 rows))
  | Arr3 rows => Arr3 (repeat_axis1 (repeat_axis0 rows))
  end.

(** [cv2.cvtColor(a, cv2.COLOR_GRAY2BGR)]: each gray value becomes the
    pixel [v, v, v]; OpenCV rejects an input that is not single-channel. *)
Definition gray2bgr (a : ndarray) : outcome ndarray :=
  match a with
  | Arr2 rows => Ok (Arr3 (map (map (fun v => [v; v; v])) rows))
  | Arr3 _ => Raise ExternalError
  end.

(** Python slice [l[start:stop]] with the indices normalised as
    [slice.indices] does. *)
Definition slice_index (i : Z) (n : nat) : nat :=
  if i <? 0 then Z.to_nat (Z.max 0 (i + Z.of_nat n))
  else Z.to_nat (Z.min i (Z.of_nat n)).

Definition slice {A : Type} (start stop : Z) (l : list A) : list A :=
  let a := slice_index start (length l) in
  let b := slice_index stop (length l) in
  take (b - a) (drop a l).

(** [img[y0:y1, x0:x1]] *)
Definition crop (img : ndarray) (y0 x0 y1 x1 : Z) : ndarray :=
  match img with
  | Arr2 rows => Arr2 (map (slice x0 x1) (slice y0 y1 rows))
  | Arr3 rows => Arr3 (map (slice x0 x1) (slice y0 y1 rows))
  end.

(** A decoded [PIL.Image]: its pixels after [convert('RGB')]. *)
Record pil_image : Type := { rgb_rows : list (list (list Z)) }.

(** [np.array(pil)[:, :, ::-1]]: RGB to BGR. *)
Definition pil_to_bgr (pil : pil_image) : ndarray :=
  Arr3 (map (map (@rev Z)) (rgb_rows pil)).

(** Conversion of a Python int to float (exact below 2^53 in magnitude). *)
Definition float_of_Z (z : Z) : float :=
  if z <? 0 then PrimFloat.opp (PrimFloat.of_uint63 (Uint63.of_Z (- z)))
  else PrimFloat.of_uint63 (Uint63.of_Z z).

(** A stable sort by a total preorder on keys, as [sorted(..., key=...)]. *)
Section StableSort.
Context {A K : Type} (leb : K -> K -> bool) (key : A -> K).

Fixpoint insert_sorted (x : A) (l : list A) : list A :=
  match l with
  | [] => [x]
  | y :: l' => if leb (key x) (key y) then x :: l
               else y :: insert_sorted x l'
  end.

Definition sorted_by (l : list A) : list A :=
  fold_right insert_sorted [] l.
End StableSort.

(** ** Recognizer objects and the imported libraries *)

(** An [easyocr.Reader] object: its identity and its [lang_list]. *)
Record Reader : Type := {
  reader_id : nat;
  lang_list : list string;
  reader_gpu : bool
}.

(** One item of [reader.readtext(img, detail=1)]: [(bbox, txt, conf)], the
    box being a list of [(x, y)] corners. *)
Definition raw_span : Type := list (Z * Z) * pystr * option float.

(** One entry of [lines]: the dict [{"bbox": .., "text": .., "conf": ..}]. *)
Record span : Type := {
  bbox : option (list (Z * Z));
  text : pystr;
  conf : option float
}.

Definition rect : Type := Z * Z * Z * Z.   (* x, y, w, h *)
Definition region : Type := Z * Z * Z * Z. (* y0, x0, y1, x1 *)
Definition contour : Type := list (Z * Z).

Record Env : Type := {
  (* which optional imports succeeded *)
  easyocr_present : bool;
  pytesseract_present : bool;
  cv2_present : bool;
  (* easyocr: [Reader(langs, gpu=gpu)] answers the new object's lang_list *)
  easyocr_Reader : list string -> bool -> option (list string);
  readtext_detail : Reader -> ndarray -> option (list raw_span);
  readtext_plain : Reader -> ndarray -> option (list pystr);
  (* pytesseract.image_to_string(Image.fromarray(pre), config="--psm 6") *)
  tesseract_image_to_string : ndarray -> option pystr;
  (* PIL: Image.open(path).convert('RGB') *)
  image_open : string -> option pil_image;
  (* cv2 *)
  cv2_BGR2GRAY : ndarray -> option ndarray;
  cv2_medianBlur : ndarray -> Z -> option ndarray;
  cv2_resize_linear : ndarray -> Z * Z -> option ndarray;
  cv2_adaptiveThreshold : ndarray -> Z -> Z -> Z -> option ndarray;
  (* morphologyEx, GaussianBlur, threshold, dilate, findContours *)
  cv2_text_contours : ndarray -> option (list contour);
  cv2_boundingRect : contour -> rect;
  (* (0.2989 * r + 0.5870 * g + 0.1140 * b).astype(np.uint8), in float32 *)
  luminance_u8 : Z -> Z -> Z -> Z;
  (* langdetect.detect, when the import succeeded *)
  langdetect_detect : option (pystr -> option string);
  arabic_reshape : pystr -> option pystr;
  bidi_get_display : pystr -> option pystr;
  (* the Unicode database: decimal digits above U+007F, and NFKC *)
  unicode_isdecimal : Z -> bool;
  nfkc : pystr -> pystr
}.

(** Module-level state of [ocr_utils.py]: [_OCR_READER], and the number of
    recognizer objects created so far (object identity). *)
Record PyState : Type := {
  _OCR_READER : option Reader;
  created : nat
}.

Definition M (A : Type) : Type := PyState -> outcome A * PyState.

Definition ret {A : Type} (a : A) : M A := fun st => (Ok a, st).

Definition raise {A : Type} (e : exn) : M A := fun st => (Raise e, st).

Definition bind {A B : Type} (c : M A) (k : A -> M B) : M B :=
  fun st => match c st with
            | (Ok a, st') => k a st'
            | (Raise e, st') => (Raise e, st')
            end.

Definition lift {A : Type} (o : outcome A) : M A := fun st => (o, st).

(** [try: c except Exception: h] *)
Definition try_except {A : Type} (c h : M A) : M A :=
  fun st => match c st with
            | (Ok a, st') => (Ok a, st')
            | (Raise _, st') => h st'
            end.

Definition obind {A B : Type} (o : outcome A) (k : A -> outcome B)
    : outcome B :=
  match o with
  | Ok a => k a
  | Raise e => Raise e
  end.

Notation "'let*' x := c 'in' k" := (bind c (fun x => k))
  (at level 10, x pattern, c at level 100, k at level 200, only parsing).
Notation "'let?' x := c 'in' k" := (obind c (fun x => k))
  (at level 10, x pattern, c at level 100, k at level 200, only parsing).

(** ** [preprocess.py] *)

(** [h, w = gray.shape] raises unless the array is two-dimensional. *)
Definition shape2 (a : ndarray) : outcome (nat * nat) :=
  match a with
  | Arr2 rows => Ok (length rows, row_width rows)
  | Arr3 _ => Raise ExternalError
  end.

Definition _preprocess_with_cv2 (E : Env) (img_bgr : ndarray)
    : outcome ndarray :=
  let? gray := of_call (cv2_BGR2GRAY E img_bgr) in
  let? gray := of_call (cv2_medianBlur E gray 3) in
  let? (h, w) := shape2 gray in
  let? gray :=
    (if (Nat.min h w <? 400)%nat
     then of_call (cv2_resize_linear E gray (Z.of_nat w * 2, Z.of_nat h * 2))
     else Ok gray) in
  of_call (cv2_adaptiveThreshold E gray 255 11 2).

(** [a.astype(np.uint8)] on integers wraps modulo 256. *)
Definition to_uint8 (v : Z) : Z := v mod 256.

Definition luminosity (E : Env) (px : list Z) : Z :=
  match px with
  | r :: g :: b :: _ => luminance_u8 E r g b
  | _ => 0
  end.

(** [int(gray.mean())]: the mean of an empty array is NaN, and [int] of NaN
    raises.  The values are unsigned bytes, so the float64 mean truncates to
    the integer quotient. *)
Definition mean_int (a : ndarray) : outcome Z :=
  match scalars a with
  | [] => Raise ExternalError
  | xs => Ok (Z.quot (fold_right Z.add 0 xs) (Z.of_nat (length xs)))
  end.

Definition _preprocess_without_cv2 (E : Env) (img_bgr : ndarray)
    : outcome ndarray :=
  let arr := img_bgr in
  let gray :=
    match arr with
    | Arr3 rows =>
        if (3 <=? channels rows)%nat
        then Arr2 (map (map (luminosity E)) rows)
        else map_scalars to_uint8 arr
    | Arr2 _ => map_scalars to_uint8 arr
    end in
  let '(h, w) := shape_hw gray in
  let gray := if (Nat.min h w <? 400)%nat then upscale2 gray else gray in
  let? thresh := mean_int gray in
  Ok (map_scalars (fun v => if thresh <? v then 255 else 0) gray).

Definition preprocess_image (E : Env) (img_bgr : ndarray) : outcome ndarray :=
  if cv2_present E then _preprocess_with_cv2 E img_bgr
  else _preprocess_without_cv2 E img_bgr.

(** ** [region_detect.py] *)

Definition DEFAULT_MIN_AREA : Z := 400.
Definition DEFAULT_MAX_AREA_RATIO : float := 0x1.ccccccccccccdp-1%float.

(** [area < min_area or area > (w_img * h_img * max_area_ratio)] *)
Definition area_rejected (min_area : Z) (max_area_ratio : float)
    (w_img h_img : Z) (r : rect) : bool :=
  let '(x, y, w, h) := r in
  let area := w * h in
  (area <? min_area)
  || PrimFloat.ltb (PrimFloat.mul (float_of_Z (w_img * h_img)) max_area_ratio)
                   (float_of_Z area).

(** Padding and clamping of one bounding rectangle; [int(w * 2 / 100)]
    truncates. *)
Definition padded_region (w_img h_img : Z) (r : rect) : region :=
  let '(x, y, w, h) := r in
  let pad_x := Z.quot (w * 2) 100 + 2 in
  let pad_y := Z.quot (h * 5) 100 + 2 in
  let x0 := Z.max 0 (x - pad_x) in
  let y0 := Z.max 0 (y - pad_y) in
  let x1 := Z.min w_img (x + w + pad_x) in
  let y1 := Z.min h_img (y + h + pad_y) in
  (y0, x0, y1, x1).

Definition region_top (r : region) : Z := let '(y0, _, _, _) := r in y0.

(** The list [regions] of [_detect_with_cv2] after sorting, from the
    bounding rectangles of the contours. *)
Definition text_regions (min_area : Z) (max_area_ratio : float)
    (w_img h_img : Z) (rects : list rect) : list region :=
  sorted_by Z.leb region_top
    (map (padded_region w_img h_img)
       (List.filter
          (fun r => negb (area_rejected min_area max_area_ratio w_img h_img r))
          rects)).

Definition crop_region (img : ndarray) (r : region) : ndarray :=
  let '(y0, x0, y1, x1) := r in crop img y0 x0 y1 x1.

(** Everything [_detect_with_cv2] computes before cropping. *)
Definition detect_regions_coords (E : Env) (img_bgr : ndarray)
    (min_area : Z) (max_area_ratio : float) : outcome (list region) :=
  let? gray := of_call (cv2_BGR2GRAY E img_bgr) in
  let? contours := of_call (cv2_text_contours E gray) in
  let? (h_img, w_img) := shape2 gray in
  Ok (text_regions min_area max_area_ratio (Z.of_nat w_img) (Z.of_nat h_img)
        (map (cv2_boundingRect E) contours)).

Definition _detect_with_cv2 (E : Env) (img_bgr : ndarray)
    (min_area : Z) (max_area_ratio : float) : outcome (list ndarray) :=
  let? regions := detect_regions_coords E img_bgr min_area max_area_ratio in
  Ok (map (crop_region img_bgr) regions).

Definition _detect_without_cv2 (img_bgr : ndarray) : outcome (list ndarray) :=
  Ok [].

Definition detect_text_regions (E : Env) (img_bgr : ndarray)
    (min_area : Z) (max_area_ratio : float) : outcome (list ndarray) :=
  if cv2_present E then _detect_with_cv2 E img_bgr min_area max_area_ratio
  else _detect_without_cv2 img_bgr.

(** ** [ocr_utils.py]: the recognizer cache *)

Definition DEFAULT_LANGS : list string := ["en"%string].

(** [set(langs) - set(reader.lang_list)] is not empty. *)
Definition missing_langs (langs : list string) (r : Reader) : bool :=
  existsb (fun l => negb (existsb (String.eqb l) (lang_list r))) langs.

(** [_OCR_READER = easyocr.Reader(langs, gpu=gpu)]: nothing is assigned when
    the constructor raises. *)
Definition build_reader (E : Env) (langs : list string) (gpu : bool)
    : M unit :=
  fun st =>
    match easyocr_Reader E langs gpu with
    | Some ll =>
        let r := {| reader_id := created st; lang_list := ll;
                    reader_gpu := gpu |} in
        (Ok tt, {| _OCR_READER := Some r; created := S (created st) |})
    | None => (Raise ExternalError, st)
    end.

Definition get_reader (E : Env) (langs : option (list string)) (gpu : bool)
    : M (option Reader) :=
  if negb (easyocr_present E) then ret None
  else
    let langs := match langs with
                 | None => DEFAULT_LANGS
                 | Some l => l
                 end in
    let* _ :=
      try_except
        (fun st =>
           match _OCR_READER st with
           | None => build_reader E langs gpu st
           | Some r => if missing_langs langs r
                       then build_reader E langs gpu st
                       else (Ok tt, st)
           end)
        (build_reader E DEFAULT_LANGS gpu) in
    fun st => (Ok (_OCR_READER st), st).

(** ** [ocr_utils.py]: cleaning and the whole-image pipeline *)

Definition collapse_whitespace (s : pystr) : pystr :=
  strip (sub WS_RUN_RE SPACE s).

Definition clean_text (E : Env) (text : option pystr) : pystr :=
  match text with
  | None => []
  | Some text =>
      let text := nfkc E text in
      let text := sub WS_RUN_RE SPACE text in
      let text := sub NON_ASCII_RUN_RE SPACE text in
      strip text
  end.

(** The result dict of [extract_text_from_image]. *)
Record SimpleResult : Type := {
  simple_raw_text : pystr;
  simple_clean_text : pystr;
  simple_lines : list span;
  simple_extracted_fields : Fields
}.

(** The result dict of the two region pipelines. *)
Record OCRResult : Type := {
  res_detected_language : option string;
  res_raw_text : pystr;
  res_clean_text : pystr;
  res_lines : list span;
  res_extracted_fields : Fields
}.

(** [[{"text": r[1], "bbox": r[0], "conf": float(r[2])} for r in results]];
    [float(None)] raises. *)
Fixpoint simple_lines_of (results : list raw_span) : outcome (list span) :=
  match results with
  | [] => Ok []
  | (b, txt, c) :: rest =>
      match c with
      | None => Raise ExternalError
      | Some v =>
          let? ls := simple_lines_of rest in
          Ok ({| bbox := Some b; text := txt; conf := Some v |} :: ls)
      end
  end.

Definition raw_text_of (r : raw_span) : pystr := let '(_, txt, _) := r in txt.

(** [reader.readtext(..)] on the value [get_reader()] answered; calling a
    method of [None] raises. *)
Definition call_readtext_detail (E : Env) (reader : option Reader)
    (img : ndarray) : option (list raw_span) :=
  match reader with
  | Some rd => readtext_detail E rd img
  | None => None
  end.

Definition call_readtext_plain (E : Env) (reader : option Reader)
    (img : ndarray) : option (list pystr) :=
  match reader with
  | Some rd => readtext_plain E rd img
  | None => None
  end.

Definition extract_text_from_image (E : Env) (image_pil : pil_image)
    (engine : string) : M SimpleResult :=
  let img := pil_to_bgr image_pil in
  let* pre := lift (preprocess_image E img) in
  let* (raw, lines) :=
    (if String.eqb engine "easyocr" && easyocr_present E then
       let* reader := get_reader E None false in
       let* results := lift (of_call (call_readtext_detail E reader pre)) in
       let raw := join SPACE (map raw_text_of results) in
       let* lines := lift (simple_lines_of results) in
       ret (raw, lines)
     else if String.eqb engine "tesseract" && pytesseract_present E then
       let* raw := lift (of_call (tesseract_image_to_string E pre)) in
       ret (raw, [])
     else ret ([], [])) in
  let cleaned := clean_text E (Some raw) in
  ret {| simple_raw_text := raw;
         simple_clean_text := cleaned;
         simple_lines := lines;
         simple_extracted_fields :=
           extract_fields (unicode_isdecimal E) cleaned |}.

(** ** [ocr_utils.py]: the region pipelines *)

Inductive ImageInput : Type :=
| InPath (path : string)
| InPil (pil : pil_image)
| InArray (a : ndarray)
| InOther.                 (* a value of any other type *)

(** Lines 102-114: the image loaded by [extract_text_whatsapp_aware].  The
    [import cv2] of the two-dimensional case raises without OpenCV. *)
Definition load_image_whatsapp (E : Env) (image_input : ImageInput)
    : outcome ndarray :=
  match image_input with
  | InPath path => let? pil := of_call (image_open E path) in
                   Ok (pil_to_bgr pil)
  | InPil pil => Ok (pil_to_bgr pil)
  | InArray a =>
      if ndim a =? 2 then
        (if cv2_present E then gray2bgr a else Raise ExternalError)
      else Ok a
  | InOther => Raise UnsupportedInputKind
  end.

(** Lines 185-194: the image loaded by [extract_text_with_urdu_support]. *)
Definition load_image_urdu (E : Env) (image_input : ImageInput)
    : outcome ndarray :=
  match image_input with
  | InPath path => let? pil := of_call (image_open E path) in
                   Ok (pil_to_bgr pil)
  | InPil pil => Ok (pil_to_bgr pil)
  | InArray a => Ok a
  | InOther => Raise UnsupportedInputKind
  end.

(** The optional hook: any exception inside the [try], the [import cv2]
    included, leaves the loaded image in place.  The hook is handed the
    array [img_bgr] itself, so it may also change it in place: a call
    answers its outcome together with the array as the call leaves it, and
    it is that array the [except] branch falls back to. *)
Definition apply_preprocess_func (E : Env)
    (preprocess_func : option (ndarray -> outcome ndarray * ndarray))
    (img_bgr : ndarray) : ndarray :=
  match preprocess_func with
  | None => img_bgr
  | Some f =>
      let '(result, img_bgr) := f img_bgr in
      match result with
      | Raise _ => img_bgr
      | Ok proc =>
          if cv2_present E then
            (if ndim proc =? 2 then
               match gray2bgr proc with
               | Ok p => p
               | Raise _ => img_bgr
               end
             else proc)
          else img_bgr
      end
  end.

(** A hook that computes its answer without touching its argument, as
    [preprocess_image] does. *)
Definition pure_hook (f : ndarray -> outcome ndarray)
    : ndarray -> outcome ndarray * ndarray :=
  fun img => (f img, img).

(** The inner loop over [res]: keep the spans at or above the threshold. *)
Fixpoint confidence_filter (min_confidence : float) (res : list raw_span)
    : list span :=
  match res with
  | [] => []
  | (b, txt, c) :: rest =>
      let confv := match c with
                   | Some v => v
                   | None => 0%float
                   end in
      if PrimFloat.leb min_confidence confv
      then {| bbox := Some b; text := txt; conf := Some confv |}
           :: confidence_filter min_confidence rest
      else confidence_filter min_confidence rest
  end.

(** [(r['bbox'][0][1], r['bbox'][0][0])]; indexing an empty box raises. *)
Definition sort_key (s : span) : option (Z * Z) :=
  match bbox s with
  | Some ((x, y) :: _) => Some (y, x)
  | _ => None
  end.

Definition key_leb (a b : Z * Z) : bool :=
  (a.1 <? b.1) || ((a.1 =? b.1) && (a.2 <=? b.2)).

Fixpoint with_keys (l : list span) : option (list (Z * Z * span)) :=
  match l with
  | [] => Some []
  | s :: rest =>
      match sort_key s, with_keys rest with
      | Some k, Some ks => Some ((k, s) :: ks)
      | _, _ => None
      end
  end.

(** [sorted(filtered, key=lambda r: (r['bbox'][0][1], r['bbox'][0][0]))] *)
Definition sorted_spans (filtered : list span) : option (list span) :=
  match with_keys filtered with
  | Some ks => Some (map snd (sorted_by key_leb fst ks))
  | None => None
  end.

(** The body of the [try] for one region; [None] when it raises. *)
Definition detail_pass_whatsapp (E : Env) (reader : option Reader)
    (min_confidence : float) (reg : ndarray)
    : option (list span * list pystr) :=
  match call_readtext_detail E reader reg with
  | None => None
  | Some res =>
      match confidence_filter min_confidence res with
      | [] => Some ([], [])
      | filtered =>
          match sorted_spans filtered with
          | None => None
          | Some filtered_sorted =>
              Some (filtered_sorted, [join SPACE (map text filtered_sorted)])
          end
      end
  end.

Definition detail_pass_urdu (E : Env) (reader : option Reader)
    (min_confidence : float) (reg : ndarray)
    : option (list span * list pystr) :=
  match call_readtext_detail E reader reg with
  | None => None
  | Some res =>
      match confidence_filter min_confidence res with
      | [] => Some ([], [])
      | filtered => Some (filtered, [join SPACE (map text filtered)])
      end
  end.

(** The [except] branch: one text-only span, or nothing. *)
Definition fallback_pass (E : Env) (reader : option Reader) (reg : ndarray)
    : list span * list pystr :=
  match call_readtext_plain E reader reg with
  | Some ((_ :: _) as single) =>
      ([{| bbox := None; text := join SPACE single; conf := None |}],
       [join SPACE single])
  | _ => ([], [])
  end.

Definition read_region (E : Env) (reader : option Reader)
    (detail : ndarray -> option (list span * list pystr)) (reg : ndarray)
    : list span * list pystr :=
  match detail reg with
  | Some r => r
  | None => fallback_pass E reader reg
  end.

(** [for reg in regions: ...], accumulating [lines] and the assembled
    texts. *)
Definition read_regions (step : ndarray -> list span * list pystr)
    (regions : list ndarray) : list span * list pystr :=
  fold_left (fun acc reg => let r := step reg in (acc.1 ++ r.1, acc.2 ++ r.2))
            regions ([], []).

Definition DEFAULT_MIN_CONFIDENCE : float := 0x1.3333333333333p-2%float.

Definition extract_text_whatsapp_aware (E : Env) (image_input : ImageInput)
    (engine : string)
    (preprocess_func : option (ndarray -> outcome ndarray * ndarray))
    (min_confidence : float) (supported_langs : option (list string))
    : M OCRResult :=
  let* img_bgr := lift (load_image_whatsapp E image_input) in
  let proc_bgr := apply_preprocess_func E preprocess_func img_bgr in
  let* reader := get_reader E None false in
  match reader with
  | None => raise RecognitionUnavailable
  | Some _ =>
      let* regions :=
        lift (detect_text_regions E proc_bgr DEFAULT_MIN_AREA
                DEFAULT_MAX_AREA_RATIO) in
      let regions := match regions with
                     | [] => [proc_bgr]
                     | _ => regions
                     end in
      let '(lines, assembled_text) :=
        read_regions
          (read_region E reader
             (detail_pass_whatsapp E reader min_confidence)) regions in
      let raw_text := join SPACE assembled_text in
      let clean := collapse_whitespace raw_text in
      ret {| res_detected_language := None;
             res_raw_text := raw_text;
             res_clean_text := clean;
             res_lines := lines;
             res_extracted_fields :=
               extract_fields (unicode_isdecimal E) clean |}
  end.

(** [shape_and_bidi] of [urdu_support.py]. *)
Definition shape_and_bidi (E : Env) (urdu_text : pystr) : option pystr :=
  match arabic_reshape E urdu_text with
  | None => None
  | Some reshaped =>
      match bidi_get_display E reshaped with
      | None => None
      | Some bidi_text => Some (normalize_digits bidi_text)
      end
  end.

(** [for l in lines: if l.get('text'): l['text'] = shape_and_bidi(..)]: the
    dicts are updated in place, so the lines before a raising call stay
    reshaped. *)
Fixpoint shape_lines (E : Env) (ls : list span) : list span :=
  match ls with
  | [] => []
  | l :: rest =>
      match text l with
      | [] => l :: shape_lines E rest
      | _ =>
          match shape_and_bidi E (text l) with
          | Some t => {| bbox := bbox l; text := t; conf := conf l |}
                      :: shape_lines E rest
          | None => l :: rest
          end
      end
  end.

Definition extract_text_with_urdu_support (E : Env) (image_input : ImageInput)
    (min_confidence : float)
    (preprocess_func : option (ndarray -> outcome ndarray * ndarray))
    : M OCRResult :=
  let detect := langdetect_detect E in
  let* img_bgr := lift (load_image_urdu E image_input) in
  let proc_bgr := apply_preprocess_func E preprocess_func img_bgr in
  let* reader := get_reader E None false in
  match reader with
  | None => raise RecognitionUnavailable
  | Some _ =>
      let quick_clean :=
        match call_readtext_plain E reader proc_bgr with
        | Some quick_res => collapse_whitespace (join SPACE quick_res)
        | None => []
        end in
      let detected_lang :=
        match detect, quick_clean with
        | Some detect, _ :: _ =>
            match detect quick_clean with
            | Some l => l
            | None => "en"%string
            end
        | _, _ => "en"%string
        end in
      let* reader :=
        try_except (get_reader E None false) (get_reader E None false) in
      let* regions :=
        lift (detect_text_regions E proc_bgr DEFAULT_MIN_AREA
                DEFAULT_MAX_AREA_RATIO) in
      let regions := match regions with
                     | [] => [proc_bgr]
                     | _ => regions
                     end in
      let '(lines, assembled) :=
        read_regions
          (read_region E reader (detail_pass_urdu E reader min_confidence))
          regions in
      let raw_text := join SPACE assembled in
      let clean := collapse_whitespace raw_text in
      let '(clean, lines) :=
        if String.eqb detected_lang "ur" then
          match shape_and_bidi E clean with
          | Some shaped => (shaped, shape_lines E lines)
          | None => (clean, lines)
          end
        else (clean, lines) in
      let clean := normalize_digits clean in
      ret {| res_detected_language := Some detected_lang;
             res_raw_text := raw_text;
             res_clean_text := clean;
             res_lines := lines;
             res_extracted_fields :=
               extract_fields_urdu (unicode_isdecimal E) clean |}
  end.

(** ** Concrete environments, used to run the model *)

(** A supported-language check in the manner of [easyocr.Reader]: the
    constructor raises on a language code it does not know. *)
Definition known_langs_only (langs : list string) (gpu : bool)
    : option (list string) :=
  if forallb (fun l => existsb (String.eqb l) ["en"; "ur"]%string) langs
  then Some langs else None.

(** The bounding rectangle of a set of pixel positions, as
    [cv2.boundingRect] computes it for a contour. *)
Definition bounding_rect (c : contour) : rect :=
  match c with
  | [] => (0, 0, 0, 0)
  | (x, y) :: rest =>
      let xmin := fold_right Z.min x (map fst rest) in
      let xmax := fold_right Z.max x (map fst rest) in
      let ymin := fold_right Z.min y (map snd rest) in
      let ymax := fold_right Z.max y (map snd rest) in
      (xmin, ymin, xmax - xmin + 1, ymax - ymin + 1)
  end.

Definition first_channel (px : list Z) : Z :=
  match px with
  | v :: _ => v
  | [] => 0
  end.

(** An environment from its recognition behaviour; OpenCV, when present,
    converts colour images only and finds the given contours. *)
Definition mk_env (easyocr pytesseract cv2 : bool)
    (detail : Reader -> ndarray -> option (list raw_span))
    (plain : Reader -> ndarray -> option (list pystr))
    (contours : list contour) : Env :=
  {| easyocr_present := easyocr;
     pytesseract_present := pytesseract;
     cv2_present := cv2;
     easyocr_Reader := known_langs_only;
     readtext_detail := detail;
     readtext_plain := plain;
     tesseract_image_to_string := fun _ => Some (lit "tess");
     image_open := fun _ => None;
     cv2_BGR2GRAY :=
       (fun a => match a with
                 | Arr3 rows => Some (Arr2 (map (map first_channel) rows))
                 | Arr2 _ => None
                 end);
     cv2_medianBlur := fun a _ => Some a;
     cv2_resize_linear := fun a _ => Some (upscale2 a);
     cv2_adaptiveThreshold := fun a _ _ _ => Some a;
     cv2_text_contours := fun _ => Some contours;
     cv2_boundingRect := bounding_rect;
     luminance_u8 := fun r g b => (r + g + b) / 3;
     langdetect_detect := None;
     arabic_reshape := Some;
     bidi_get_display := Some;
     unicode_isdecimal := fun _ => false;
     nfkc := fun t => t |}.

Definition no_detail (_ : Reader) (_ : ndarray) : option (list raw_span) :=
  None.

Definition no_plain (_ : Reader) (_ : ndarray) : option (list pystr) := None.

Definition st0 : PyState := {| _OCR_READER := None; created := 0 |}.

Definition reader_en : Reader :=
  {| reader_id := 0; lang_list := ["en"%string]; reader_gpu := false |}.

Definition st_en : PyState := {| _OCR_READER := Some reader_en; created := 1 |}.

(** A one-pixel colour image and a one-pixel gray image. *)
Definition img_1x1 : ndarray := Arr3 [[[10; 20; 30]]].
Definition gray_1x1 : ndarray := Arr2 [[7]].

(** A recognizer that reads one confident span on every image. *)
Definition detail_hello (_ : Reader) (_ : ndarray)
    : option (list raw_span) :=
  Some [([(0, 0); (9, 0); (9, 9); (0, 9)], lit "hello",
         Some 0x1.ccccccccccccdp-1%float)].

Definition env_hello : Env :=
  mk_env true false false detail_hello no_plain [].

(** ** Properties of spans used in the statements *)

(** The span carries a confidence, and it is at least the threshold. *)
Definition confident (min_confidence : float) (s : span) : Prop :=
  exists c, conf s = Some c /\ PrimFloat.leb min_confidence c = true.

(** The span carries a confidence, and it is below the threshold. *)
Definition below_threshold (min_confidence : float) (s : span) : Prop :=
  exists c, conf s = Some c /\ PrimFloat.ltb c min_confidence = true.

(** The span of the text-only retry: no box and no confidence. *)
Definition text_only (s : span) : Prop := conf s = None /\ bbox s = None.

(** A recognizer whose detailed call raises and whose text-only call reads
    one word. *)
Definition plain_hi (_ : Reader) (_ : ndarray) : option (list pystr) :=
  Some [lit "hi"].

Definition env_retry : Env := mk_env true false false no_detail plain_hi [].

(** ** Vocabulary for the recognizer cache *)

(** The language set a call asks for. *)
Definition requested (langs : option (list string)) : list string :=
  match langs with
  | None => DEFAULT_LANGS
  | Some l => l
  end.

(** The object a successful constructor call creates, and the state with
    it installed. *)
Definition fresh_reader (st : PyState) (ll : list string) (gpu : bool)
    : Reader :=
  {| reader_id := created st; lang_list := ll; reader_gpu := gpu |}.

Definition installed (st : PyState) (r : Reader) : PyState :=
  {| _OCR_READER := Some r; created := S (created st) |}.

(** The condition under which the constructor is called. *)
Definition must_build (langs : option (list string)) (st : PyState) : Prop :=
  _OCR_READER st = None
  \/ exists r l, _OCR_READER st = Some r
                 /\ In l (requested langs) /\ ~ In l (lang_list r).

(** ** Properties of images and regions used in the statements *)

Definition rectangular {A : Type} (rows : list (list A)) : bool :=
  forallb (fun r => (length r =? row_width rows)%nat) rows.

(** A non-empty rectangular pixel array, with at least one channel. *)
Definition well_formed_image (a : ndarray) : bool :=
  match a with
  | Arr2 rows =>
      (0 <? length rows)%nat && (0 <? row_width rows)%nat && rectangular rows
  | Arr3 rows =>
      (0 <? length rows)%nat && (0 <? row_width rows)%nat && rectangular rows
      && (0 <? channels rows)%nat
      && forallb (forallb (fun px => (length px =? channels rows)%nat)) rows
  end.

(** Black and white only. *)
Definition binarized (a : ndarray) : Prop :=
  Forall (fun v => v = 0 \/ v = 255) (scalars a).

(** What [cv2.boundingRect] promises for a contour found in an image of
    width [w_img] and height [h_img]: the rectangle lies inside it. *)
Definition rect_inside (w_img h_img : Z) (r : rect) : bool :=
  let '(x, y, w, h) := r in
  (0 <=? x) && (0 <=? y) && (0 <=? w) && (0 <=? h)
  && (x + w <=? w_img) && (y + h <=? h_img).

Definition region_inside (w_img h_img : Z) (r : region) : Prop :=
  let '(y0, x0, y1, x1) := r in
  0 <= y0 <= y1 /\ y1 <= h_img /\ 0 <= x0 <= x1 /\ x1 <= w_img.

(** A 40 x 60 colour image with two text blobs, one touching the left,
    top and right borders. *)
Definition img_40x60 : ndarray :=
  Arr3 (repeat (repeat [200; 200; 200] 60) 40).

(** A gray image whose shorter side is not below 400. *)
Definition gray_400x400 : ndarray := Arr2 (repeat (repeat 7 400) 400).

Definition env_page : Env :=
  mk_env true false true detail_hello no_plain
    [ [(5, 25); (34, 38)]; [(0, 0); (59, 9)] ].

(** ** Whitespace and probes *)

(** No two adjacent whitespace characters. *)
Fixpoint ws_collapsed (s : pystr) : bool :=
  match s with
  | c :: s' =>
      match s' with
      | d :: _ => negb (is_space c && is_space d) && ws_collapsed s'
      | [] => true
      end
  | [] => true
  end.

Definition no_leading_space (s : pystr) : Prop :=
  match s with
  | c :: _ => is_space c = false
  | [] => True
  end.

(** The text "a", blank, ARABIC LETTER ALEF (U+0627), blank, "b": three
    words as [" ".join] assembles them. *)
Definition MIXED_TEXT : pystr := [97; 32; 0x627; 32; 98].

Definition detail_mixed (_ : Reader) (_ : ndarray)
    : option (list raw_span) :=
  Some [ ([(0, 0)], lit "a", Some 0x1.ccccccccccccdp-1%float);
         ([(9, 0)], [0x627], Some 0x1.ccccccccccccdp-1%float);
         ([(18, 0)], lit "b", Some 0x1.ccccccccccccdp-1%float) ].

Definition env_mixed : Env := mk_env true false false detail_mixed no_plain [].

(** A recognizer that reports how many dimensions the array it is given
    has. *)
Definition detail_ndim (_ : Reader) (a : ndarray) : option (list raw_span) :=
  Some [ ([(0, 0)], if ndim a =? 2 then lit "2D" else lit "3D",
          Some 0x1.ccccccccccccdp-1%float) ].

Definition env_probe (cv2 : bool) : Env :=
  mk_env true false cv2 detail_ndim no_plain [].

(** Environments without the recognition engine: without and with
    tesseract. *)
Definition env_off : Env := mk_env false false false no_detail no_plain [].

Definition env_tesseract_only : Env :=
  mk_env false true false no_detail no_plain [].

Definition pil_1x1 : pil_image := {| rgb_rows := [[[10; 20; 30]]] |}.

(** An environment where easyocr imports but its [Reader] constructor
    raises for every language list (no model files, say). *)
Definition env_broken_engine : Env :=
  {| easyocr_present := true;
     pytesseract_present := false;
     cv2_present := false;
     easyocr_Reader := fun _ _ => None;
     readtext_detail := no_detail;
     readtext_plain := no_plain;
     tesseract_image_to_string := fun _ => None;
     image_open := fun _ => None;
     cv2_BGR2GRAY := fun _ => None;
     cv2_medianBlur := fun _ _ => None;
     cv2_resize_linear := fun _ _ => None;
     cv2_adaptiveThreshold := fun _ _ _ _ => None;
     cv2_text_contours := fun _ => None;
     cv2_boundingRect := bounding_rect;
     luminance_u8 := fun r g b => (r + g + b) / 3;
     langdetect_detect := None;
     arabic_reshape := Some;
     bidi_get_display := Some;
     unicode_isdecimal := fun _ => false;
     nfkc := fun t => t |}.

(** ** Further recognizers, to run the pipelines end to end *)

Definition HIGH : float := 0x1.ccccccccccccdp-1%float.  (* 0.9 *)
Definition LOW : float := 0x1.999999999999ap-4%float.   (* 0.1 *)

(** Five spans of one region, out of reading order, one below the default
    threshold and one without a confidence. *)
Definition detail_unsorted (_ : Reader) (_ : ndarray)
    : option (list raw_span) :=
  Some [ ([(50, 10)], lit "c", Some HIGH);
         ([(5, 10)], lit "b", Some HIGH);
         ([(1, 1)], lit "zz", Some LOW);
         ([(0, 0)], lit "a", Some HIGH);
         ([(7, 3)], lit "n", None) ].

Definition env_unsorted : Env :=
  mk_env true false false detail_unsorted no_plain [].

(** The scenario text recognized as one span. *)
Definition detail_scenario (_ : Reader) (_ : ndarray)
    : option (list raw_span) :=
  Some [ ([(0, 0)], SCENARIO_TEXT, Some HIGH) ].

Definition env_scenario : Env :=
  mk_env true false false detail_scenario no_plain [].

(** Urdu digits, with a language detector that answers [ur]. *)
Definition URDU_123 : pystr := [0x6F1; 0x6F2; 0x6F3].

Definition env_urdu : Env :=
  {| easyocr_present := true;
     pytesseract_present := false;
     cv2_present := false;
     easyocr_Reader := known_langs_only;
     readtext_detail := fun _ _ => Some [ ([(0, 0)], URDU_123, Some HIGH) ];
     readtext_plain := fun _ _ => Some [URDU_123];
     tesseract_image_to_string := fun _ => None;
     image_open := fun _ => None;
     cv2_BGR2GRAY := fun _ => None;
     cv2_medianBlur := fun _ _ => None;
     cv2_resize_linear := fun _ _ => None;
     cv2_adaptiveThreshold := fun _ _ _ _ => None;
     cv2_text_contours := fun _ => None;
     cv2_boundingRect := bounding_rect;
     luminance_u8 := fun r g b => (r + g + b) / 3;
     langdetect_detect := Some (fun _ => Some "ur"%string);
     arabic_reshape := Some;
     bidi_get_display := Some;
     unicode_isdecimal :=
       (fun c => ((0x660 <=? c) && (c <=? 0x669))
                 || ((0x6F0 <=? c) && (c <=? 0x6F9)));
     nfkc := fun t => t |}.

(** ** The language of a pattern

    [matches r m]: the string [m] is one that the pattern [r] can match,
    read off the pattern alone.  The matcher above searches; this says what
    it may find. *)
Inductive matches : regex -> pystr -> Prop :=
| matches_eps : matches Eps []
| matches_cls p c : p c = true -> matches (Cls p) [c]
| matches_rep p lo hi m :
    Forall (fun c => p c = true) m ->
    (lo <= length m)%nat ->
    (forall n, hi = Some n -> (length m <= n)%nat) ->
    matches (Rep p lo hi) m
| matches_cat r1 r2 m1 m2 :
    matches r1 m1 -> matches r2 m2 -> matches (Cat r1 r2) (m1 ++ m2)
| matches_alt_l r1 r2 m : matches r1 m -> matches (Alt r1 r2) m
| matches_alt_r r1 r2 m : matches r2 m -> matches (Alt r1 r2) m.

(** [x] occurs in [s] as a contiguous piece. *)
Definition substring (x s : pystr) : Prop :=
  exists pre post, s = pre ++ x ++ post.

(** The classes of the field patterns. *)
Definition phone_tail_char (nd : Z -> bool) : Z -> bool :=
  either (is_digit nd) (either is_space (chr "-")).

Definition PLUS_SIGN : Z := ord "+".
Definition AT_SIGN : Z := ord "@".
Definition DOT : Z := ord ".".

(** What a candidate of each field looks like. *)
Definition phone_shape (nd : Z -> bool) (x : pystr) : Prop :=
  exists sign d t,
    x = sign ++ d :: t
    /\ (sign = [] \/ sign = [PLUS_SIGN])
    /\ is_digit nd d = true
    /\ (5 <= length t)%nat
    /\ Forall (fun c => phone_tail_char nd c = true) t.

Definition email_local_char : Z -> bool := either alnum (one_of "._+-").
Definition email_local_char_urdu : Z -> bool := either alnum (one_of "._%+-").
Definition email_domain_char : Z -> bool := either alnum (one_of ".-").

Definition email_shape (local_char : Z -> bool) (x : pystr) : Prop :=
  exists loc dom tld,
    x = loc ++ AT_SIGN :: dom ++ DOT :: tld
    /\ loc <> [] /\ Forall (fun c => local_char c = true) loc
    /\ dom <> [] /\ Forall (fun c => email_domain_char c = true) dom
    /\ (2 <= length tld)%nat /\ Forall (fun c => alpha c = true) tld.

Definition url_shape (x : pystr) : Prop :=
  exists scheme rest,
    x = scheme ++ rest
    /\ (scheme = lit "http://" \/ scheme = lit "https://"
        \/ scheme = lit "www.")
    /\ rest <> []
    /\ Forall (fun c => is_space c = false) rest.

Definition amount_shape (nd : Z -> bool) (x : pystr) : Prop :=
  exists marker blank d t,
    x = marker ++ blank ++ d :: t
    /\ (marker = lit "Rs" \/ marker = lit "Rs." \/ marker = lit "INR"
        \/ marker = lit "$")
    /\ (blank = [] \/ exists c, blank = [c] /\ is_space c = true)
    /\ is_digit nd d = true
    /\ Forall (fun c => is_digit nd c = true \/ c = ord ",") t.

Definition no_decimals (_ : Z) : bool := false.

(** ** Vocabulary for text properties *)

(** What is left of [s] after its longest prefix in the class [p]. *)
Fixpoint drop_class (p : Z -> bool) (s : pystr) : pystr :=
  match s with
  | c :: s' => if p c then drop_class p s' else s
  | [] => []
  end.

Definition is_ascii (c : Z) : bool := (0 <=? c) && (c <=? 0x7F).

(** The Arabic-Indic digits U+0660..U+0669 and the Extended Arabic-Indic
    digits U+06F0..U+06F9. *)
Definition is_arabic_indic_digit (c : Z) : bool :=
  ((0x660 <=? c) && (c <=? 0x669)) || ((0x6F0 <=? c) && (c <=? 0x6F9)).

(** The ASCII digit with the same value, by arithmetic on code points. *)
Definition digit_to_ascii (c : Z) : Z :=
  if (0x660 <=? c) && (c <=? 0x669) then c - 0x660 + 48
  else if (0x6F0 <=? c) && (c <=? 0x6F9) then c - 0x6F0 + 48
  else c.

(** Whitespace occurs only as single blanks between other characters. *)
Definition single_spaced (s : pystr) : Prop :=
  ws_collapsed s = true
  /\ Forall (fun c => is_space c = true -> c = 32) s
  /\ no_leading_space s
  /\ no_leading_space (rev s).

(** ** Vocabulary for order *)

(** Every element is below all later ones. *)
Fixpoint ordered {A : Type} (le : A -> A -> Prop) (l : list A) : Prop :=
  match l with
  | [] => True
  | x :: l' => Forall (le x) l' /\ ordered le l'
  end.

(** The sort key of [s1] is at or before that of [s2]: higher on the page,
    or at the same height and not to the right. *)
Definition reads_before (s1 s2 : span) : Prop :=
  exists k1 k2,
    sort_key s1 = Some k1 /\ sort_key s2 = Some k2 /\ key_leb k1 k2 = true.

Definition ZERO_CONF : float := 0%float.

(** The span the filter builds from a recognized item. *)
Definition kept_span (r : raw_span) : span :=
  let '(b, txt, c) := r in
  {| bbox := Some b; text := txt;
     conf := Some (match c with Some v => v | None => ZERO_CONF end) |}.

(** The test of the filter on a recognized item. *)
Definition passes (min_confidence : float) (r : raw_span) : bool :=
  let '(_, _, c) := r in
  PrimFloat.leb min_confidence
    (match c with Some v => v | None => ZERO_CONF end).

(** What one region adds: nothing, or some lines and their joined text. *)
Definition region_output_ok (out : list span * list pystr) : Prop :=
  out = ([], [])
  \/ (out.1 <> [] /\ out.2 = [join SPACE (map text out.1)]).

(** ** Vocabulary for pipeline runs *)

(** The constructor called for the default languages loads English. *)
Definition default_reader_reads_english (E : Env) : Prop :=
  forall ll, easyocr_Reader E DEFAULT_LANGS false = Some ll ->
             In "en"%string ll.

(** A hook that answers a fixed image and leaves its argument alone. *)
Definition hook_const (a : ndarray) : ndarray -> outcome ndarray * ndarray :=
  pure_hook (fun _ => Ok a).

(** A hook that overwrites its argument with a fixed image and then
    raises. *)
Definition hook_overwrite (a : ndarray)
    : ndarray -> outcome ndarray * ndarray :=
  fun _ => (Raise ExternalError, a).

(** The array a hook leaves in place of its argument. *)
Definition left_behind (f : ndarray -> outcome ndarray * ndarray)
    (img : ndarray) : ndarray :=
  (f img).2.

(** A recognizer that reads what the first value of the image says:
    ["dark"] below 128 and ["light"] from 128 on. *)
Definition detail_brightness (_ : Reader) (a : ndarray)
    : option (list raw_span) :=
  match scalars a with
  | v :: _ => Some [ ([(0, 0)], if v <? 128 then lit "dark" else lit "light",
                      Some HIGH) ]
  | [] => None
  end.

Definition env_brightness (cv2 : bool) : Env :=
  mk_env true false cv2 detail_brightness no_plain [].

Definition img_light : ndarray := Arr3 [[[250; 250; 250]]].

(** A recognizer whose first item has no confidence. *)
Definition detail_unscored (_ : Reader) (_ : ndarray)
    : option (list raw_span) :=
  Some [ ([(0, 0)], lit "n", None); ([(0, 9)], lit "m", Some HIGH) ].

Definition env_unscored : Env :=
  mk_env true false false detail_unscored no_plain [].

(** ** Vocabulary for regions and crops *)

(** The number of pixels of a region. *)
Definition region_area (r : region) : Z :=
  let '(y0, x0, y1, x1) := r in (y1 - y0) * (x1 - x0).

(** The region covers the rectangle. *)
Definition covers (reg : region) (r : rect) : Prop :=
  let '(y0, x0, y1, x1) := reg in
  let '(x, y, w, h) := r in
  y0 <= y /\ y + h <= y1 /\ x0 <= x /\ x + w <= x1.

(** The first region starts at or above the second. *)
Definition not_below (a b : region) : Prop := region_top a <= region_top b.

(** The test of the detection loop, negated: the rectangle is kept. *)
Definition accepted (min_area : Z) (max_area_ratio : float)
    (w_img h_img : Z) (r : rect) : bool :=
  negb (area_rejected min_area max_area_ratio w_img h_img r).

(** Every row has the width of the first. *)
Definition rectangular_array (a : ndarray) : bool :=
  match a with
  | Arr2 rows => rectangular rows
  | Arr3 rows => rectangular rows
  end.

(** The height and width a region asks for. *)
Definition region_hw (r : region) : nat * nat :=
  let '(y0, x0, y1, x1) := r in (Z.to_nat (y1 - y0), Z.to_nat (x1 - x0)).

(** All values of the array are the same. *)
Definition uniform (a : ndarray) : Prop :=
  exists v, Forall (fun x => x = v) (scalars a).

(** A colour image of one grey level, and one with a dark corner. *)
Definition img_flat : ndarray := Arr3 (repeat (repeat [90; 90; 90] 3) 2).

Definition img_corner : ndarray :=
  Arr3 [ [[10; 10; 10]; [200; 200; 200]]; [[200; 200; 200]; [200; 200; 200]] ].

(** An array of three rows and no column. *)
Definition img_no_column : ndarray := Arr3 [ []; []; [] ].

(** ** [app.py]: the dispatch of [run_pipeline] *)

(** What [run_pipeline] returns: the dict of the simple extraction or the
    dict of a region pipeline. *)
Inductive PipelineOutput : Type :=
| SimpleOut (out : SimpleResult)
| RegionOut (out : OCRResult).

(** [Image.open(path)]; the conversion to RGB that every pipeline applies
    to the opened image first is part of [image_open]. *)
Definition run_pipeline (E : Env) (path : string) (mode : string)
    : M PipelineOutput :=
  let* img := lift (of_call (image_open E path)) in
  if String.eqb mode "simple" then
    let* out := extract_text_from_image E img "easyocr" in
    ret (SimpleOut out)
  else if String.eqb mode "whatsapp" then
    let* out := extract_text_whatsapp_aware E (InPil img) "easyocr" None
                  DEFAULT_MIN_CONFIDENCE None in
    ret (RegionOut out)
  else
    let* out := extract_text_with_urdu_support E (InPil img)
                  DEFAULT_MIN_CONFIDENCE None in
    ret (RegionOut out).

(** An environment whose files cannot be opened, and one with one image
    file. *)
Definition env_one_file : Env :=
  {| easyocr_present := true;
     pytesseract_present := false;
     cv2_present := false;
     easyocr_Reader := known_langs_only;
     readtext_detail := detail_hello;
     readtext_plain := no_plain;
     tesseract_image_to_string := fun _ => None;
     image_open :=
       (fun p => if String.eqb p "chat.png" then Some pil_1x1 else None);
     cv2_BGR2GRAY := fun _ => None;
     cv2_medianBlur := fun _ _ => None;
     cv2_resize_linear := fun _ _ => None;
     cv2_adaptiveThreshold := fun _ _ _ _ => None;
     cv2_text_contours := fun _ => None;
     cv2_boundingRect := bounding_rect;
     luminance_u8 := fun r g b => (r + g + b) / 3;
     langdetect_detect := None;
     arabic_reshape := Some;
     bidi_get_display := Some;
     unicode_isdecimal := fun _ => false;
     nfkc := fun t => t |}.

(** ** [gemini_client.py] and [server.py] *)

(** A parsed JSON value, as [resp.json()] returns it; the entries of an
    object have distinct keys. *)
#[warnings="-register-all"]
Inductive json : Type :=
| JNull
| JBool (b : bool)
| JInt (z : Z)
| JFloat (f : float)
| JStr (s : pystr)
| JList (items : list json)
| JDict (entries : list (pystr * json)).

(** The truth value Python gives to such a value. *)
Definition truthy (v : json) : bool :=
  match v with
  | JNull => false
  | JBool b => b
  | JInt z => negb (z =? 0)
  | JFloat f => negb (PrimFloat.eqb f 0)
  | JStr s => match s with [] => false | _ => true end
  | JList items => match items with [] => false | _ => true end
  | JDict entries => match entries with [] => false | _ => true end
  end.

(** The truth value of an [Optional[str]]: [None] and the empty string are
    false. *)
Definition key_given (k : option pystr) : bool :=
  match k with
  | Some (_ :: _) => true
  | _ => false
  end.

(** [k in d] and [d[k]] *)
Fixpoint dict_lookup (k : pystr) (d : list (pystr * json)) : option json :=
  match d with
  | [] => None
  | (k', v) :: d' => if bool_decide (k = k') then Some v else dict_lookup k d'
  end.

(** [d.get(k)] *)
Definition dict_get (k : pystr) (d : list (pystr * json)) : json :=
  match dict_lookup k d with
  | Some v => v
  | None => JNull
  end.

Definition DEFAULT_MODEL : pystr := lit "text-bison-001".

Definition BASE_URL : pystr :=
  lit "https://generativelanguage.googleapis.com/v1beta2/models".

Definition DEFAULT_TEMPERATURE : float := 0x1.999999999999ap-3%float.

Definition DEFAULT_MAX_OUTPUT_TOKENS : Z := 512.

(** One call of [requests.post]: the URL, the [key] parameter and the JSON
    body. *)
Record gemini_request : Type := {
  req_url : pystr;
  req_key : pystr;
  req_prompt : pystr;
  req_temperature : float;
  req_max_output_tokens : Z
}.

Record response : Type := {
  status_code : Z;
  resp_json : option json     (* [None]: [resp.json()] raises *)
}.

(** What the client and the service take from outside. *)
Record Net : Type := {
  requests_post : gemini_request -> option response;  (* [None]: raises *)
  environ_GEMINI_API_KEY : option pystr;
  py_str : json -> pystr                              (* [str(value)] *)
}.

Inductive service_exn : Type :=
| ApiKeyRequired               (* ValueError("API key is required") *)
| RequestFailed                (* RuntimeError("Gemini API request failed..") *)
| LibraryError                 (* raised by requests.post or resp.json() *)
| NoSuchAttribute              (* AttributeError: no [.get] on the value *)
| HTTPException (status : Z).

Inductive reply (A : Type) : Type :=
| Returned (a : A)
| Raised (e : service_exn).

Arguments Returned {A} a.
Arguments Raised {A} e.

(** The state is the list of requests posted so far. *)
Definition G (A : Type) : Type :=
  list gemini_request -> reply A * list gemini_request.

(** [resp.raise_for_status()] raises on the 4xx and 5xx codes. *)
Definition raises_for_status (r : response) : bool :=
  (400 <=? status_code r) && (status_code r <? 600).

Definition NEWLINE : pystr := [10].

Definition build_prompt_from_payload (N : Net) (payload : json) : pystr :=
  lit "You are an assistant. Analyze the following OCR/extracted data from a scam screenshot "
  ++ lit "and provide a concise structured response. Return JSON with keys: 'summary', 'risks', "
  ++ lit "and 'suggested_actions'. Do not include explanations beyond the JSON."
  ++ NEWLINE ++ NEWLINE
  ++ lit "INPUT_JSON:" ++ NEWLINE ++ py_str N payload ++ NEWLINE ++ NEWLINE
  ++ lit "Respond with valid JSON.".

Record gemini_reply : Type := {
  content : json;
  raw : json
}.

(** Lines 74-85: the text taken out of the parsed response. *)
Definition output_text_of (N : Net) (data : json) : reply json :=
  match data with
  | JDict d =>
      match dict_lookup (lit "candidates") d with
      | Some (JList (first :: _)) =>
          match first with
          | JDict c =>
              let output := dict_get (lit "output") c in
              Returned (if truthy output then output
                        else dict_get (lit "content") c)
          | _ => Raised NoSuchAttribute
          end
      | _ =>
          match dict_lookup (lit "output") d with
          | Some v => Returned v
          | None => Returned (JStr (py_str N data))
          end
      end
  | _ => Returned (JStr (py_str N data))
  end.

Definition call_gemini (N : Net) (api_key : option pystr)
    (prompt model : pystr) (temperature : float) (max_output_tokens : Z)
    : G gemini_reply :=
  fun sent =>
    match api_key with
    | Some ((_ :: _) as key) =>
        let req := {| req_url := BASE_URL ++ lit "/" ++ model
                                 ++ lit ":generateText";
                      req_key := key;
                      req_prompt := prompt;
                      req_temperature := temperature;
                      req_max_output_tokens := max_output_tokens |} in
        let sent := sent ++ [req] in
        match requests_post N req with
        | None => (Raised LibraryError, sent)
        | Some resp =>
            if raises_for_status resp then (Raised RequestFailed, sent)
            else
              match resp_json resp with
              | None => (Raised LibraryError, sent)
              | Some data =>
                  match output_text_of N data with
                  | Returned output_text =>
                      (Returned {| content := output_text; raw := data |},
                       sent)
                  | Raised e => (Raised e, sent)
                  end
              end
        end
    | _ => (Raised ApiKeyRequired, sent)
    end.

Definition send_member2_output_to_gemini (N : Net) (member2_payload : json)
    (api_key : option pystr) (model : pystr) : G gemini_reply :=
  let api_key := match api_key with
                 | None => environ_GEMINI_API_KEY N
                 | Some _ => api_key
                 end in
  let prompt := build_prompt_from_payload N member2_payload in
  call_gemini N api_key prompt model DEFAULT_TEMPERATURE
    DEFAULT_MAX_OUTPUT_TOKENS.

(** The validated body of a [POST /forward]. *)
Record ForwardRequest : Type := {
  member_id : Z;
  payload : json;
  api_key : option pystr
}.

(** [{"status": "ok", "gemini": resp}] *)
Record ForwardReply : Type := {
  status : pystr;
  gemini : gemini_reply
}.

Definition forward (N : Net) (request : ForwardRequest) : G ForwardReply :=
  fun sent =>
    if negb (member_id request =? 2) then (Raised (HTTPException 400), sent)
    else
      let key := if key_given (api_key request) then api_key request
                 else environ_GEMINI_API_KEY N in
      if negb (key_given key) then (Raised (HTTPException 500), sent)
      else
        match send_member2_output_to_gemini N (payload request) key
                DEFAULT_MODEL sent with
        | (Returned resp, sent') =>
            (Returned {| status := lit "ok"; gemini := resp |}, sent')
        | (Raised _, sent') => (Raised (HTTPException 502), sent')
        end.

(** The key a [POST /forward] works with. *)
Definition effective_key (N : Net) (request : ForwardRequest)
    : option pystr :=
  if key_given (api_key request) then api_key request
  else environ_GEMINI_API_KEY N.

(** A remote end that answers every request with one candidate, and an
    environment variable holding a key. *)
Definition net_echo : Net :=
  {| requests_post :=
       (fun req =>
          Some {| status_code := 200;
                  resp_json :=
                    Some (JDict [ (lit "candidates",
                                   JList [ JDict [ (lit "output",
                                                    JStr (req_key req)) ] ])
                                ]) |});
     environ_GEMINI_API_KEY := Some (lit "env-key");
     py_str := fun _ => lit "{}" |}.

(** A remote end that rejects every request, and no environment key. *)
Definition net_denied : Net :=
  {| requests_post :=
       (fun _ => Some {| status_code := 403; resp_json := None |});
     environ_GEMINI_API_KEY := None;
     py_str := fun _ => lit "{}" |}.

(** A recognizer with one confident and one doubtful item. *)
Definition detail_two_levels (_ : Reader) (_ : ndarray)
    : option (list raw_span) :=
  Some [ ([(50, 10)], lit "c", Some HIGH); ([(1, 1)], lit "zz", Some LOW) ].

Definition env_two_levels : Env :=
  mk_env true false false detail_two_levels no_plain [].

(** * Theorems *)

(** ** Digit normalization *)

Lemma translate_app table (s t : pystr) :
  translate table (s ++ t) = translate table s ++ translate table t.
Proof. unfold translate. apply flat_map_app. Qed.

Lemma translate_cons table (c : Z) (t : pystr) :
  translate table (c :: t)
  = match table !! c with Some r => r | None => [c] end ++ translate table t.
Proof. reflexivity. Qed.

(** Every replacement in the table is itself left alone by the table. *)
Lemma digits_table_fixed c r :
  ARABIC_INDIC_DIGITS !! c = Some r -> normalize_digits r = r.
Proof.
  unfold ARABIC_INDIC_DIGITS. intros H.
  apply elem_of_list_to_map_2 in H.
  repeat (apply elem_of_cons in H as [H | H];
          [injection H as -> ->; vm_compute; reflexivity |]).
  by apply elem_of_nil in H.
Qed.

(** C9. Digit normalization is idempotent: for every text [T],
    [normalize_digits (normalize_digits T) = normalize_digits T]. *)
Theorem normalize_digits_idempotent (T : pystr) :
  normalize_digits (normalize_digits T) = normalize_digits T.
Proof.
  unfold normalize_digits.
  induction T as [| c T IH]; [reflexivity |].
  rewrite translate_cons, translate_app, IH. f_equal.
  destruct (ARABIC_INDIC_DIGITS !! c) as [r |] eqn:Hc.
  - exact (digits_table_fixed c r Hc).
  - rewrite translate_cons, Hc. reflexivity.
Qed.

(** The literal scenario of the specification: Urdu digits become ASCII. *)
Example normalize_digits_urdu_123 :
  normalize_digits [0x6F1; 0x6F2; 0x6F3] = lit "123".
Proof. vm_compute. reflexivity. Qed.

(** ** Field extraction on the literal scenario *)

(** C2, as stated, fails: the phone pattern's class contains whitespace, so
    the greedy match runs over the blank after the last digit and the exact
    string ["+92 300 1234567"] is not among the phones. *)
Lemma scenario_phone_not_exact :
  ~ exists nd, In (lit "+92 300 1234567")
                  (phones (extract_fields nd SCENARIO_TEXT)).
Proof.
  intros [nd H]. vm_compute in H.
  destruct H as [H | []]. discriminate H.
Qed.

(** C2, amended. On the scenario text both field extractors return exactly:
    phones [["+92 300 1234567 "]] (with the trailing blank), emails
    [["scam@fraud.com"]], urls [["www.fakepay.com"]], amounts
    [["Rs. 5,000"]]. *)
Theorem scenario_fields (nd : Z -> bool) :
  let expected :=
    {| phones := [lit "+92 300 1234567 "];
       emails := [lit "scam@fraud.com"];
       urls := [lit "www.fakepay.com"];
       amounts := [lit "Rs. 5,000"] |} in
  extract_fields nd SCENARIO_TEXT = expected
  /\ extract_fields_urdu nd SCENARIO_TEXT = expected.
Proof. split; vm_compute; reflexivity. Qed.

(** The pattern model against [re] on further inputs: backtracking in the
    domain of an address, alternatives in order, greedy classes. *)
Example findall_urls nd :
  urls (extract_fields nd (lit "see https://x.y/z now http://a"))
  = [lit "https://x.y/z"; lit "http://a"].
Proof. vm_compute. reflexivity. Qed.

Example findall_amounts nd :
  amounts (extract_fields nd (lit "pay INR 500 and $5 or Rs.1,200,"))
  = [lit "INR 500"; lit "$5"; lit "Rs.1,200,"].
Proof. vm_compute. reflexivity. Qed.

Example findall_phones nd :
  phones (extract_fields nd (lit "tel 12345 123456 +1-800-555-0199x"))
  = [lit "12345 123456 "; lit "+1-800-555-0199"].
Proof. vm_compute. reflexivity. Qed.

Example findall_emails nd :
  emails (extract_fields nd (lit "mail a.b@c.de. x@y.z q@w.io"))
  = [lit "a.b@c.de"; lit "q@w.io"].
Proof. vm_compute. reflexivity. Qed.

Example collapse_whitespace_mixed :
  collapse_whitespace
    ([32; 32; 97; 32; 9; 10; 32; 98; 0xA0; 0x2003; 99; 32; 32])
  = lit "a b c".
Proof. vm_compute. reflexivity. Qed.

(** ** The region pipelines, inverted *)

Lemma whatsapp_ok_inv E input engine pf theta sl st r st' :
  extract_text_whatsapp_aware E input engine pf theta sl st = (Ok r, st') ->
  exists img rd regions,
    load_image_whatsapp E input = Ok img
    /\ get_reader E None false st = (Ok (Some rd), st')
    /\ detect_text_regions E (apply_preprocess_func E pf img)
         DEFAULT_MIN_AREA DEFAULT_MAX_AREA_RATIO = Ok regions
    /\ let proc := apply_preprocess_func E pf img in
       let out :=
         read_regions
           (read_region E (Some rd) (detail_pass_whatsapp E (Some rd) theta))
           (match regions with [] => [proc] | _ => regions end) in
       r = {| res_detected_language := None;
              res_raw_text := join SPACE out.2;
              res_clean_text := collapse_whitespace (join SPACE out.2);
              res_lines := out.1;
              res_extracted_fields :=
                extract_fields (unicode_isdecimal E)
                  (collapse_whitespace (join SPACE out.2)) |}.
Proof.
  intros H. unfold extract_text_whatsapp_aware in H.
  unfold bind at 1 in H. unfold lift at 1 in H.
  destruct (load_image_whatsapp E input) as [img | e] eqn:Hload;
    [| discriminate].
  unfold bind at 1 in H.
  destruct (get_reader E None false st) as [[[rd |] | e] st1] eqn:Hrd;
    [| discriminate | discriminate].
  unfold bind at 1 in H. unfold lift at 1 in H.
  destruct (detect_text_regions E (apply_preprocess_func E pf img)
              DEFAULT_MIN_AREA DEFAULT_MAX_AREA_RATIO)
    as [regions | e] eqn:Hdet;
    [| discriminate].
  destruct (read_regions _ _) as [lines assembled] eqn:Hout.
  unfold ret in H. injection H as <- <-.
  exists img, rd, regions. cbn zeta. rewrite Hout. auto.
Qed.

Lemma urdu_ok_inv E input theta pf st r st' :
  extract_text_with_urdu_support E input theta pf st = (Ok r, st') ->
  exists img rd st1 reader regions lang clean lines,
    load_image_urdu E input = Ok img
    /\ get_reader E None false st = (Ok (Some rd), st1)
    /\ try_except (get_reader E None false) (get_reader E None false) st1
       = (Ok reader, st')
    /\ detect_text_regions E (apply_preprocess_func E pf img)
         DEFAULT_MIN_AREA DEFAULT_MAX_AREA_RATIO = Ok regions
    /\ let proc := apply_preprocess_func E pf img in
       let out :=
         read_regions
           (read_region E reader (detail_pass_urdu E reader theta))
           (match regions with [] => [proc] | _ => regions end) in
       r = {| res_detected_language := Some lang;
              res_raw_text := join SPACE out.2;
              res_clean_text := normalize_digits clean;
              res_lines := lines;
              res_extracted_fields :=
                extract_fields_urdu (unicode_isdecimal E)
                  (normalize_digits clean) |}
       /\ ((clean = collapse_whitespace (join SPACE out.2) /\ lines = out.1)
           \/ (lang = "ur"%string
               /\ shape_and_bidi E (collapse_whitespace (join SPACE out.2))
                  = Some clean
               /\ lines = shape_lines E out.1)).
Proof.
  intros H. unfold extract_text_with_urdu_support in H.
  unfold bind at 1 in H. unfold lift at 1 in H.
  destruct (load_image_urdu E input) as [img | e] eqn:Hload; [| discriminate].
  unfold bind at 1 in H.
  destruct (get_reader E None false st) as [[[rd |] | e] st1] eqn:Hrd;
    [| discriminate | discriminate].
  unfold bind at 1 in H.
  destruct (try_except _ _ st1) as [[reader | e] st2] eqn:Hrd2;
    [| discriminate].
  unfold bind at 1 in H. unfold lift at 1 in H.
  destruct (detect_text_regions E (apply_preprocess_func E pf img)
              DEFAULT_MIN_AREA DEFAULT_MAX_AREA_RATIO)
    as [regions | e] eqn:Hdet;
    [| discriminate].
  destruct (read_regions _ _) as [lines assembled] eqn:Hout.
  match type of H with
  | context [String.eqb ?l "ur"] => set (lang := l) in *
  end.
  destruct (String.eqb lang "ur") eqn:Hur.
  - destruct (shape_and_bidi E (collapse_whitespace (join SPACE assembled)))
      as [shaped |] eqn:Hshape.
    + unfold ret in H. injection H as <- <-.
      exists img, rd, st1, reader, regions, lang, shaped, (shape_lines E lines).
      cbn zeta. rewrite Hout. cbn [fst snd].
      apply String.eqb_eq in Hur. auto 10.
    + unfold ret in H. injection H as <- <-.
      exists img, rd, st1, reader, regions, lang,
        (collapse_whitespace (join SPACE assembled)), lines.
      cbn zeta. rewrite Hout. cbn [fst snd]. auto 10.
  - unfold ret in H. injection H as <- <-.
    exists img, rd, st1, reader, regions, lang,
      (collapse_whitespace (join SPACE assembled)), lines.
    cbn zeta. rewrite Hout. cbn [fst snd]. auto 10.
Qed.

(** In both region pipelines the returned fields are the extraction run on
    the returned clean text. *)
Lemma pipeline_fields_of_clean_text E input engine pf theta sl st r st' :
  (extract_text_whatsapp_aware E input engine pf theta sl st = (Ok r, st') ->
   res_extracted_fields r
   = extract_fields (unicode_isdecimal E) (res_clean_text r))
  /\ (extract_text_with_urdu_support E input theta pf st = (Ok r, st') ->
      res_extracted_fields r
      = extract_fields_urdu (unicode_isdecimal E) (res_clean_text r)).
Proof.
  split; intros H.
  - apply whatsapp_ok_inv in H as (img & rd & regions & _ & _ & _ & ->).
    reflexivity.
  - apply urdu_ok_inv in H
      as (img & rd & st1 & reader & regions & lang & clean & lines
          & _ & _ & _ & _ & -> & _).
    reflexivity.
Qed.

(** The pipelines run end to end.  Within a region the WhatsApp pipeline
    orders the spans it keeps by (top, left); the Urdu pipeline keeps the
    recognizer's order. *)
Example whatsapp_sorts_kept_spans :
  exists r st',
    extract_text_whatsapp_aware env_unsorted (InArray img_1x1) "easyocr" None
      DEFAULT_MIN_CONFIDENCE None st0 = (Ok r, st')
    /\ res_raw_text r = lit "a b c"
    /\ map text (res_lines r) = [lit "a"; lit "b"; lit "c"].
Proof. eexists _, _. repeat split; vm_compute; reflexivity. Qed.

Example urdu_keeps_recognizer_order :
  exists r st',
    extract_text_with_urdu_support env_unsorted (InArray img_1x1)
      DEFAULT_MIN_CONFIDENCE None st0 = (Ok r, st')
    /\ res_raw_text r = lit "c b a"
    /\ res_detected_language r = Some "en"%string.
Proof. eexists _, _. repeat split; vm_compute; reflexivity. Qed.

Example whatsapp_two_regions :
  exists r st',
    extract_text_whatsapp_aware env_page (InArray img_40x60) "easyocr" None
      DEFAULT_MIN_CONFIDENCE None st0 = (Ok r, st')
    /\ res_raw_text r = lit "hello hello"
    /\ length (res_lines r) = 2%nat.
Proof. eexists _, _. repeat split; vm_compute; reflexivity. Qed.

Example whatsapp_scenario_end_to_end :
  exists r st',
    extract_text_whatsapp_aware env_scenario (InArray img_1x1) "easyocr" None
      DEFAULT_MIN_CONFIDENCE None st0 = (Ok r, st')
    /\ res_clean_text r = SCENARIO_TEXT
    /\ phones (res_extracted_fields r) = [lit "+92 300 1234567 "]
    /\ amounts (res_extracted_fields r) = [lit "Rs. 5,000"].
Proof. eexists _, _. repeat split; vm_compute; reflexivity. Qed.

Example urdu_digits_end_to_end :
  exists r st',
    extract_text_with_urdu_support env_urdu (InArray img_1x1)
      DEFAULT_MIN_CONFIDENCE None st0 = (Ok r, st')
    /\ res_detected_language r = Some "ur"%string
    /\ res_raw_text r = URDU_123
    /\ res_clean_text r = lit "123"
    /\ map text (res_lines r) = [lit "123"].
Proof. eexists _, _. repeat split; vm_compute; reflexivity. Qed.

(** ** Confidence filtering *)

Lemma confidence_filter_confident theta res :
  Forall (confident theta) (confidence_filter theta res).
Proof.
  induction res as [| [[b txt] c] res IH]; cbn [confidence_filter].
  - constructor.
  - destruct (PrimFloat.leb theta _) eqn:Hle; [| exact IH].
    constructor; [| exact IH]. eexists. split; [reflexivity | exact Hle].
Qed.

Section SortFacts.
Context {A K : Type} (leb : K -> K -> bool) (key : A -> K).

Lemma insert_sorted_perm x l : insert_sorted leb key x l ≡ₚ x :: l.
Proof.
  induction l as [| y l IH]; cbn [insert_sorted]; [reflexivity |].
  destruct (leb (key x) (key y)); [reflexivity |].
  rewrite IH. apply Permutation_swap.
Qed.

Lemma sorted_by_perm l : sorted_by leb key l ≡ₚ l.
Proof.
  induction l as [| x l IH]; [reflexivity |].
  unfold sorted_by in *. cbn [fold_right].
  rewrite insert_sorted_perm. by rewrite IH.
Qed.
End SortFacts.

Lemma with_keys_spans l ks : with_keys l = Some ks -> map snd ks = l.
Proof.
  revert ks. induction l as [| s l IH]; intros ks H; cbn [with_keys] in H.
  - by injection H as <-.
  - destruct (sort_key s) as [k |]; [| discriminate].
    destruct (with_keys l) as [ks' |]; [| discriminate].
    injection H as <-. cbn [map snd]. by rewrite (IH ks').
Qed.

Lemma sorted_spans_perm filtered fs :
  sorted_spans filtered = Some fs -> fs ≡ₚ filtered.
Proof.
  unfold sorted_spans. destruct (with_keys filtered) as [ks |] eqn:Hk;
    [| discriminate].
  intros H. injection H as <-.
  rewrite <- (with_keys_spans _ _ Hk).
  apply Permutation_map, sorted_by_perm.
Qed.

Lemma detail_pass_whatsapp_confident E reader theta reg ls ts :
  detail_pass_whatsapp E reader theta reg = Some (ls, ts) ->
  Forall (confident theta) ls.
Proof.
  unfold detail_pass_whatsapp.
  destruct (call_readtext_detail E reader reg) as [res |]; [| discriminate].
  pose proof (confidence_filter_confident theta res) as Hf.
  destruct (confidence_filter theta res) as [| s f] eqn:Hcf.
  - intros H. injection H as <- <-. constructor.
  - destruct (sorted_spans (s :: f)) as [fs |] eqn:Hs; [| discriminate].
    intros H. injection H as <- <-.
    by rewrite (sorted_spans_perm _ _ Hs).
Qed.

Lemma detail_pass_urdu_confident E reader theta reg ls ts :
  detail_pass_urdu E reader theta reg = Some (ls, ts) ->
  Forall (confident theta) ls.
Proof.
  unfold detail_pass_urdu.
  destruct (call_readtext_detail E reader reg) as [res |]; [| discriminate].
  pose proof (confidence_filter_confident theta res) as Hf.
  destruct (confidence_filter theta res) as [| s f] eqn:Hcf.
  - intros H. injection H as <- <-. constructor.
  - intros H. by injection H as <- <-.
Qed.

Lemma fallback_pass_text_only E reader reg :
  Forall text_only (fallback_pass E reader reg).1.
Proof.
  unfold fallback_pass.
  destruct (call_readtext_plain E reader reg) as [[| w ws] |]; cbn [fst];
    repeat constructor.
Qed.

Lemma read_regions_Forall (P : span -> Prop) step regions :
  (forall reg, Forall P (step reg).1) ->
  Forall P (read_regions step regions).1.
Proof.
  intros Hstep. unfold read_regions.
  assert (Hgen : forall acc : list span * list pystr,
             Forall P acc.1 ->
             Forall P (fold_left
                         (fun acc reg => let r := step reg in
                                         (acc.1 ++ r.1, acc.2 ++ r.2))
                         regions acc).1).
  { induction regions as [| reg regions IH]; intros acc Hacc; cbn [fold_left].
    - exact Hacc.
    - apply IH. cbn [fst]. apply Forall_app.
      split; [exact Hacc | apply Hstep]. }
  apply Hgen. constructor.
Qed.

Lemma shape_lines_Forall E (P : span -> Prop) ls :
  (forall b t t' c, P {| bbox := b; text := t; conf := c |} ->
                    P {| bbox := b; text := t'; conf := c |}) ->
  Forall P ls -> Forall P (shape_lines E ls).
Proof.
  intros Hext. induction 1 as [| l ls Hl Hls IH]; cbn [shape_lines].
  - constructor.
  - destruct (text l) eqn:Ht; [by constructor |].
    destruct (shape_and_bidi E _); [| by constructor].
    constructor; [| exact IH].
    destruct l as [b t c]. cbn [bbox conf]. by apply Hext with t.
Qed.

(** C1, as stated, fails: when the detailed call raises for a region, the
    retry adds a span with no confidence at all, so not every span of
    [lines] has a confidence at or above the threshold. *)
Lemma retry_span_has_no_confidence :
  match (extract_text_whatsapp_aware env_retry (InArray img_1x1) "easyocr"
           None DEFAULT_MIN_CONFIDENCE None st0).1 with
  | Ok r => res_lines r = [{| bbox := None; text := lit "hi"; conf := None |}]
            /\ ~ Forall (confident DEFAULT_MIN_CONFIDENCE) (res_lines r)
  | Raise _ => False
  end.
Proof.
  vm_compute. split; [reflexivity |].
  intros H. inversion H as [| s l [c [Hc _]] Hl]. discriminate Hc.
Qed.

Lemma lines_confident_or_text_only
    E input engine pf min_confidence sl st r st' :
  extract_text_whatsapp_aware E input engine pf min_confidence sl st
  = (Ok r, st')
  \/ extract_text_with_urdu_support E input min_confidence pf st
     = (Ok r, st') ->
  Forall (fun s => confident min_confidence s \/ text_only s) (res_lines r).
Proof.
  set (P := fun s => confident min_confidence s \/ text_only s).
  assert (Hext : forall b t t' c,
             P {| bbox := b; text := t; conf := c |} ->
             P {| bbox := b; text := t'; conf := c |}).
  { intros b t t' c [[v [Hv Hle]] | [Hc Hb]]; [left | right].
    - exists v. split; assumption.
    - split; assumption. }
  assert (Hw : forall reader reg,
             Forall P (read_region E reader
                         (detail_pass_whatsapp E reader min_confidence) reg).1).
  { intros reader reg. unfold read_region.
    destruct (detail_pass_whatsapp E reader min_confidence reg)
      as [[ls ts] |] eqn:Hd.
    - eapply Forall_impl; [eapply detail_pass_whatsapp_confident, Hd |].
      intros s Hs. by left.
    - eapply Forall_impl; [apply fallback_pass_text_only |].
      intros s Hs. by right. }
  assert (Hu : forall reader reg,
             Forall P (read_region E reader
                         (detail_pass_urdu E reader min_confidence) reg).1).
  { intros reader reg. unfold read_region.
    destruct (detail_pass_urdu E reader min_confidence reg)
      as [[ls ts] |] eqn:Hd.
    - eapply Forall_impl; [eapply detail_pass_urdu_confident, Hd |].
      intros s Hs. by left.
    - eapply Forall_impl; [apply fallback_pass_text_only |].
      intros s Hs. by right. }
  intros [H | H].
  - apply whatsapp_ok_inv in H as (img & rd & regions & _ & _ & _ & ->).
    cbn [res_lines]. apply read_regions_Forall. intros reg. apply Hw.
  - apply urdu_ok_inv in H
      as (img & rd & st1 & reader & regions & lang & clean & lines
          & _ & _ & _ & _ & -> & [[_ ->] | (_ & _ & ->)]);
      cbn [res_lines].
    + apply read_regions_Forall. intros reg. apply Hu.
    + apply shape_lines_Forall; [exact Hext |].
      apply read_regions_Forall. intros reg. apply Hu.
Qed.

(** On binary64 floats [a <= b] excludes [b < a]. *)
Lemma SFleb_not_SFltb a b : SFleb a b = true -> SFltb b a = false.
Proof.
  unfold SFleb, SFltb.
  destruct a as [sa | sa | | sa ma ea], b as [sb | sb | | sb mb eb];
    cbn [SFcompare]; try (destruct sa); try (destruct sb);
    try reflexivity; try discriminate;
    rewrite (Z.compare_antisym ea eb);
    destruct (ea ?= eb)%Z; cbn [CompOpp]; try reflexivity; try discriminate;
    rewrite (ZC4 mb ma);
    destruct (Pos.compare_cont Eq ma mb); cbn [CompOpp];
    try reflexivity; discriminate.
Qed.

Lemma leb_not_ltb (a b : float) :
  PrimFloat.leb a b = true -> PrimFloat.ltb b a = false.
Proof.
  rewrite FloatAxioms.leb_spec, FloatAxioms.ltb_spec.
  apply SFleb_not_SFltb.
Qed.

(** C1, amended. For every threshold and every run of
    [extract_text_whatsapp_aware] or [extract_text_with_urdu_support] that
    returns, each span of the returned [lines] either carries a confidence
    at or above [min_confidence], or is the span of the text-only retry,
    with no confidence and no box; and no span with a confidence below the
    threshold appears. *)
Theorem confidence_filter_correct E input engine pf min_confidence sl st r st' :
  extract_text_whatsapp_aware E input engine pf min_confidence sl st
  = (Ok r, st')
  \/ extract_text_with_urdu_support E input min_confidence pf st
     = (Ok r, st') ->
  Forall (fun s => (confident min_confidence s \/ text_only s)
                   /\ ~ below_threshold min_confidence s)
         (res_lines r).
Proof.
  intros H.
  eapply Forall_impl;
    [exact (lines_confident_or_text_only E input engine pf min_confidence
              sl st r st' H) |].
  cbn beta. intros s Hs. split; [exact Hs |].
  intros (c & Hc & Hlt).
  destruct Hs as [(c' & Hc' & Hle) | [Hnone _]]; [| congruence].
  assert (c' = c) as -> by congruence.
  apply leb_not_ltb in Hle. congruence.
Qed.

Lemma confidence_filter_correct_witness :
  (exists r st',
      extract_text_whatsapp_aware env_unsorted (InArray img_1x1) "easyocr"
        (Some (pure_hook (preprocess_image env_unsorted)))
        DEFAULT_MIN_CONFIDENCE None st0
      = (Ok r, st')
      /\ map text (res_lines r) = [lit "a"; lit "b"; lit "c"]
      /\ Forall (fun s => (confident DEFAULT_MIN_CONFIDENCE s \/ text_only s)
                          /\ ~ below_threshold DEFAULT_MIN_CONFIDENCE s)
           (res_lines r))
  /\ (exists r st',
      extract_text_with_urdu_support env_retry (InArray img_1x1)
        DEFAULT_MIN_CONFIDENCE None st0 = (Ok r, st')
      /\ map text (res_lines r) = [lit "hi"]
      /\ Forall (fun s => (confident DEFAULT_MIN_CONFIDENCE s \/ text_only s)
                          /\ ~ below_threshold DEFAULT_MIN_CONFIDENCE s)
           (res_lines r)).
Proof.
  split.
  - eexists _, _. split; [vm_compute; reflexivity |].
    split; [reflexivity |].
    eapply (confidence_filter_correct env_unsorted (InArray img_1x1)
              "easyocr" (Some (pure_hook (preprocess_image env_unsorted)))
              DEFAULT_MIN_CONFIDENCE None st0).
    left. vm_compute. reflexivity.
  - eexists _, _. split; [vm_compute; reflexivity |].
    split; [reflexivity |].
    eapply (confidence_filter_correct env_retry (InArray img_1x1) "easyocr"
              None DEFAULT_MIN_CONFIDENCE None st0).
    right. vm_compute. reflexivity.
Defined.

(** ** Language identification *)

(** C10. Whatever the input and the options, a result returned by
    [extract_text_whatsapp_aware] has [detected_language] equal to [None]:
    that pipeline never identifies the language. *)
Theorem whatsapp_detected_language_none
    E input engine pf min_confidence sl st r st' :
  extract_text_whatsapp_aware E input engine pf min_confidence sl st
  = (Ok r, st') ->
  res_detected_language r = None.
Proof.
  intros H.
  apply whatsapp_ok_inv in H as (img & rd & regions & _ & _ & _ & ->).
  reflexivity.
Qed.

Lemma whatsapp_detected_language_none_witness :
  exists r st',
    extract_text_whatsapp_aware env_hello (InArray img_1x1) "easyocr" None
      DEFAULT_MIN_CONFIDENCE None st0 = (Ok r, st')
    /\ res_raw_text r = lit "hello"
    /\ res_detected_language r = None.
Proof.
  eexists _, _. split; [vm_compute; reflexivity |].
  split; [reflexivity |].
  eapply (whatsapp_detected_language_none env_hello (InArray img_1x1)
            "easyocr" None DEFAULT_MIN_CONFIDENCE None st0).
  vm_compute. reflexivity.
Defined.

(** ** Fallback preprocessing *)

Lemma shape_hw_map_scalars f a : shape_hw (map_scalars f a) = shape_hw a.
Proof.
  destruct a as [rows | rows]; cbn [map_scalars shape_hw];
    rewrite length_map; destruct rows; cbn [map row_width];
    by rewrite ?length_map.
Qed.

Lemma scalars_map_scalars f a : scalars (map_scalars f a) = map f (scalars a).
Proof.
  destruct a as [rows | rows]; cbn [map_scalars scalars].
  - by rewrite <- concat_map.
  - by rewrite <- !concat_map.
Qed.

Lemma length_double {A : Type} (l : list A) :
  length (flat_map (fun x => [x; x]) l) = (2 * length l)%nat.
Proof. induction l as [| x l IH]; cbn [flat_map app length]; lia. Qed.

Lemma shape_rows_upscale {A : Type} (rows : list (list A)) :
  length (repeat_axis1 (repeat_axis0 rows)) = (2 * length rows)%nat
  /\ row_width (repeat_axis1 (repeat_axis0 rows)) = (2 * row_width rows)%nat.
Proof.
  unfold repeat_axis1, repeat_axis0. rewrite length_map, length_double.
  split; [reflexivity |].
  destruct rows as [| r rows]; [reflexivity |].
  cbn [flat_map app map row_width]. apply length_double.
Qed.

Lemma shape_hw_upscale2 a :
  shape_hw (upscale2 a) = ((2 * (shape_hw a).1)%nat, (2 * (shape_hw a).2)%nat).
Proof.
  destruct a as [rows | rows]; cbn [upscale2 shape_hw fst snd];
    destruct (shape_rows_upscale rows) as [-> ->]; reflexivity.
Qed.

Lemma concat_repeat_axis1 {A : Type} (rows : list (list A)) :
  concat (repeat_axis1 rows) = flat_map (fun x => [x; x]) (concat rows).
Proof.
  unfold repeat_axis1. induction rows as [| r rows IH]; [reflexivity |].
  cbn [map concat]. by rewrite IH, flat_map_app.
Qed.

Lemma length_concat_repeat_axis0 {A : Type} (rows : list (list A)) :
  length (concat (repeat_axis0 rows)) = (2 * length (concat rows))%nat.
Proof.
  unfold repeat_axis0. induction rows as [| r rows IH]; [reflexivity |].
  cbn [flat_map app concat]. rewrite !length_app, IH. lia.
Qed.

Lemma length_concat_double (pxs : list (list Z)) :
  length (concat (flat_map (fun x => [x; x]) pxs))
  = (2 * length (concat pxs))%nat.
Proof.
  induction pxs as [| px pxs IH]; [reflexivity |].
  cbn [flat_map app concat]. rewrite !length_app, IH. lia.
Qed.

Lemma length_concat2_repeat_axis0 (rows : list (list (list Z))) :
  length (concat (concat (repeat_axis0 rows)))
  = (2 * length (concat (concat rows)))%nat.
Proof.
  unfold repeat_axis0. induction rows as [| r rows IH]; [reflexivity |].
  cbn [flat_map app concat]. rewrite !concat_app, !length_app, IH. lia.
Qed.

(** Upscaling multiplies the number of values by four. *)
Lemma length_scalars_upscale2 a :
  length (scalars (upscale2 a)) = (4 * length (scalars a))%nat.
Proof.
  destruct a as [rows | rows]; cbn [upscale2 scalars].
  - rewrite concat_repeat_axis1, length_double, length_concat_repeat_axis0.
    lia.
  - rewrite concat_repeat_axis1, length_concat_double,
      length_concat2_repeat_axis0.
    lia.
Qed.

Lemma scalars_upscale2_nonempty a :
  scalars a <> [] -> scalars (upscale2 a) <> [].
Proof.
  intros Hne Hempty. apply Hne, length_zero_iff_nil.
  apply (f_equal length) in Hempty.
  rewrite length_scalars_upscale2 in Hempty. cbn [length] in Hempty. lia.
Qed.

Lemma well_formed_scalars a : well_formed_image a = true -> scalars a <> [].
Proof.
  destruct a as [rows | rows]; cbn [well_formed_image scalars]; intros H.
  - destruct rows as [| [| v r] rows]; cbn in H |- *; discriminate.
  - destruct rows as [| [| [| v px] r] rows]; cbn in H |- *;
      rewrite ?andb_false_r in H; discriminate.
Qed.

Lemma well_formed_gray_scalars f rows :
  well_formed_image (Arr3 rows) = true ->
  scalars (Arr2 (map (map f) rows)) <> [].
Proof.
  cbn [well_formed_image scalars]; intros H.
  destruct rows as [| [| px r] rows]; cbn in H |- *; discriminate.
Qed.

Lemma threshold_binarized thresh a :
  binarized (map_scalars (fun v => if thresh <? v then 255 else 0) a).
Proof.
  unfold binarized. rewrite scalars_map_scalars.
  apply Forall_map, Forall_forall. intros v _. cbn beta.
  destruct (thresh <? v); auto.
Qed.

Lemma mean_int_defined a : scalars a <> [] -> exists t, mean_int a = Ok t.
Proof.
  unfold mean_int. destruct (scalars a) as [| v vs]; [congruence |].
  intros _. eauto.
Qed.

(** After the grayscale step, the rest of [_preprocess_without_cv2]. *)
Lemma threshold_stage gray :
  scalars gray <> [] ->
  exists th,
    (let '(h, w) := shape_hw gray in
     let gray := if (Nat.min h w <? 400)%nat then upscale2 gray else gray in
     let? thresh := mean_int gray in
     Ok (map_scalars (fun v => if thresh <? v then 255 else 0) gray)) = Ok th
    /\ binarized th
    /\ shape_hw th
       = (let '(h, w) := shape_hw gray in
          if (Nat.min h w <? 400)%nat then ((2 * h)%nat, (2 * w)%nat)
          else (h, w)).
Proof.
  intros Hne.
  pose proof (shape_hw_upscale2 gray) as Hup.
  destruct (shape_hw gray) as [h w] eqn:Hs. cbn [fst snd] in Hup.
  cbv beta iota zeta.
  destruct (Nat.min h w <? 400)%nat.
  - destruct (mean_int_defined (upscale2 gray)) as [t Ht];
      [by apply scalars_upscale2_nonempty |].
    rewrite Ht. cbn [obind]. eexists. split; [reflexivity |].
    split; [apply threshold_binarized |].
    by rewrite shape_hw_map_scalars.
  - destruct (mean_int_defined gray Hne) as [t Ht].
    rewrite Ht. cbn [obind]. eexists. split; [reflexivity |].
    split; [apply threshold_binarized |].
    by rewrite shape_hw_map_scalars.
Qed.

(** C7. Without OpenCV, [preprocess_image] on a well-formed image never
    raises: it returns an image whose every value is 0 or 255 and whose
    height and width are the input's, or exactly twice the input's when the
    shorter of the two is below 400. *)
Theorem fallback_preprocess_total E img :
  cv2_present E = false ->
  well_formed_image img = true ->
  exists th,
    preprocess_image E img = Ok th
    /\ binarized th
    /\ shape_hw th
       = (let '(h, w) := shape_hw img in
          if (Nat.min h w <? 400)%nat then ((2 * h)%nat, (2 * w)%nat)
          else (h, w)).
Proof.
  intros Hcv Hwf. unfold preprocess_image. rewrite Hcv.
  unfold _preprocess_without_cv2.
  destruct img as [rows | rows].
  - destruct (threshold_stage (map_scalars to_uint8 (Arr2 rows)))
      as (th & Hth & Hbin & Hshape).
    { rewrite scalars_map_scalars. intros Hm. apply map_eq_nil in Hm.
      by apply (well_formed_scalars _ Hwf). }
    exists th. split; [exact Hth |]. split; [exact Hbin |].
    rewrite Hshape. by rewrite shape_hw_map_scalars.
  - destruct (3 <=? channels rows)%nat.
    + destruct (threshold_stage (Arr2 (map (map (luminosity E)) rows)))
        as (th & Hth & Hbin & Hshape).
      { by apply well_formed_gray_scalars. }
      exists th. split; [exact Hth |]. split; [exact Hbin |].
      rewrite Hshape. cbn [shape_hw]. rewrite length_map.
      destruct rows as [| r rows]; cbn [map row_width];
        by rewrite ?length_map.
    + destruct (threshold_stage (map_scalars to_uint8 (Arr3 rows)))
        as (th & Hth & Hbin & Hshape).
      { rewrite scalars_map_scalars. intros Hm. apply map_eq_nil in Hm.
        by apply (well_formed_scalars _ Hwf). }
      exists th. split; [exact Hth |]. split; [exact Hbin |].
      rewrite Hshape. by rewrite shape_hw_map_scalars.
Qed.

Lemma fallback_preprocess_total_witness :
  cv2_present env_hello = false
  /\ well_formed_image img_40x60 = true
  /\ (exists th,
         preprocess_image env_hello img_40x60 = Ok th
         /\ binarized th
         /\ shape_hw th = (80%nat, 120%nat))
  /\ well_formed_image gray_400x400 = true
  /\ (exists th,
         preprocess_image env_hello gray_400x400 = Ok th
         /\ binarized th
         /\ shape_hw th = (400%nat, 400%nat)).
Proof.
  assert (Hwf : well_formed_image gray_400x400 = true)
    by (vm_compute; reflexivity).
  split; [reflexivity |]. split; [vm_compute; reflexivity |].
  split; [exact (fallback_preprocess_total env_hello img_40x60
                   eq_refl eq_refl) |].
  split; [exact Hwf |].
  destruct (fallback_preprocess_total env_hello gray_400x400 eq_refl Hwf)
    as (th & Hth & Hbin & Hshape).
  exists th. split; [exact Hth |]. split; [exact Hbin |].
  rewrite Hshape. vm_compute. reflexivity.
Defined.

(** ** Region containment *)

Lemma padded_region_inside w_img h_img r :
  0 <= w_img -> 0 <= h_img ->
  rect_inside w_img h_img r = true ->
  region_inside w_img h_img (padded_region w_img h_img r).
Proof.
  destruct r as [[[x y] w] h]. unfold rect_inside, padded_region, region_inside.
  intros HW HH Hin.
  repeat (apply andb_prop in Hin as [Hin ?]).
  assert (0 <= Z.quot (w * 2) 100) by (apply Z.quot_pos; lia).
  assert (0 <= Z.quot (h * 5) 100) by (apply Z.quot_pos; lia).
  lia.
Qed.

Lemma text_regions_inside min_area ratio w_img h_img rects :
  0 <= w_img -> 0 <= h_img ->
  forallb (rect_inside w_img h_img) rects = true ->
  Forall (region_inside w_img h_img)
    (text_regions min_area ratio w_img h_img rects).
Proof.
  intros HW HH Hall. unfold text_regions.
  rewrite sorted_by_perm.
  apply Forall_map, Forall_forall. intros r Hr.
  apply list_elem_of_In, filter_In in Hr as [Hr _].
  apply padded_region_inside; [assumption .. |].
  rewrite forallb_forall in Hall. by apply Hall.
Qed.

(** C8. On an image of height [h] and width [w], every region the detector
    computes satisfies [0 <= top <= bottom <= h] and
    [0 <= left <= right <= w], the bounding rectangles reported by OpenCV
    lying inside the image. *)
Theorem region_containment E img min_area ratio gray contours h w :
  shape_hw img = (h, w) ->
  cv2_BGR2GRAY E img = Some gray ->
  shape2 gray = Ok (h, w) ->
  cv2_text_contours E gray = Some contours ->
  forallb (rect_inside (Z.of_nat w) (Z.of_nat h))
    (map (cv2_boundingRect E) contours) = true ->
  exists regions,
    detect_regions_coords E img min_area ratio = Ok regions
    /\ Forall (region_inside (Z.of_nat w) (Z.of_nat h)) regions.
Proof.
  intros _ Hgray Hshape Hcnt Hrects.
  unfold detect_regions_coords.
  rewrite Hgray. cbn [of_call obind]. rewrite Hcnt. cbn [of_call obind].
  rewrite Hshape. cbn [obind].
  eexists. split; [reflexivity |].
  apply text_regions_inside; [lia | lia | exact Hrects].
Qed.

Lemma region_containment_witness :
  shape_hw img_40x60 = (40%nat, 60%nat)
  /\ detect_regions_coords env_page img_40x60 DEFAULT_MIN_AREA
       DEFAULT_MAX_AREA_RATIO
     = Ok [(0, 0, 12, 60); (23, 3, 40, 37)]
  /\ exists regions,
       detect_regions_coords env_page img_40x60 DEFAULT_MIN_AREA
         DEFAULT_MAX_AREA_RATIO = Ok regions
       /\ Forall (region_inside 60 40) regions.
Proof.
  split; [vm_compute; reflexivity |]. split; [vm_compute; reflexivity |].
  apply (region_containment env_page img_40x60 DEFAULT_MIN_AREA
           DEFAULT_MAX_AREA_RATIO
           (Arr2 (repeat (repeat 200 60%nat) 40%nat))
           [ [(5, 25); (34, 38)]; [(0, 0); (59, 9)] ] 40%nat 60%nat);
    vm_compute; reflexivity.
Defined.

(** ** The recognizer cache *)

Lemma existsb_eqb_In (l : string) (ls : list string) :
  existsb (String.eqb l) ls = true <-> In l ls.
Proof.
  rewrite existsb_exists. split.
  - intros (x & Hx & Heq). apply String.eqb_eq in Heq. by subst.
  - intros H. exists l. split; [exact H | apply String.eqb_refl].
Qed.

(** [missing_langs] decides "some requested language is not configured". *)
Lemma missing_langs_true langs r :
  missing_langs langs r = true
  <-> exists l, In l langs /\ ~ In l (lang_list r).
Proof.
  unfold missing_langs. rewrite existsb_exists.
  split; intros (l & Hl & H); exists l; (split; [exact Hl |]).
  - intros Hin. apply existsb_eqb_In in Hin. rewrite Hin in H. discriminate.
  - destruct (existsb (String.eqb l) (lang_list r)) eqn:He; [| reflexivity].
    apply existsb_eqb_In in He. contradiction.
Qed.

Lemma missing_langs_false langs r :
  missing_langs langs r = false
  <-> forall l, In l langs -> In l (lang_list r).
Proof.
  split.
  - intros Hm l Hl.
    destruct (existsb (String.eqb l) (lang_list r)) eqn:He;
      [by apply existsb_eqb_In |].
    assert (missing_langs langs r = true) as Ht; [| congruence].
    apply missing_langs_true. exists l. split; [exact Hl |].
    intros Hin. apply existsb_eqb_In in Hin. congruence.
  - intros Hsub. destruct (missing_langs langs r) eqn:Hm; [| reflexivity].
    apply missing_langs_true in Hm as (l & Hl & Hn). by apply Hsub in Hl.
Qed.

Lemma get_reader_unavailable E langs gpu st :
  easyocr_present E = false -> get_reader E langs gpu st = (Ok None, st).
Proof. intros H. unfold get_reader. rewrite H. reflexivity. Qed.

Lemma get_reader_reuse E langs gpu st r :
  easyocr_present E = true ->
  _OCR_READER st = Some r ->
  (forall l, In l (requested langs) -> In l (lang_list r)) ->
  get_reader E langs gpu st = (Ok (Some r), st).
Proof.
  intros He Hr Hsub. apply missing_langs_false in Hsub.
  unfold get_reader. rewrite He. cbn [negb].
  unfold bind, try_except. fold (requested langs).
  rewrite Hr, Hsub. by rewrite Hr.
Qed.

Lemma get_reader_build E langs gpu st :
  easyocr_present E = true ->
  must_build langs st ->
  get_reader E langs gpu st
  = match easyocr_Reader E (requested langs) gpu with
    | Some ll => (Ok (Some (fresh_reader st ll gpu)),
                  installed st (fresh_reader st ll gpu))
    | None =>
        match easyocr_Reader E DEFAULT_LANGS gpu with
        | Some ll => (Ok (Some (fresh_reader st ll gpu)),
                      installed st (fresh_reader st ll gpu))
        | None => (Raise ExternalError, st)
        end
    end.
Proof.
  intros He Hb. unfold get_reader. rewrite He. cbn [negb].
  unfold bind, try_except. fold (requested langs).
  assert (Hgo : match _OCR_READER st with
                | Some r =>
                    if missing_langs (requested langs) r
                    then build_reader E (requested langs) gpu st
                    else (Ok (), st)
                | None => build_reader E (requested langs) gpu st
                end = build_reader E (requested langs) gpu st).
  { destruct Hb as [-> | (r & l & -> & Hl & Hn)]; [reflexivity |].
    assert (missing_langs (requested langs) r = true) as ->; [| reflexivity].
    apply missing_langs_true. eauto. }
  rewrite Hgo. unfold build_reader.
  destruct (easyocr_Reader E (requested langs) gpu) as [ll |]; [reflexivity |].
  destruct (easyocr_Reader E DEFAULT_LANGS gpu) as [ll |]; reflexivity.
Qed.

(** C3, as stated, fails: with a recognizer for [en] in place, a request
    for a language the engine rejects makes the constructor raise, and the
    call answers a new recognizer for the default languages, not one
    configured for the requested set; and without the recognition engine
    no recognizer is constructed at all. *)
Lemma rebuild_falls_back_to_default :
  (exists r st',
      get_reader env_hello (Some ["xx"%string]) false st_en
      = (Ok (Some r), st')
      /\ lang_list r = ["en"%string]
      /\ ~ In "xx"%string (lang_list r)
      /\ easyocr_Reader env_hello ["xx"%string] false = None)
  /\ get_reader env_off (Some ["en"%string]) false st0 = (Ok None, st0).
Proof.
  split; [| reflexivity].
  eexists _, _. split; [vm_compute; reflexivity |].
  split; [reflexivity |]. split; [| reflexivity].
  cbn. intros [H | []]. discriminate H.
Qed.

(** C3, amended. For every call of [get_reader] with language set [L]
    ([DEFAULT_LANGS] when none is given):
    - without the recognition engine the call answers [None] and changes
      nothing;
    - with it, if a recognizer exists and every language of [L] is in its
      [lang_list], that same recognizer is returned and the state is
      unchanged;
    - with it, if no recognizer exists or some language of [L] is not in
      the existing one's [lang_list], the constructor is called for [L];
      when it succeeds the new recognizer is installed and returned; when
      it raises, a recognizer for [DEFAULT_LANGS] is constructed, installed
      and returned instead, and only if that raises too does the call
      raise. *)
Theorem get_reader_reuse_or_rebuild E langs gpu st :
  (easyocr_present E = false -> get_reader E langs gpu st = (Ok None, st))
  /\ (easyocr_present E = true ->
      (forall r,
          _OCR_READER st = Some r ->
          (forall l, In l (requested langs) -> In l (lang_list r)) ->
          get_reader E langs gpu st = (Ok (Some r), st))
      /\ (must_build langs st ->
          (forall ll,
              easyocr_Reader E (requested langs) gpu = Some ll ->
              get_reader E langs gpu st
              = (Ok (Some (fresh_reader st ll gpu)),
                 installed st (fresh_reader st ll gpu)))
          /\ (easyocr_Reader E (requested langs) gpu = None ->
              (forall ll,
                  easyocr_Reader E DEFAULT_LANGS gpu = Some ll ->
                  get_reader E langs gpu st
                  = (Ok (Some (fresh_reader st ll gpu)),
                     installed st (fresh_reader st ll gpu)))
              /\ (easyocr_Reader E DEFAULT_LANGS gpu = None ->
                  get_reader E langs gpu st = (Raise ExternalError, st))))).
Proof.
  split; [apply get_reader_unavailable |].
  intros He. split; [intros r; by apply get_reader_reuse |].
  intros Hb. pose proof (get_reader_build E langs gpu st He Hb) as Hg.
  split.
  - intros ll Hll. by rewrite Hll in Hg.
  - intros Hnone. rewrite Hnone in Hg. split.
    + intros ll Hll. by rewrite Hll in Hg.
    + intros Hd. by rewrite Hd in Hg.
Qed.

Lemma get_reader_reuse_or_rebuild_witness :
  (* reuse: {en} requested, {en} configured *)
  get_reader env_hello (Some ["en"%string]) false st_en
  = (Ok (Some reader_en), st_en)
  (* rebuild: {en, ur} requested, {en} configured *)
  /\ get_reader env_hello (Some ["en"; "ur"]%string) false st_en
     = (Ok (Some {| reader_id := 1; lang_list := ["en"; "ur"]%string;
                    reader_gpu := false |}),
        {| _OCR_READER :=
             Some {| reader_id := 1; lang_list := ["en"; "ur"]%string;
                     reader_gpu := false |};
           created := 2 |})
  (* first use *)
  /\ get_reader env_hello None false st0 = (Ok (Some reader_en), st_en).
Proof.
  split; [| split].
  - destruct (get_reader_reuse_or_rebuild env_hello (Some ["en"%string])
                false st_en) as [_ H].
    destruct (H eq_refl) as [Hreuse _].
    apply Hreuse; [reflexivity |].
    intros l [<- | []]. cbn. by left.
  - destruct (get_reader_reuse_or_rebuild env_hello
                (Some ["en"; "ur"]%string) false st_en) as [_ H].
    destruct (H eq_refl) as [_ Hbuild].
    assert (Hmust : must_build (Some ["en"; "ur"]%string) st_en).
    { right. exists reader_en, "ur"%string.
      split; [reflexivity |]. split; [cbn; auto |].
      cbn. intros [Hx | []]. discriminate Hx. }
    destruct (Hbuild Hmust) as [Hnew _].
    exact (Hnew _ eq_refl).
  - destruct (get_reader_reuse_or_rebuild env_hello None false st0)
      as [_ H].
    destruct (H eq_refl) as [_ Hbuild].
    destruct (Hbuild (or_introl eq_refl)) as [Hnew _].
    exact (Hnew _ eq_refl).
Defined.

(** ** Single-channel arrays *)

(** C4: the code breaks the claim in [extract_text_with_urdu_support].
    Given a two-dimensional array, [extract_text_whatsapp_aware] hands the
    recognizer a three-channel image, but [extract_text_with_urdu_support]
    keeps the array as it is: without OpenCV the recognizer receives the
    two-dimensional array, and with OpenCV the region detector's colour
    conversion raises on it. *)
Theorem urdu_keeps_single_channel_array :
  (forall E rows, load_image_urdu E (InArray (Arr2 rows)) = Ok (Arr2 rows))
  /\ (exists r st',
         extract_text_whatsapp_aware (env_probe true) (InArray gray_1x1)
           "easyocr" None DEFAULT_MIN_CONFIDENCE None st0 = (Ok r, st')
         /\ res_raw_text r = lit "3D")
  /\ (exists r st',
         extract_text_with_urdu_support (env_probe false) (InArray gray_1x1)
           DEFAULT_MIN_CONFIDENCE None st0 = (Ok r, st')
         /\ res_raw_text r = lit "2D")
  /\ (extract_text_with_urdu_support (env_probe true) (InArray gray_1x1)
        DEFAULT_MIN_CONFIDENCE None st0).1 = Raise ExternalError.
Proof.
  split; [reflexivity |].
  split; [eexists _, _; split; vm_compute; reflexivity |].
  split; [eexists _, _; split; vm_compute; reflexivity |].
  vm_compute. reflexivity.
Qed.

(** The sibling pipeline does convert, when OpenCV can be imported. *)
Lemma whatsapp_converts_single_channel_array E rows :
  cv2_present E = true ->
  exists img,
    load_image_whatsapp E (InArray (Arr2 rows)) = Ok img /\ ndim img = 3.
Proof.
  intros Hcv. cbn [load_image_whatsapp ndim]. rewrite Hcv.
  eexists. split; reflexivity.
Qed.

(** ** Whitespace in the clean text *)

(** C5: the code breaks the claim in [clean_text].  Whitespace runs are
    collapsed first and each run of non-ASCII characters is replaced by a
    blank afterwards, so a non-ASCII word between two blanks leaves three
    blanks in a row. *)
Theorem plain_clean_text_not_collapsed E :
  nfkc E MIXED_TEXT = MIXED_TEXT ->
  clean_text E (Some MIXED_TEXT) = lit "a   b"
  /\ ws_collapsed (clean_text E (Some MIXED_TEXT)) = false.
Proof.
  intros Hn. unfold clean_text. rewrite Hn.
  split; vm_compute; reflexivity.
Qed.

Lemma plain_clean_text_not_collapsed_witness :
  nfkc env_mixed MIXED_TEXT = MIXED_TEXT
  /\ clean_text env_mixed (Some MIXED_TEXT) = lit "a   b"
  /\ ws_collapsed (clean_text env_mixed (Some MIXED_TEXT)) = false.
Proof.
  split; [reflexivity |].
  exact (plain_clean_text_not_collapsed env_mixed eq_refl).
Defined.

(** The same on the whole pipeline: three recognized words, the middle
    one in Arabic script. *)
Example plain_pipeline_three_blanks :
  exists r st',
    extract_text_from_image env_mixed pil_1x1 "easyocr" st0 = (Ok r, st')
    /\ simple_raw_text r = MIXED_TEXT
    /\ simple_clean_text r = lit "a   b".
Proof. eexists _, _. repeat split; vm_compute; reflexivity. Qed.

(** The region pipelines do collapse: [re.sub(r"\s+", " ", ..)] followed by
    [strip] leaves no two adjacent whitespace characters. *)

Lemma rep_greedy_star_space s :
  rep_greedy is_space 0 None s Some = Some (lstrip s).
Proof.
  induction s as [| c s IH]; [reflexivity |].
  cbn [rep_greedy lstrip may_repeat dec_bound Nat.pred].
  destruct (is_space c); cbn [andb]; [by rewrite IH | reflexivity].
Qed.

Lemma match_ws_run c s :
  match_at WS_RUN_RE (c :: s)
  = if is_space c then Some (lstrip s) else None.
Proof.
  unfold match_at, WS_RUN_RE, Plus. cbn [rmatch rep_greedy may_repeat
    dec_bound Nat.pred].
  destruct (is_space c); cbn [andb]; [by rewrite rep_greedy_star_space |].
  reflexivity.
Qed.

Lemma lstrip_no_leading_space s : no_leading_space (lstrip s).
Proof.
  induction s as [| c s IH]; cbn [lstrip]; [exact I |].
  destruct (is_space c) eqn:Hc; [exact IH | exact Hc].
Qed.

Lemma lstrip_length s : (length (lstrip s) <= length s)%nat.
Proof.
  induction s as [| c s IH]; cbn [lstrip length]; [lia |].
  destruct (is_space c); cbn [length]; lia.
Qed.

Lemma lstrip_suffix s : exists pre, s = pre ++ lstrip s.
Proof.
  induction s as [| c s [pre IH]]; [by exists [] |].
  cbn [lstrip]. destruct (is_space c).
  - exists (c :: pre). cbn [app]. by rewrite <- IH.
  - by exists [].
Qed.

Lemma ws_collapsed_step c d s :
  ws_collapsed (c :: d :: s)
  = negb (is_space c && is_space d) && ws_collapsed (d :: s).
Proof. reflexivity. Qed.

Lemma ws_collapsed_tail c s :
  ws_collapsed (c :: s) = true -> ws_collapsed s = true.
Proof.
  cbn [ws_collapsed]. destruct s as [| d s]; [reflexivity |].
  intros H. by apply andb_prop in H as [_ H].
Qed.

Lemma ws_collapsed_cons c s :
  is_space c = false \/ no_leading_space s ->
  ws_collapsed s = true -> ws_collapsed (c :: s) = true.
Proof.
  intros Hc Hs. cbn [ws_collapsed]. destruct s as [| d s]; [reflexivity |].
  rewrite Hs, andb_true_r.
  destruct Hc as [-> | Hd]; [reflexivity |].
  cbn [no_leading_space] in Hd. rewrite Hd. by rewrite andb_false_r.
Qed.

Lemma ws_collapsed_prefix a b :
  ws_collapsed (a ++ b) = true -> ws_collapsed a = true.
Proof.
  induction a as [| c a IH]; [reflexivity |].
  intros H. cbn [app] in H.
  pose proof (ws_collapsed_tail _ _ H) as Ht. specialize (IH Ht).
  destruct a as [| d a]; [reflexivity |].
  cbn [app] in H. rewrite ws_collapsed_step in H |- *.
  apply andb_prop in H as [H _]. by rewrite H, IH.
Qed.

Lemma ws_collapsed_strip s :
  ws_collapsed s = true -> ws_collapsed (strip s) = true.
Proof.
  intros H. unfold strip, rstrip.
  assert (Hl : ws_collapsed (lstrip s) = true).
  { clear -H. induction s as [| c s IH]; [reflexivity |].
    cbn [lstrip]. destruct (is_space c); [| exact H].
    apply IH. by apply ws_collapsed_tail in H. }
  destruct (lstrip_suffix (rev (lstrip s))) as [pre Hpre].
  apply (f_equal (@rev Z)) in Hpre.
  rewrite rev_involutive, rev_app_distr in Hpre.
  rewrite Hpre in Hl. by apply ws_collapsed_prefix in Hl.
Qed.

Lemma sub_ws_run_collapsed fuel s :
  (length s < fuel)%nat ->
  ws_collapsed (sub_from fuel WS_RUN_RE SPACE s) = true
  /\ (no_leading_space s ->
      no_leading_space (sub_from fuel WS_RUN_RE SPACE s)).
Proof.
  revert s. induction fuel as [| fuel IH]; intros s Hlen; [lia |].
  destruct s as [| c s]; [by split |].
  cbn [sub_from]. rewrite match_ws_run. cbn [length] in Hlen.
  destruct (is_space c) eqn:Hc.
  - pose proof (lstrip_length s) as Hls.
    destruct (IH (lstrip s)) as [Hcol Hlead]; [lia |].
    assert ((length (lstrip s) <? length (c :: s))%nat = true) as ->
      by (apply Nat.ltb_lt; cbn [length]; lia).
    split.
    + change (SPACE ++ ?t) with (32 :: t).
      apply ws_collapsed_cons; [right | exact Hcol].
      apply Hlead, lstrip_no_leading_space.
    + cbn [no_leading_space]. congruence.
  - destruct (IH s) as [Hcol _]; [lia |].
    split; [| intros _; exact Hc].
    apply ws_collapsed_cons; [by left | exact Hcol].
Qed.

Lemma collapse_whitespace_collapsed s :
  ws_collapsed (collapse_whitespace s) = true.
Proof.
  unfold collapse_whitespace, sub. apply ws_collapsed_strip.
  apply sub_ws_run_collapsed. lia.
Qed.

Lemma whatsapp_clean_text_collapsed E input engine pf theta sl st r st' :
  extract_text_whatsapp_aware E input engine pf theta sl st = (Ok r, st') ->
  ws_collapsed (res_clean_text r) = true.
Proof.
  intros H.
  apply whatsapp_ok_inv in H as (img & rd & regions & _ & _ & _ & ->).
  apply collapse_whitespace_collapsed.
Qed.

(** ** Recognition unavailable *)

Lemma get_reader_outcome E langs gpu st o st' :
  get_reader E langs gpu st = (o, st') ->
  match o with
  | Ok None => easyocr_present E = false
  | Ok (Some _) => easyocr_present E = true
  | Raise e => e = ExternalError
  end.
Proof.
  unfold get_reader. destruct (easyocr_present E); cbn [negb].
  - unfold bind, try_except, build_reader. intros H.
    destruct (_OCR_READER st) as [r |] eqn:Hr.
    + destruct (missing_langs _ r).
      * destruct (easyocr_Reader E _ gpu);
          [injection H as <- <-; reflexivity |].
        destruct (easyocr_Reader E DEFAULT_LANGS gpu);
          injection H as <- <-; reflexivity.
      * injection H as <- <-. by rewrite Hr.
    + destruct (easyocr_Reader E _ gpu);
        [injection H as <- <-; reflexivity |].
      destruct (easyocr_Reader E DEFAULT_LANGS gpu);
        injection H as <- <-; reflexivity.
  - intros H. injection H as <- <-. reflexivity.
Qed.

Lemma load_image_whatsapp_raises E input e :
  load_image_whatsapp E input = Raise e -> e <> RecognitionUnavailable.
Proof.
  destruct input as [path | pil | a |]; cbn [load_image_whatsapp].
  - destruct (image_open E path); cbn; intros [= <-]; discriminate.
  - discriminate.
  - destruct (ndim a =? 2); [| discriminate].
    destruct (cv2_present E); [| intros [= <-]; discriminate].
    destruct a; cbn [gray2bgr]; intros [= <-]; discriminate.
  - intros [= <-]. discriminate.
Qed.

Lemma load_image_urdu_raises E input e :
  load_image_urdu E input = Raise e -> e <> RecognitionUnavailable.
Proof.
  destruct input as [path | pil | a |]; cbn [load_image_urdu].
  - destruct (image_open E path); cbn; intros [= <-]; discriminate.
  - discriminate.
  - discriminate.
  - intros [= <-]. discriminate.
Qed.

Lemma detect_text_regions_raises E img min_area ratio e :
  detect_text_regions E img min_area ratio = Raise e -> e = ExternalError.
Proof.
  unfold detect_text_regions, _detect_with_cv2, _detect_without_cv2,
    detect_regions_coords.
  destruct (cv2_present E); [| discriminate].
  destruct (cv2_BGR2GRAY E img) as [gray |]; cbn [of_call obind];
    [| by intros [= <-]].
  destruct (cv2_text_contours E gray); cbn [of_call obind];
    [| by intros [= <-]].
  destruct gray; cbn [shape2 obind]; [discriminate | by intros [= <-]].
Qed.

Lemma whatsapp_unavailable E input engine pf theta sl st img :
  easyocr_present E = false ->
  load_image_whatsapp E input = Ok img ->
  extract_text_whatsapp_aware E input engine pf theta sl st
  = (Raise RecognitionUnavailable, st).
Proof.
  intros He Hl. unfold extract_text_whatsapp_aware, bind, lift.
  rewrite Hl, (get_reader_unavailable E None false st He). reflexivity.
Qed.

Lemma urdu_unavailable E input theta pf st img :
  easyocr_present E = false ->
  load_image_urdu E input = Ok img ->
  extract_text_with_urdu_support E input theta pf st
  = (Raise RecognitionUnavailable, st).
Proof.
  intros He Hl. unfold extract_text_with_urdu_support, bind, lift.
  rewrite Hl, (get_reader_unavailable E None false st He). reflexivity.
Qed.

Lemma plain_unavailable E pil engine st pre :
  easyocr_present E = false ->
  preprocess_image E (pil_to_bgr pil) = Ok pre ->
  (engine = "tesseract"%string -> pytesseract_present E = false) ->
  exists r,
    extract_text_from_image E pil engine st = (Ok r, st)
    /\ simple_raw_text r = [].
Proof.
  intros He Hp Ht. unfold extract_text_from_image.
  unfold bind at 1. unfold lift at 1. rewrite Hp, He, andb_false_r.
  assert ((engine =? "tesseract")%string && pytesseract_present E = false)
    as ->.
  { destruct (String.eqb_spec engine "tesseract") as [Heq | _];
      [| reflexivity].
    by rewrite (Ht Heq). }
  unfold bind, ret. eexists. split; reflexivity.
Qed.

Lemma whatsapp_unavailable_only E input engine pf theta sl st st' :
  extract_text_whatsapp_aware E input engine pf theta sl st
  = (Raise RecognitionUnavailable, st') ->
  easyocr_present E = false.
Proof.
  unfold extract_text_whatsapp_aware. unfold bind at 1. unfold lift at 1.
  destruct (load_image_whatsapp E input) as [img | e] eqn:Hl.
  - unfold bind at 1.
    destruct (get_reader E None false st) as [[[rd |] | e] st1] eqn:Hg.
    + unfold bind at 1. unfold lift at 1.
      destruct (detect_text_regions E _ _ _) as [regions | e] eqn:Hd.
      * destruct (read_regions _ _). discriminate.
      * apply detect_text_regions_raises in Hd as ->. discriminate.
    + intros _. exact (get_reader_outcome _ _ _ _ _ _ Hg).
    + pose proof (get_reader_outcome _ _ _ _ _ _ Hg) as He. cbn in He.
      subst e. discriminate.
  - intros [= -> _]. by apply load_image_whatsapp_raises in Hl.
Qed.

Lemma urdu_unavailable_only E input theta pf st st' :
  extract_text_with_urdu_support E input theta pf st
  = (Raise RecognitionUnavailable, st') ->
  easyocr_present E = false.
Proof.
  unfold extract_text_with_urdu_support. unfold bind at 1. unfold lift at 1.
  destruct (load_image_urdu E input) as [img | e] eqn:Hl.
  - unfold bind at 1.
    destruct (get_reader E None false st) as [[[rd |] | e] st1] eqn:Hg.
    + unfold bind at 1.
      destruct (try_except _ _ st1) as [[reader | e] st2] eqn:Hg2.
      * unfold bind at 1. unfold lift at 1.
        destruct (detect_text_regions E _ _ _) as [regions | e] eqn:Hd.
        -- destruct (read_regions _ _).
           destruct (String.eqb _ _); [destruct (shape_and_bidi _ _) |];
             discriminate.
        -- apply detect_text_regions_raises in Hd as ->. discriminate.
      * unfold try_except in Hg2.
        destruct (get_reader E None false st1) as [[o | e1] st3] eqn:Hg3;
          [discriminate |].
        pose proof (get_reader_outcome _ _ _ _ _ _ Hg2) as He. cbn in He.
        subst e. discriminate.
    + intros _. exact (get_reader_outcome _ _ _ _ _ _ Hg).
    + pose proof (get_reader_outcome _ _ _ _ _ _ Hg) as He. cbn in He.
      subst e. discriminate.
  - intros [= -> _]. by apply load_image_urdu_raises in Hl.
Qed.

(** When [get_reader] raises: easyocr imports, and the constructor has
    failed for the default languages; nothing was assigned. *)
Lemma get_reader_raises E langs gpu st e st1 :
  get_reader E langs gpu st = (Raise e, st1) ->
  e = ExternalError /\ st1 = st /\ easyocr_present E = true
  /\ easyocr_Reader E DEFAULT_LANGS gpu = None.
Proof.
  unfold get_reader. destruct (easyocr_present E); cbn [negb];
    [| discriminate].
  unfold bind, try_except, build_reader. intros H.
  destruct (_OCR_READER st) as [r |] eqn:Hr.
  - destruct (missing_langs _ r).
    + destruct (easyocr_Reader E _ gpu); [discriminate |].
      destruct (easyocr_Reader E DEFAULT_LANGS gpu); [discriminate |].
      by injection H as <- <-.
    + discriminate.
  - destruct (easyocr_Reader E _ gpu); [discriminate |].
    destruct (easyocr_Reader E DEFAULT_LANGS gpu); [discriminate |].
    by injection H as <- <-.
Qed.

Lemma get_reader_constructor_fails E st :
  easyocr_present E = true ->
  _OCR_READER st = None ->
  easyocr_Reader E DEFAULT_LANGS false = None ->
  get_reader E None false st = (Raise ExternalError, st).
Proof.
  intros He Hr Hc. unfold get_reader. rewrite He. cbn [negb].
  unfold bind, try_except, build_reader. by rewrite Hr, Hc.
Qed.

Lemma whatsapp_reader_raises E input engine pf theta sl st img e st1 :
  load_image_whatsapp E input = Ok img ->
  get_reader E None false st = (Raise e, st1) ->
  extract_text_whatsapp_aware E input engine pf theta sl st = (Raise e, st1).
Proof.
  intros Hl Hg. unfold extract_text_whatsapp_aware, bind, lift.
  by rewrite Hl, Hg.
Qed.

Lemma urdu_reader_raises E input theta pf st img e st1 :
  load_image_urdu E input = Ok img ->
  get_reader E None false st = (Raise e, st1) ->
  extract_text_with_urdu_support E input theta pf st = (Raise e, st1).
Proof.
  intros Hl Hg. unfold extract_text_with_urdu_support, bind, lift.
  by rewrite Hl, Hg.
Qed.

Lemma plain_reader_raises E pil st pre e st1 :
  preprocess_image E (pil_to_bgr pil) = Ok pre ->
  get_reader E None false st = (Raise e, st1) ->
  extract_text_from_image E pil "easyocr" st = (Raise e, st1).
Proof.
  intros Hp Hg. destruct (get_reader_raises _ _ _ _ _ _ Hg) as (_ & _ & He & _).
  unfold extract_text_from_image, bind, lift.
  rewrite Hp, He. cbn [String.eqb Ascii.eqb Bool.eqb andb]. by rewrite Hg.
Qed.

(** C6, as stated, fails in three ways.  The recognizer cannot be obtained
    either when easyocr imports but its constructor raises: then
    [get_reader] raises, and the two region pipelines propagate that error
    instead of raising [RecognitionUnavailable], and
    [extract_text_from_image] propagates it instead of returning an empty
    text.  And without the recognition engine: on an input of an
    unsupported kind the region pipelines raise [UnsupportedInputKind],
    the kind being checked first; and [extract_text_from_image] asked for
    the tesseract engine, tesseract being installed, returns tesseract's
    text, not the empty string. *)
Lemma unavailable_but_other_outcome :
  (easyocr_present env_broken_engine = true
   /\ get_reader env_broken_engine None false st0
      = (Raise ExternalError, st0)
   /\ extract_text_whatsapp_aware env_broken_engine (InPil pil_1x1)
        "easyocr" None DEFAULT_MIN_CONFIDENCE None st0
      = (Raise ExternalError, st0)
   /\ extract_text_with_urdu_support env_broken_engine (InPil pil_1x1)
        DEFAULT_MIN_CONFIDENCE None st0
      = (Raise ExternalError, st0)
   /\ extract_text_from_image env_broken_engine pil_1x1 "easyocr" st0
      = (Raise ExternalError, st0)
   /\ ExternalError <> RecognitionUnavailable)
  /\ easyocr_present env_tesseract_only = false
  /\ (extract_text_whatsapp_aware env_tesseract_only InOther "easyocr" None
        DEFAULT_MIN_CONFIDENCE None st0).1 = Raise UnsupportedInputKind
  /\ (extract_text_with_urdu_support env_tesseract_only InOther
        DEFAULT_MIN_CONFIDENCE None st0).1 = Raise UnsupportedInputKind
  /\ exists r st',
       extract_text_from_image env_tesseract_only pil_1x1 "tesseract" st0
       = (Ok r, st')
       /\ simple_raw_text r = lit "tess"
       /\ simple_raw_text r <> [].
Proof.
  split.
  { split; [reflexivity |]. split; [reflexivity |].
    split; [vm_compute; reflexivity |]. split; [vm_compute; reflexivity |].
    split; [vm_compute; reflexivity | discriminate]. }
  split; [reflexivity |]. split; [reflexivity |]. split; [reflexivity |].
  eexists _, _. split; [vm_compute; reflexivity |].
  split; [reflexivity | discriminate].
Qed.

(** C6, amended. Without the recognition engine (easyocr cannot be
    imported): [extract_text_whatsapp_aware] and
    [extract_text_with_urdu_support] raise [RecognitionUnavailable] on
    every input they can load, leaving the state as it was; and
    [extract_text_from_image] returns a result whose [raw_text] is empty
    whenever preprocessing succeeds and the tesseract engine is not both
    requested and installed.  Conversely the two region pipelines raise
    [RecognitionUnavailable] only without the recognition engine.  When
    instead [get_reader] raises, which it does when easyocr imports and
    the constructor fails for the default languages with nothing cached,
    the error is not [RecognitionUnavailable], nothing is cached, and all
    three pipelines propagate it: the region pipelines on every input they
    can load, and [extract_text_from_image] asked for the easyocr engine
    once preprocessing succeeded. *)
Theorem recognition_unavailable E :
  (easyocr_present E = false ->
   (forall input engine pf theta sl st img,
       load_image_whatsapp E input = Ok img ->
       extract_text_whatsapp_aware E input engine pf theta sl st
       = (Raise RecognitionUnavailable, st))
   /\ (forall input theta pf st img,
          load_image_urdu E input = Ok img ->
          extract_text_with_urdu_support E input theta pf st
          = (Raise RecognitionUnavailable, st))
   /\ (forall pil engine st pre,
          preprocess_image E (pil_to_bgr pil) = Ok pre ->
          (engine = "tesseract"%string -> pytesseract_present E = false) ->
          exists r,
            extract_text_from_image E pil engine st = (Ok r, st)
            /\ simple_raw_text r = []))
  /\ (forall input engine pf theta sl st st',
         extract_text_whatsapp_aware E input engine pf theta sl st
         = (Raise RecognitionUnavailable, st') ->
         easyocr_present E = false)
  /\ (forall input theta pf st st',
         extract_text_with_urdu_support E input theta pf st
         = (Raise RecognitionUnavailable, st') ->
         easyocr_present E = false)
  /\ (forall st e st1,
         get_reader E None false st = (Raise e, st1) ->
         e <> RecognitionUnavailable
         /\ st1 = st
         /\ easyocr_present E = true
         /\ easyocr_Reader E DEFAULT_LANGS false = None
         /\ (forall input engine pf theta sl img,
                load_image_whatsapp E input = Ok img ->
                extract_text_whatsapp_aware E input engine pf theta sl st
                = (Raise e, st))
         /\ (forall input theta pf img,
                load_image_urdu E input = Ok img ->
                extract_text_with_urdu_support E input theta pf st
                = (Raise e, st))
         /\ (forall pil pre,
                preprocess_image E (pil_to_bgr pil) = Ok pre ->
                extract_text_from_image E pil "easyocr" st = (Raise e, st)))
  /\ (forall st,
         easyocr_present E = true ->
         _OCR_READER st = None ->
         easyocr_Reader E DEFAULT_LANGS false = None ->
         get_reader E None false st = (Raise ExternalError, st)).
Proof.
  split; [| split; [| split; [| split]]].
  - intros He. split; [| split].
    + intros. by eapply whatsapp_unavailable.
    + intros. by eapply urdu_unavailable.
    + intros. by eapply plain_unavailable.
  - intros. by eapply whatsapp_unavailable_only.
  - intros. by eapply urdu_unavailable_only.
  - intros st e st1 Hg.
    destruct (get_reader_raises _ _ _ _ _ _ Hg) as (-> & -> & He & Hc).
    split; [discriminate |]. split; [reflexivity |].
    split; [exact He |]. split; [exact Hc |]. split; [| split].
    + intros. by eapply whatsapp_reader_raises.
    + intros. by eapply urdu_reader_raises.
    + intros. by eapply plain_reader_raises.
  - intros st. apply get_reader_constructor_fails.
Qed.

Lemma recognition_unavailable_witness :
  easyocr_present env_off = false
  /\ extract_text_whatsapp_aware env_off (InArray img_1x1) "easyocr" None
       DEFAULT_MIN_CONFIDENCE None st0 = (Raise RecognitionUnavailable, st0)
  /\ extract_text_with_urdu_support env_off (InPil pil_1x1)
       DEFAULT_MIN_CONFIDENCE None st0 = (Raise RecognitionUnavailable, st0)
  /\ (exists r,
         extract_text_from_image env_off pil_1x1 "easyocr" st0 = (Ok r, st0)
         /\ simple_raw_text r = [])
  /\ get_reader env_broken_engine None false st0
     = (Raise ExternalError, st0)
  /\ extract_text_whatsapp_aware env_broken_engine (InArray img_1x1)
       "easyocr" None DEFAULT_MIN_CONFIDENCE None st0
     = (Raise ExternalError, st0)
  /\ extract_text_with_urdu_support env_broken_engine (InPil pil_1x1)
       DEFAULT_MIN_CONFIDENCE None st0 = (Raise ExternalError, st0)
  /\ extract_text_from_image env_broken_engine pil_1x1 "easyocr" st0
     = (Raise ExternalError, st0).
Proof.
  destruct (recognition_unavailable env_off)
    as (Hoff & Honly_w & Honly_u & _ & _).
  destruct (Hoff eq_refl) as (Hw & Hu & Hp).
  pose proof (Hw (InArray img_1x1) "easyocr"%string None
                DEFAULT_MIN_CONFIDENCE None st0 img_1x1 eq_refl) as Hrun_w.
  pose proof (Hu (InPil pil_1x1) DEFAULT_MIN_CONFIDENCE None st0
                (pil_to_bgr pil_1x1) eq_refl) as Hrun_u.
  destruct (recognition_unavailable env_broken_engine)
    as (_ & _ & _ & Hraise & Hfail).
  pose proof (Hfail st0 eq_refl eq_refl eq_refl) as Hg.
  destruct (Hraise st0 ExternalError st0 Hg)
    as (_ & _ & _ & _ & Hbw & Hbu & Hbp).
  split; [exact (Honly_w _ _ _ _ _ _ _ Hrun_w) |].
  split; [exact Hrun_w |]. split; [exact Hrun_u |].
  split.
  { refine (Hp pil_1x1 "easyocr"%string st0 _ _ _).
    - vm_compute. reflexivity.
    - discriminate. }
  split; [exact Hg |].
  split; [exact (Hbw (InArray img_1x1) "easyocr"%string None
                   DEFAULT_MIN_CONFIDENCE None img_1x1 eq_refl) |].
  split; [exact (Hbu (InPil pil_1x1) DEFAULT_MIN_CONFIDENCE None
                   (pil_to_bgr pil_1x1) eq_refl) |].
  refine (Hbp pil_1x1 _ _). vm_compute. reflexivity.
Defined.

(** * Further properties of the code *)

(** ** The matcher finds only strings of the pattern's language *)

Lemma rep_greedy_sound p lo hi s k rest :
  rep_greedy p lo hi s k = Some rest ->
  exists m s',
    s = m ++ s'
    /\ Forall (fun c => p c = true) m
    /\ (lo <= length m)%nat
    /\ (forall n, hi = Some n -> (length m <= n)%nat)
    /\ k s' = Some rest.
Proof.
  revert lo hi. induction s as [| c s IH]; intros lo hi H.
  - cbn [rep_greedy] in H. destruct lo; [| discriminate].
    exists [], []. split; [reflexivity |]. split; [constructor |].
    split; [cbn; lia |]. split; [intros n _; cbn; lia | exact H].
  - cbn [rep_greedy] in H.
    assert (Hstop : match lo with O => k (c :: s) | S _ => None end = Some rest ->
                    exists m s',
                      c :: s = m ++ s'
                      /\ Forall (fun c => p c = true) m
                      /\ (lo <= length m)%nat
                      /\ (forall n, hi = Some n -> (length m <= n)%nat)
                      /\ k s' = Some rest).
    { intros Hs. destruct lo; [| discriminate].
      exists [], (c :: s). split; [reflexivity |]. split; [constructor |].
      split; [cbn; lia |]. split; [intros n _; cbn; lia | exact Hs]. }
    destruct (p c && may_repeat hi) eqn:Hpc; [| by apply Hstop].
    apply andb_prop in Hpc as [Hp Hmay].
    destruct (rep_greedy p (Nat.pred lo) (dec_bound hi) s k) as [r |] eqn:Hrec;
      [| by apply Hstop].
    injection H as ->.
    destruct (IH _ _ Hrec) as (m & s' & -> & Hall & Hlo & Hhi & Hk).
    exists (c :: m), s'. split; [reflexivity |].
    split; [by constructor |]. split; [cbn [length]; lia |].
    split; [| exact Hk].
    intros n ->. destruct n as [| n]; [discriminate |].
    cbn [length]. specialize (Hhi n eq_refl). lia.
Qed.

Lemma rmatch_sound r s k rest :
  rmatch r s k = Some rest ->
  exists m s', s = m ++ s' /\ matches r m /\ k s' = Some rest.
Proof.
  revert s k rest.
  induction r as [| p | p lo hi | r1 IH1 r2 IH2 | r1 IH1 r2 IH2];
    intros s k rest H; cbn [rmatch] in H.
  - exists [], s. split; [reflexivity |]. split; [constructor | exact H].
  - destruct s as [| c s]; [discriminate |].
    destruct (p c) eqn:Hp; [| discriminate].
    exists [c], s. split; [reflexivity |]. split; [by constructor | exact H].
  - apply rep_greedy_sound in H as (m & s' & -> & Hall & Hlo & Hhi & Hk).
    exists m, s'. split; [reflexivity |]. split; [by constructor | exact Hk].
  - apply IH1 in H as (m1 & s1 & -> & Hm1 & H).
    apply IH2 in H as (m2 & s2 & -> & Hm2 & H).
    exists (m1 ++ m2), s2. split; [by rewrite app_assoc |].
    split; [by constructor | exact H].
  - destruct (rmatch r1 s k) as [r |] eqn:H1.
    + injection H as ->.
      apply IH1 in H1 as (m & s' & -> & Hm & Hk).
      exists m, s'. split; [reflexivity |].
      split; [by apply matches_alt_l | exact Hk].
    + apply IH2 in H as (m & s' & -> & Hm & Hk).
      exists m, s'. split; [reflexivity |].
      split; [by apply matches_alt_r | exact Hk].
Qed.

Lemma match_at_sound r s rest :
  match_at r s = Some rest ->
  exists m, s = m ++ rest
            /\ matches r m
            /\ take (length s - length rest) s = m.
Proof.
  unfold match_at. intros H.
  apply rmatch_sound in H as (m & s' & -> & Hm & [= ->]).
  exists m. split; [reflexivity |]. split; [exact Hm |].
  rewrite length_app.
  replace (length m + length rest - length rest)%nat with (length m) by lia.
  by rewrite take_app_length.
Qed.

Lemma substring_suffix x pre s : substring x s -> substring x (pre ++ s).
Proof.
  intros (a & b & ->). exists (pre ++ a), b. by rewrite <- app_assoc.
Qed.

Lemma findall_from_sound fuel r s x :
  In x (findall_from fuel r s) -> matches r x /\ substring x s.
Proof.
  revert s. induction fuel as [| fuel IH]; intros s Hin; [destruct Hin |].
  cbn [findall_from] in Hin.
  assert (Hskip : In x (match s with [] => [] | _ :: s' => findall_from fuel r s' end)
                  -> matches r x /\ substring x s).
  { destruct s as [| c s']; [intros [] |].
    intros H. apply IH in H as [Hm Hsub]. split; [exact Hm |].
    by apply (substring_suffix x [c]). }
  destruct (match_at r s) as [rest |] eqn:Hm; [| by apply Hskip].
  apply match_at_sound in Hm as (m & -> & Hmatch & Htake).
  rewrite Htake in Hin.
  destruct m as [| c m].
  - destruct Hin as [<- | Hin].
    + split; [exact Hmatch |]. by exists [], rest.
    + by apply Hskip.
  - destruct Hin as [<- | Hin].
    + split; [exact Hmatch |]. by exists [], rest.
    + apply IH in Hin as [Hx Hsub]. split; [exact Hx |].
      by apply substring_suffix.
Qed.

Lemma findall_sound r s x :
  In x (findall r s) -> matches r x /\ substring x s.
Proof. apply findall_from_sound. Qed.

(** Inversion of [matches], one lemma per construct. *)
Lemma matches_cat_inv r1 r2 m :
  matches (Cat r1 r2) m ->
  exists m1 m2, m = m1 ++ m2 /\ matches r1 m1 /\ matches r2 m2.
Proof. inversion 1; subst. eauto. Qed.

Lemma matches_alt_inv r1 r2 m :
  matches (Alt r1 r2) m -> matches r1 m \/ matches r2 m.
Proof. inversion 1; subst; auto. Qed.

Lemma matches_cls_inv p m :
  matches (Cls p) m -> exists c, m = [c] /\ p c = true.
Proof. inversion 1; subst. eauto. Qed.

Lemma matches_rep_inv p lo hi m :
  matches (Rep p lo hi) m ->
  Forall (fun c => p c = true) m
  /\ (lo <= length m)%nat
  /\ (forall n, hi = Some n -> (length m <= n)%nat).
Proof. inversion 1; subst. auto. Qed.

Lemma matches_opt_inv p m :
  matches (Opt p) m -> m = [] \/ exists c, m = [c] /\ p c = true.
Proof.
  unfold Opt. intros H.
  apply matches_rep_inv in H as (Hall & _ & Hhi).
  specialize (Hhi 1%nat eq_refl).
  destruct m as [| c [| d m]]; [by left | | cbn in Hhi; lia].
  right. exists c. split; [reflexivity |]. by inversion Hall.
Qed.

Lemma matches_lit_inv s m : matches (Lit s) m -> m = lit s.
Proof.
  unfold Lit. revert m. induction (lit s) as [| c l IH]; intros m H;
    cbn [fold_right] in H.
  - by inversion H.
  - apply matches_cat_inv in H as (m1 & m2 & -> & H1 & H2).
    apply matches_cls_inv in H1 as (d & -> & Hd).
    apply Z.eqb_eq in Hd as ->. cbn [app]. f_equal. by apply IH.
Qed.

Lemma chr_true a c : chr a c = true -> c = ord a.
Proof. unfold chr. apply Z.eqb_eq. Qed.

Lemma matches_phone nd x : matches (PHONE_RE nd) x -> phone_shape nd x.
Proof.
  unfold PHONE_RE, sequence, AtLeast. intros H.
  apply matches_cat_inv in H as (sign & m & -> & Hsign & H).
  apply matches_cat_inv in H as (m1 & t & -> & Hd & Ht).
  apply matches_cls_inv in Hd as (d & -> & Hd).
  apply matches_rep_inv in Ht as (Hall & Hlen & _).
  exists sign, d, t. split; [reflexivity |]. split; [| auto].
  apply matches_opt_inv in Hsign as [-> | (c & -> & Hc)]; [by left |].
  right. by apply chr_true in Hc as ->.
Qed.

Lemma matches_email_generic local_char x :
  matches
    (sequence [ Plus local_char; Cls (chr "@"); Plus email_domain_char;
                Cls (chr "."); AtLeast 2 alpha ]) x ->
  email_shape local_char x.
Proof.
  unfold sequence, Plus, AtLeast. intros H.
  apply matches_cat_inv in H as (loc & m & -> & Hloc & H).
  apply matches_cat_inv in H as (at_ & m1 & -> & Hat & H).
  apply matches_cat_inv in H as (dom & m2 & -> & Hdom & H).
  apply matches_cat_inv in H as (dot & tld & -> & Hdot & Htld).
  apply matches_cls_inv in Hat as (c & -> & Hc). apply chr_true in Hc as ->.
  apply matches_cls_inv in Hdot as (c & -> & Hc). apply chr_true in Hc as ->.
  apply matches_rep_inv in Hloc as (Hloc & Hloc1 & _).
  apply matches_rep_inv in Hdom as (Hdom & Hdom1 & _).
  apply matches_rep_inv in Htld as (Htld & Htld2 & _).
  exists loc, dom, tld. split; [reflexivity |].
  split; [intros ->; cbn in Hloc1; lia |]. split; [exact Hloc |].
  split; [intros ->; cbn in Hdom1; lia |]. auto.
Qed.

Lemma matches_url x : matches URL_RE x -> url_shape x.
Proof.
  unfold URL_RE, sequence, Plus. intros H.
  assert (Hrest : forall rest,
             matches (Rep (outside is_space) 1 None) rest ->
             rest <> [] /\ Forall (fun c => is_space c = false) rest).
  { intros rest Hr. apply matches_rep_inv in Hr as (Hall & Hlen & _).
    split; [intros ->; cbn in Hlen; lia |].
    eapply Forall_impl; [exact Hall |]. cbn beta. unfold outside.
    intros c Hc. by apply negb_true_iff in Hc. }
  apply matches_alt_inv in H as [H | H].
  - apply matches_cat_inv in H as (h & m & -> & Hh & H).
    apply matches_lit_inv in Hh as ->.
    apply matches_cat_inv in H as (sec & m1 & -> & Hs & H).
    apply matches_cat_inv in H as (sl & rest & -> & Hsl & Hr).
    apply matches_lit_inv in Hsl as ->.
    apply Hrest in Hr as [Hne Hall].
    apply matches_opt_inv in Hs as [-> | (c & -> & Hc)].
    + exists (lit "http://"), rest. auto.
    + apply chr_true in Hc as ->. exists (lit "https://"), rest. auto.
  - apply matches_cat_inv in H as (w & m & -> & Hw & H).
    apply matches_lit_inv in Hw as ->.
    apply matches_cat_inv in H as (dot & rest & -> & Hdot & Hr).
    apply matches_cls_inv in Hdot as (c & -> & Hc). apply chr_true in Hc as ->.
    apply Hrest in Hr as [Hne Hall].
    exists (lit "www."), rest. auto.
Qed.

Lemma matches_amount nd x : matches (AMOUNT_RE nd) x -> amount_shape nd x.
Proof.
  unfold AMOUNT_RE, sequence, Star. intros H.
  apply matches_cat_inv in H as (marker & m & -> & Hmark & H).
  apply matches_cat_inv in H as (blank & m1 & -> & Hblank & H).
  apply matches_cat_inv in H as (m2 & t & -> & Hd & Ht).
  apply matches_cls_inv in Hd as (d & -> & Hd).
  apply matches_rep_inv in Ht as (Ht & _ & _).
  exists marker, blank, d, t. split; [reflexivity |].
  split; [| split; [by apply matches_opt_inv | split; [exact Hd |]]].
  - apply matches_alt_inv in Hmark as [Hrs | Hmark].
    + apply matches_cat_inv in Hrs as (rs & dot & -> & Hrs & Hdot).
      apply matches_lit_inv in Hrs as ->.
      apply matches_opt_inv in Hdot as [-> | (c & -> & Hc)]; [by left |].
      apply chr_true in Hc as ->. right. by left.
    + apply matches_alt_inv in Hmark as [Hinr | Hdollar].
      * apply matches_lit_inv in Hinr as ->. auto.
      * apply matches_cls_inv in Hdollar as (c & -> & Hc).
        apply chr_true in Hc as ->. auto.
  - eapply Forall_impl; [exact Ht |]. cbn beta. unfold either.
    intros c Hc. apply orb_prop in Hc as [Hc | Hc]; [by left |].
    right. by apply chr_true.
Qed.

(** ** What the field extraction returns *)

Lemma substring_In x s c : substring x s -> In c x -> In c s.
Proof.
  intros (pre & post & ->) Hc. apply in_or_app. right.
  apply in_or_app. by left.
Qed.

Lemma nil_if_no_member {A : Type} (l : list A) :
  (forall x, In x l -> False) -> l = [].
Proof. destruct l as [| a l]; [reflexivity |]. intros H. destruct (H a). by left. Qed.

(** X1. Every phone candidate, in either extractor, is a contiguous piece
    of the clean text, has at least six characters, and reads: an optional
    [+], a digit, then only digits, whitespace and hyphens. *)
Theorem phone_candidates nd clean x :
  In x (phones (extract_fields nd clean))
  \/ In x (phones (extract_fields_urdu nd clean)) ->
  substring x clean /\ phone_shape nd x /\ (6 <= length x)%nat.
Proof.
  intros H.
  assert (Hin : In x (findall (PHONE_RE nd) clean)) by (by destruct H).
  apply findall_sound in Hin as [Hm Hsub]. split; [exact Hsub |].
  apply matches_phone in Hm. split; [exact Hm |].
  destruct Hm as (sign & d & t & -> & _ & _ & Hlen & _).
  rewrite length_app. cbn [length]. lia.
Qed.

Lemma phone_candidates_witness :
  In (lit "+92 300 1234567 ") (phones (extract_fields no_decimals SCENARIO_TEXT))
  /\ substring (lit "+92 300 1234567 ") SCENARIO_TEXT
  /\ phone_shape no_decimals (lit "+92 300 1234567 ")
  /\ (6 <= length (lit "+92 300 1234567 "))%nat.
Proof.
  assert (Hin : In (lit "+92 300 1234567 ")
                   (phones (extract_fields no_decimals SCENARIO_TEXT)))
    by (vm_compute; left; reflexivity).
  split; [exact Hin |].
  exact (phone_candidates no_decimals SCENARIO_TEXT _ (or_introl Hin)).
Defined.

(** X2. Every e-mail candidate is a contiguous piece of the clean text of
    the form local [@] domain [.] letters: a non-empty local part without
    [@], a non-empty domain of letters, digits, dots and hyphens, and at
    least two ASCII letters after the last dot.  The Urdu extractor also
    admits [%] in the local part. *)
Theorem email_candidates nd clean x :
  (In x (emails (extract_fields nd clean)) ->
   substring x clean /\ email_shape email_local_char x)
  /\ (In x (emails (extract_fields_urdu nd clean)) ->
      substring x clean /\ email_shape email_local_char_urdu x).
Proof.
  split; intros Hin; apply findall_sound in Hin as [Hm Hsub];
    (split; [exact Hsub |]); by apply matches_email_generic.
Qed.

Lemma email_candidates_witness :
  (substring (lit "scam@fraud.com") SCENARIO_TEXT
   /\ email_shape email_local_char (lit "scam@fraud.com"))
  /\ (substring (lit "scam@fraud.com") SCENARIO_TEXT
      /\ email_shape email_local_char_urdu (lit "scam@fraud.com")).
Proof.
  destruct (email_candidates no_decimals SCENARIO_TEXT (lit "scam@fraud.com"))
    as [Hbasic Hurdu].
  split; [apply Hbasic | apply Hurdu]; vm_compute; left; reflexivity.
Defined.

(** X3. Every URL candidate is a contiguous piece of the clean text that
    starts with [http://], [https://] or [www.], goes on for at least one
    more character and contains no whitespace after the prefix. *)
Theorem url_candidates nd clean x :
  In x (urls (extract_fields nd clean))
  \/ In x (urls (extract_fields_urdu nd clean)) ->
  substring x clean /\ url_shape x.
Proof.
  intros H.
  assert (Hin : In x (findall URL_RE clean)) by (by destruct H).
  apply findall_sound in Hin as [Hm Hsub]. split; [exact Hsub |].
  by apply matches_url.
Qed.

Lemma url_candidates_witness :
  In (lit "www.fakepay.com") (urls (extract_fields no_decimals SCENARIO_TEXT))
  /\ substring (lit "www.fakepay.com") SCENARIO_TEXT
  /\ url_shape (lit "www.fakepay.com").
Proof.
  assert (Hin : In (lit "www.fakepay.com")
                   (urls (extract_fields no_decimals SCENARIO_TEXT)))
    by (vm_compute; left; reflexivity).
  split; [exact Hin |].
  exact (url_candidates no_decimals SCENARIO_TEXT _ (or_introl Hin)).
Defined.

(** X4. Every amount candidate is a contiguous piece of the clean text
    that reads: one of the markers [Rs], [Rs.], [INR], [$], at most one
    whitespace character, a digit, then only digits and commas. *)
Theorem amount_candidates nd clean x :
  In x (amounts (extract_fields nd clean))
  \/ In x (amounts (extract_fields_urdu nd clean)) ->
  substring x clean /\ amount_shape nd x.
Proof.
  intros H.
  assert (Hin : In x (findall (AMOUNT_RE nd) clean)) by (by destruct H).
  apply findall_sound in Hin as [Hm Hsub]. split; [exact Hsub |].
  by apply matches_amount.
Qed.

Lemma amount_candidates_witness :
  In (lit "Rs. 5,000") (amounts (extract_fields no_decimals SCENARIO_TEXT))
  /\ substring (lit "Rs. 5,000") SCENARIO_TEXT
  /\ amount_shape no_decimals (lit "Rs. 5,000").
Proof.
  assert (Hin : In (lit "Rs. 5,000")
                   (amounts (extract_fields no_decimals SCENARIO_TEXT)))
    by (vm_compute; left; reflexivity).
  split; [exact Hin |].
  exact (amount_candidates no_decimals SCENARIO_TEXT _ (or_introl Hin)).
Defined.

(** X5. A clean text without any digit yields no phone and no amount, and
    a clean text without [@] yields no e-mail, in both extractors. *)
Theorem no_digit_no_number_fields nd clean :
  (Forall (fun c => is_digit nd c = false) clean ->
   phones (extract_fields nd clean) = []
   /\ amounts (extract_fields nd clean) = []
   /\ phones (extract_fields_urdu nd clean) = []
   /\ amounts (extract_fields_urdu nd clean) = [])
  /\ (~ In AT_SIGN clean ->
      emails (extract_fields nd clean) = []
      /\ emails (extract_fields_urdu nd clean) = []).
Proof.
  split.
  - intros Hnd. rewrite Forall_forall in Hnd.
    assert (Hp : findall (PHONE_RE nd) clean = []).
    { apply nil_if_no_member. intros x Hx.
      apply findall_sound in Hx as [Hm Hsub].
      apply matches_phone in Hm as (sign & d & t & -> & _ & Hd & _).
      assert (Hin : In d clean).
      { apply (substring_In _ _ _ Hsub), in_or_app. right. by left. }
      apply list_elem_of_In, Hnd in Hin. congruence. }
    assert (Ha : findall (AMOUNT_RE nd) clean = []).
    { apply nil_if_no_member. intros x Hx.
      apply findall_sound in Hx as [Hm Hsub].
      apply matches_amount in Hm
        as (marker & blank & d & t & -> & _ & _ & Hd & _).
      assert (Hin : In d clean).
      { apply (substring_In _ _ _ Hsub), in_or_app. right.
        apply in_or_app. right. by left. }
      apply list_elem_of_In, Hnd in Hin. congruence. }
    cbn [extract_fields extract_fields_urdu phones amounts]. auto.
  - intros Hno.
    split; apply nil_if_no_member; intros x Hx;
      apply findall_sound in Hx as [Hm Hsub];
      apply matches_email_generic in Hm as (loc & dom & tld & -> & _);
      apply Hno, (substring_In _ _ _ Hsub), in_or_app; right; by left.
Qed.

Lemma no_digit_no_number_fields_witness :
  phones (extract_fields no_decimals (lit "hello, see you at noon")) = []
  /\ amounts (extract_fields no_decimals (lit "hello, see you at noon")) = []
  /\ emails (extract_fields no_decimals (lit "call 0300 1234567")) = [].
Proof.
  destruct (no_digit_no_number_fields no_decimals
              (lit "hello, see you at noon")) as [Hdigits _].
  destruct (no_digit_no_number_fields no_decimals
              (lit "call 0300 1234567")) as [_ Hat].
  destruct Hdigits as (Hp & Ha & _).
  { apply Forall_forall. intros c Hc. apply list_elem_of_In in Hc.
    vm_compute in Hc.
    repeat (destruct Hc as [<- | Hc]; [reflexivity |]). destruct Hc. }
  destruct Hat as [He _].
  { intros Hc. vm_compute in Hc.
    repeat (destruct Hc as [Hc | Hc]; [discriminate Hc |]). destruct Hc. }
  auto.
Defined.

(** ** Substitution of runs of a class *)

Lemma rep_greedy_star p s :
  rep_greedy p 0 None s Some = Some (drop_class p s).
Proof.
  induction s as [| c s IH]; [reflexivity |].
  cbn [rep_greedy drop_class may_repeat dec_bound Nat.pred].
  destruct (p c); cbn [andb]; [by rewrite IH | reflexivity].
Qed.

Lemma match_plus p c s :
  match_at (Plus p) (c :: s) = if p c then Some (drop_class p s) else None.
Proof.
  unfold match_at, Plus.
  cbn [rmatch rep_greedy may_repeat dec_bound Nat.pred].
  destruct (p c); cbn [andb]; [by rewrite rep_greedy_star | reflexivity].
Qed.

Lemma drop_class_length p s : (length (drop_class p s) <= length s)%nat.
Proof.
  induction s as [| c s IH]; cbn [drop_class length]; [lia |].
  destruct (p c); cbn [length]; lia.
Qed.

Lemma drop_class_In p s c : In c (drop_class p s) -> In c s.
Proof.
  induction s as [| d s IH]; cbn [drop_class]; [auto |].
  destruct (p d); [| auto]. intros H. right. by apply IH.
Qed.

(** After [re.sub] of the runs of [p], every character is one of the
    replacement or a character of the input outside [p]. *)
Lemma sub_plus_chars p repl fuel s :
  (length s < fuel)%nat ->
  Forall (fun c => In c repl \/ (In c s /\ p c = false))
         (sub_from fuel (Plus p) repl s).
Proof.
  revert s. induction fuel as [| fuel IH]; intros s Hlen; [lia |].
  destruct s as [| c s]; [constructor |].
  cbn [sub_from]. rewrite match_plus. cbn [length] in Hlen.
  destruct (p c) eqn:Hc.
  - pose proof (drop_class_length p s) as Hd.
    assert ((length (drop_class p s) <? length (c :: s))%nat = true) as ->
      by (apply Nat.ltb_lt; cbn [length]; lia).
    apply Forall_app. split.
    + apply Forall_forall. intros x Hx. left. by apply list_elem_of_In.
    + eapply Forall_impl; [apply IH; lia |]. cbn beta.
      intros x [Hx | [Hx Hp]]; [by left |].
      right. split; [| exact Hp]. right. by apply drop_class_In in Hx.
  - constructor; [right; split; [by left | exact Hc] |].
    eapply Forall_impl; [apply IH; lia |]. cbn beta.
    intros x [Hx | [Hx Hp]]; [by left |]. right. split; [by right | exact Hp].
Qed.

Lemma lstrip_In s c : In c (lstrip s) -> In c s.
Proof.
  induction s as [| d s IH]; cbn [lstrip]; [auto |].
  destruct (is_space d); [| auto]. intros H. right. by apply IH.
Qed.

Lemma strip_In s c : In c (strip s) -> In c s.
Proof.
  unfold strip, rstrip. intros H.
  apply in_rev, lstrip_In, in_rev in H. by apply lstrip_In.
Qed.

Lemma rstrip_prefix s : exists post, s = rstrip s ++ post.
Proof.
  unfold rstrip. destruct (lstrip_suffix (rev s)) as [pre Hpre].
  exists (rev pre). apply (f_equal (@rev Z)) in Hpre.
  by rewrite rev_involutive, rev_app_distr in Hpre.
Qed.

(** [strip] leaves no whitespace at either end. *)
Lemma strip_ends s :
  no_leading_space (strip s) /\ no_leading_space (rev (strip s)).
Proof.
  unfold strip. split.
  - pose proof (lstrip_no_leading_space s) as Hl.
    destruct (rstrip_prefix (lstrip s)) as [post Hpost].
    destruct (rstrip (lstrip s)) as [| c t]; [exact I |].
    rewrite Hpost in Hl. exact Hl.
  - unfold rstrip. rewrite rev_involutive. apply lstrip_no_leading_space.
Qed.

(** ** The cleaned text of the three pipelines *)

(** X6. Whatever the text, [clean_text] returns ASCII characters only,
    with no whitespace at either end. *)
Theorem clean_text_ascii_stripped E text :
  Forall (fun c => is_ascii c = true) (clean_text E text)
  /\ no_leading_space (clean_text E text)
  /\ no_leading_space (rev (clean_text E text)).
Proof.
  destruct text as [text |]; [| by repeat split].
  cbn [clean_text]. split; [| apply strip_ends].
  apply Forall_forall. intros c Hc.
  apply list_elem_of_In, strip_In in Hc.
  unfold NON_ASCII_RUN_RE, sub in Hc.
  pose proof (sub_plus_chars (outside (fun c => (0 <=? c) && (c <=? 0x7F)))
                SPACE _ (PyRe.sub WS_RUN_RE SPACE (nfkc E text))
                (Nat.lt_succ_diag_r _)) as Hall.
  rewrite Forall_forall in Hall.
  apply list_elem_of_In, Hall in Hc as [Hc | [_ Hc]].
  - destruct Hc as [<- | []]. reflexivity.
  - unfold outside in Hc. by apply negb_false_iff in Hc.
Qed.

(** ** Digit normalization, character by character *)

Lemma arabic_indic_cases c :
  is_arabic_indic_digit c = true ->
  In c [0x660; 0x661; 0x662; 0x663; 0x664; 0x665; 0x666; 0x667; 0x668; 0x669;
        0x6F0; 0x6F1; 0x6F2; 0x6F3; 0x6F4; 0x6F5; 0x6F6; 0x6F7; 0x6F8; 0x6F9].
Proof.
  unfold is_arabic_indic_digit. intros H.
  apply orb_prop in H as [H | H]; apply andb_prop in H as [Hlo Hhi];
    apply Z.leb_le in Hlo, Hhi; cbn [In]; lia.
Qed.

(** The dictionary agrees with the arithmetic on code points. *)
Lemma digits_lookup c :
  ARABIC_INDIC_DIGITS !! c
  = if is_arabic_indic_digit c then Some [digit_to_ascii c] else None.
Proof.
  destruct (is_arabic_indic_digit c) eqn:Hd.
  - apply arabic_indic_cases in Hd. cbn [In] in Hd.
    repeat (destruct Hd as [<- | Hd]; [vm_compute; reflexivity |]).
    destruct Hd.
  - destruct (ARABIC_INDIC_DIGITS !! c) as [r |] eqn:Hl; [| reflexivity].
    unfold ARABIC_INDIC_DIGITS in Hl. apply elem_of_list_to_map_2 in Hl.
    repeat (apply elem_of_cons in Hl as [Hl | Hl];
            [injection Hl as -> ->; vm_compute in Hd; discriminate Hd |]).
    by apply elem_of_nil in Hl.
Qed.

Lemma normalize_digits_map T : normalize_digits T = map digit_to_ascii T.
Proof.
  unfold normalize_digits.
  induction T as [| c T IH]; [reflexivity |].
  rewrite translate_cons, IH, digits_lookup. cbn [map].
  destruct (is_arabic_indic_digit c) eqn:Hd; [reflexivity |].
  cbn [app]. f_equal. unfold digit_to_ascii, is_arabic_indic_digit in *.
  apply orb_false_elim in Hd as [-> ->]. reflexivity.
Qed.

Lemma digit_to_ascii_not_digit c :
  is_arabic_indic_digit (digit_to_ascii c) = false.
Proof.
  destruct (is_arabic_indic_digit c) eqn:Hd.
  - apply arabic_indic_cases in Hd. cbn [In] in Hd.
    repeat (destruct Hd as [<- | Hd]; [reflexivity |]). destruct Hd.
  - unfold digit_to_ascii, is_arabic_indic_digit in *.
    apply orb_false_elim in Hd as [H1 H2]. rewrite H1, H2.
    by rewrite H1, H2.
Qed.

Lemma digit_to_ascii_fixed c :
  is_arabic_indic_digit c = false -> digit_to_ascii c = c.
Proof.
  unfold digit_to_ascii, is_arabic_indic_digit. intros Hd.
  apply orb_false_elim in Hd as [-> ->]. reflexivity.
Qed.

Lemma arabic_indic_not_space c :
  is_arabic_indic_digit c = true -> is_space c = false.
Proof.
  intros Hd. apply arabic_indic_cases in Hd. cbn [In] in Hd.
  repeat (destruct Hd as [<- | Hd]; [reflexivity |]). destruct Hd.
Qed.

Lemma digit_to_ascii_space c : is_space (digit_to_ascii c) = is_space c.
Proof.
  destruct (is_arabic_indic_digit c) eqn:Hd.
  - rewrite (arabic_indic_not_space c Hd).
    apply arabic_indic_cases in Hd. cbn [In] in Hd.
    repeat (destruct Hd as [<- | Hd]; [reflexivity |]). destruct Hd.
  - by rewrite digit_to_ascii_fixed.
Qed.

Lemma normalize_digits_digit_free T :
  Forall (fun c => is_arabic_indic_digit c = false) (normalize_digits T).
Proof.
  rewrite normalize_digits_map. apply Forall_map, Forall_forall.
  intros c _. apply digit_to_ascii_not_digit.
Qed.

Lemma normalize_digits_fixed T :
  Forall (fun c => is_arabic_indic_digit c = false) T ->
  normalize_digits T = T.
Proof.
  rewrite normalize_digits_map. induction 1 as [| c T Hc _ IH];
    [reflexivity |].
  cbn [map]. by rewrite IH, digit_to_ascii_fixed.
Qed.

(** X7. [normalize_digits] works character by character: each of the
    twenty Arabic-Indic and Extended Arabic-Indic digits becomes the ASCII
    digit of the same value and every other character stays.  So the
    length is kept, the result contains none of those digits, and a text
    without them is returned unchanged. *)
Theorem normalize_digits_pointwise T :
  normalize_digits T = map digit_to_ascii T
  /\ length (normalize_digits T) = length T
  /\ Forall (fun c => is_arabic_indic_digit c = false) (normalize_digits T)
  /\ (Forall (fun c => is_arabic_indic_digit c = false) T ->
      normalize_digits T = T).
Proof.
  split; [apply normalize_digits_map |].
  split; [by rewrite normalize_digits_map, length_map |].
  split; [apply normalize_digits_digit_free | apply normalize_digits_fixed].
Qed.

Lemma normalize_digits_pointwise_witness :
  normalize_digits (lit "Rs 500") = lit "Rs 500"
  /\ normalize_digits ([0x661; 0x6F2] ++ lit "x") = lit "12x".
Proof.
  split.
  - destruct (normalize_digits_pointwise (lit "Rs 500")) as (_ & _ & _ & H).
    apply H. vm_compute. repeat constructor.
  - destruct (normalize_digits_pointwise ([0x661; 0x6F2] ++ lit "x"))
      as (H & _).
    rewrite H. reflexivity.
Defined.

(** X8. Whenever [shape_and_bidi] returns, its result contains no
    Arabic-Indic digit, so normalizing the digits again changes nothing;
    it raises exactly when the reshaper or the bidi algorithm raises. *)
Theorem shape_and_bidi_digit_free E urdu_text :
  (forall shaped,
      shape_and_bidi E urdu_text = Some shaped ->
      Forall (fun c => is_arabic_indic_digit c = false) shaped
      /\ normalize_digits shaped = shaped)
  /\ (shape_and_bidi E urdu_text = None <->
      arabic_reshape E urdu_text = None
      \/ exists reshaped, arabic_reshape E urdu_text = Some reshaped
                          /\ bidi_get_display E reshaped = None).
Proof.
  unfold shape_and_bidi. split.
  - intros shaped H.
    destruct (arabic_reshape E urdu_text) as [reshaped |]; [| discriminate].
    destruct (bidi_get_display E reshaped) as [bidi_text |]; [| discriminate].
    injection H as <-. split; [apply normalize_digits_digit_free |].
    apply normalize_digits_fixed, normalize_digits_digit_free.
  - destruct (arabic_reshape E urdu_text) as [reshaped |] eqn:Hr.
    + destruct (bidi_get_display E reshaped) as [bidi_text |] eqn:Hb.
      * split; [discriminate |].
        intros [H | (r & [= <-] & H)]; congruence.
      * split; [| reflexivity]. intros _. right. eauto.
    + split; [| reflexivity]. intros _. by left.
Qed.

Lemma shape_and_bidi_digit_free_witness :
  shape_and_bidi env_urdu URDU_123 = Some (lit "123")
  /\ Forall (fun c => is_arabic_indic_digit c = false) (lit "123")
  /\ normalize_digits (lit "123") = lit "123".
Proof.
  split; [vm_compute; reflexivity |].
  destruct (shape_and_bidi_digit_free env_urdu URDU_123) as [H _].
  apply H. vm_compute. reflexivity.
Defined.

Lemma collapse_whitespace_single_spaced s :
  single_spaced (collapse_whitespace s).
Proof.
  split; [apply collapse_whitespace_collapsed |].
  split; [| apply strip_ends].
  apply Forall_forall. intros c Hc Hsp.
  apply list_elem_of_In, strip_In in Hc.
  pose proof (sub_plus_chars is_space SPACE _ s (Nat.lt_succ_diag_r _))
    as Hall.
  rewrite Forall_forall in Hall.
  apply list_elem_of_In, Hall in Hc as [Hc | [_ Hc]]; [| congruence].
  by destruct Hc as [<- | []].
Qed.

Lemma ws_collapsed_map g s :
  (forall c, is_space (g c) = is_space c) ->
  ws_collapsed (map g s) = ws_collapsed s.
Proof.
  intros Hg. induction s as [| c s IH]; [reflexivity |].
  destruct s as [| d s]; [reflexivity |].
  cbn [map] in *. rewrite !ws_collapsed_step, IH, !Hg. reflexivity.
Qed.

Lemma single_spaced_normalize_digits s :
  single_spaced s -> single_spaced (normalize_digits s).
Proof.
  intros (Hcol & Hblank & Hhead & Htail). rewrite normalize_digits_map.
  split; [by rewrite (ws_collapsed_map _ _ digit_to_ascii_space) |].
  split; [| split].
  - apply Forall_map. eapply Forall_impl; [exact Hblank |]. cbn beta.
    intros c Hc Hsp. rewrite digit_to_ascii_space in Hsp.
    by rewrite (Hc Hsp).
  - destruct s as [| c s]; [exact I |].
    cbn [map no_leading_space] in *. by rewrite digit_to_ascii_space.
  - rewrite <- map_rev. destruct (rev s) as [| c t]; [exact I |].
    cbn [map no_leading_space] in *. by rewrite digit_to_ascii_space.
Qed.

(** X9. The clean text returned by [extract_text_whatsapp_aware], and by
    [extract_text_with_urdu_support] when the detected language is not
    [ur], is single-spaced: no two adjacent whitespace characters, no
    whitespace character other than the blank U+0020, and none at either
    end. *)
Theorem region_clean_text_single_spaced
    E image_input engine pf min_confidence sl st r st' :
  extract_text_whatsapp_aware E image_input engine pf min_confidence sl st
  = (Ok r, st')
  \/ (extract_text_with_urdu_support E image_input min_confidence pf st
      = (Ok r, st')
      /\ res_detected_language r <> Some "ur"%string) ->
  single_spaced (res_clean_text r).
Proof.
  intros [H | [H Hlang]].
  - apply whatsapp_ok_inv in H as (img & rd & regions & _ & _ & _ & ->).
    apply collapse_whitespace_single_spaced.
  - apply urdu_ok_inv in H
      as (img & rd & st1 & reader & regions & lang & clean & lines
          & _ & _ & _ & _ & -> & [[-> _] | (-> & _)]);
      cbn [res_clean_text res_detected_language] in *; [| congruence].
    apply single_spaced_normalize_digits, collapse_whitespace_single_spaced.
Qed.

Lemma region_clean_text_single_spaced_witness :
  (exists r st',
      extract_text_whatsapp_aware env_unsorted (InArray img_1x1) "easyocr"
        None DEFAULT_MIN_CONFIDENCE None st0 = (Ok r, st')
      /\ res_clean_text r = lit "a b c"
      /\ single_spaced (res_clean_text r))
  /\ (exists r st',
         extract_text_with_urdu_support env_unsorted (InArray img_1x1)
           DEFAULT_MIN_CONFIDENCE None st0 = (Ok r, st')
         /\ res_clean_text r = lit "c b a"
         /\ single_spaced (res_clean_text r)).
Proof.
  split.
  - eexists _, _. split; [vm_compute; reflexivity |].
    split; [reflexivity |].
    eapply (region_clean_text_single_spaced env_unsorted (InArray img_1x1)
              "easyocr" None DEFAULT_MIN_CONFIDENCE None st0).
    left. vm_compute. reflexivity.
  - eexists _, _. split; [vm_compute; reflexivity |].
    split; [reflexivity |].
    eapply (region_clean_text_single_spaced env_unsorted (InArray img_1x1)
              "easyocr" None DEFAULT_MIN_CONFIDENCE None st0).
    right. split; [vm_compute; reflexivity | discriminate].
Defined.

(** X10. The clean text returned by [extract_text_with_urdu_support]
    never contains an Arabic-Indic or Extended Arabic-Indic digit,
    whatever language was detected and whether or not shaping worked. *)
Theorem urdu_clean_text_digit_free E image_input min_confidence pf st r st' :
  extract_text_with_urdu_support E image_input min_confidence pf st
  = (Ok r, st') ->
  Forall (fun c => is_arabic_indic_digit c = false) (res_clean_text r).
Proof.
  intros H.
  apply urdu_ok_inv in H
    as (img & rd & st1 & reader & regions & lang & clean & lines
        & _ & _ & _ & _ & -> & _).
  apply normalize_digits_digit_free.
Qed.

Lemma urdu_clean_text_digit_free_witness :
  exists r st',
    extract_text_with_urdu_support env_urdu (InArray img_1x1)
      DEFAULT_MIN_CONFIDENCE None st0 = (Ok r, st')
    /\ res_raw_text r = URDU_123
    /\ Forall (fun c => is_arabic_indic_digit c = false) (res_clean_text r).
Proof.
  eexists _, _. split; [vm_compute; reflexivity |].
  split; [reflexivity |].
  eapply (urdu_clean_text_digit_free env_urdu (InArray img_1x1)
            DEFAULT_MIN_CONFIDENCE None st0).
  vm_compute. reflexivity.
Defined.

(** ** The confidence filter keeps what it should, in order *)

(** X11. [confidence_filter] answers, item by item and in the order of
    the recognizer, the span of each recognized item whose confidence is
    at or above the threshold, an item without confidence counting as 0.0,
    and nothing for any other item: its result is the list of passing
    items, each turned into its span.  Hence every passing item is kept,
    every kept span comes from a passing item, and the kept texts are a
    sublist of the recognized texts. *)
Theorem confidence_filter_complete min_confidence res :
  confidence_filter min_confidence res
  = map kept_span (List.filter (passes min_confidence) res)
  /\ (forall r, In r res -> passes min_confidence r = true ->
                In (kept_span r) (confidence_filter min_confidence res))
  /\ (forall s, In s (confidence_filter min_confidence res) ->
                exists r, In r res /\ passes min_confidence r = true
                          /\ s = kept_span r)
  /\ map text (confidence_filter min_confidence res)
       `sublist_of` map raw_text_of res.
Proof.
  induction res as [| [[b txt] c] res (IHeq & IHin & IHout & IHsub)].
  - split; [reflexivity |]. split; [intros r [] |].
    split; [intros s [] |]. constructor.
  - cbn [confidence_filter List.filter passes].
    change (match c with Some v => v | None => 0%float end)
      with (match c with Some v => v | None => ZERO_CONF end).
    destruct (PrimFloat.leb min_confidence
                (match c with Some v => v | None => ZERO_CONF end)) eqn:Hle.
    + split; [| split; [| split]].
      * cbn [map kept_span]. by rewrite IHeq.
      * intros r [<- | Hr] Hp; [by left | right; by apply IHin].
      * intros s [<- | Hs].
        -- exists (b, txt, c). split; [by left |]. by split.
        -- destruct (IHout s Hs) as (r & Hr & Hp & ->).
           exists r. split; [by right | by split].
      * cbn [map raw_text_of]. by constructor.
    + split; [| split; [| split]].
      * exact IHeq.
      * intros r [<- | Hr] Hp; [cbn [passes] in Hp; congruence |].
        by apply IHin.
      * intros s Hs. destruct (IHout s Hs) as (r & Hr & Hp & ->).
        exists r. split; [by right | by split].
      * cbn [map raw_text_of]. by constructor.
Qed.

Lemma confidence_filter_complete_witness :
  confidence_filter DEFAULT_MIN_CONFIDENCE
    [ ([(50, 10)], lit "b", Some HIGH); ([(5, 10)], lit "b", Some LOW);
      ([(1, 1)], lit "b", Some HIGH); ([(7, 3)], lit "n", None) ]
  = [ {| bbox := Some [(50, 10)]; text := lit "b"; conf := Some HIGH |};
      {| bbox := Some [(1, 1)]; text := lit "b"; conf := Some HIGH |} ]
  /\ In {| bbox := Some [(5, 10)]; text := lit "b"; conf := Some HIGH |}
        (confidence_filter DEFAULT_MIN_CONFIDENCE
           [ ([(50, 10)], lit "c", Some HIGH);
             ([(5, 10)], lit "b", Some HIGH);
             ([(1, 1)], lit "zz", Some LOW); ([(7, 3)], lit "n", None) ])
  /\ In {| bbox := Some [(7, 3)]; text := lit "n"; conf := Some ZERO_CONF |}
        (confidence_filter ZERO_CONF
           [ ([(1, 1)], lit "zz", Some LOW); ([(7, 3)], lit "n", None) ]).
Proof.
  split; [| split].
  - destruct (confidence_filter_complete DEFAULT_MIN_CONFIDENCE
                [ ([(50, 10)], lit "b", Some HIGH);
                  ([(5, 10)], lit "b", Some LOW);
                  ([(1, 1)], lit "b", Some HIGH); ([(7, 3)], lit "n", None) ])
      as [-> _].
    vm_compute. reflexivity.
  - destruct (confidence_filter_complete DEFAULT_MIN_CONFIDENCE
                [ ([(50, 10)], lit "c", Some HIGH);
                  ([(5, 10)], lit "b", Some HIGH);
                  ([(1, 1)], lit "zz", Some LOW); ([(7, 3)], lit "n", None) ])
      as (_ & Hkeep & _).
    apply (Hkeep ([(5, 10)], lit "b", Some HIGH)); [| reflexivity].
    right. by left.
  - destruct (confidence_filter_complete ZERO_CONF
                [ ([(1, 1)], lit "zz", Some LOW); ([(7, 3)], lit "n", None) ])
      as (_ & Hkeep & _).
    apply (Hkeep ([(7, 3)], lit "n", None)); [| reflexivity].
    right. by left.
Defined.

(** ** The order of the spans of a region *)

Section SortedFacts.
Context {A K : Type} (leb : K -> K -> bool) (key : A -> K).
Hypothesis leb_total : forall a b, leb a b = true \/ leb b a = true.
Hypothesis leb_trans :
  forall a b c, leb a b = true -> leb b c = true -> leb a c = true.

Let le (x y : A) : Prop := leb (key x) (key y) = true.

Lemma insert_sorted_ordered x l :
  ordered le l -> ordered le (insert_sorted leb key x l).
Proof.
  induction l as [| y l IH]; cbn [insert_sorted ordered].
  - intros _. split; [constructor | exact I].
  - intros [Hy Hl]. destruct (leb (key x) (key y)) eqn:Hxy.
    + cbn [ordered]. split; [| by split].
      constructor; [exact Hxy |].
      eapply Forall_impl; [exact Hy |]. intros z Hz. unfold le in *.
      by eapply leb_trans.
    + cbn [ordered]. split; [| by apply IH].
      rewrite insert_sorted_perm. constructor; [| exact Hy].
      unfold le. destruct (leb_total (key x) (key y)); congruence.
Qed.

Lemma sorted_by_ordered l : ordered le (sorted_by leb key l).
Proof.
  induction l as [| x l IH]; [exact I |].
  unfold sorted_by in *. cbn [fold_right]. by apply insert_sorted_ordered.
Qed.
End SortedFacts.

Lemma key_leb_total a b : key_leb a b = true \/ key_leb b a = true.
Proof.
  unfold key_leb. destruct a as [a1 a2], b as [b1 b2]. cbn [fst snd].
  destruct (Z.ltb_spec a1 b1); [by left |].
  destruct (Z.ltb_spec b1 a1); [by right |].
  assert (a1 = b1) as -> by lia. rewrite Z.eqb_refl. cbn [orb andb].
  destruct (Z.leb_spec a2 b2); [by left |]. right. apply Z.leb_le. lia.
Qed.

Lemma key_leb_trans a b c :
  key_leb a b = true -> key_leb b c = true -> key_leb a c = true.
Proof.
  unfold key_leb. destruct a as [a1 a2], b as [b1 b2], c as [c1 c2].
  cbn [fst snd]. intros H1 H2.
  apply orb_prop in H1 as [H1 | H1]; apply orb_prop in H2 as [H2 | H2];
    try apply andb_prop in H1 as [H1 H1']; try apply andb_prop in H2 as [H2 H2'];
    try apply Z.ltb_lt in H1; try apply Z.ltb_lt in H2;
    try apply Z.eqb_eq in H1; try apply Z.eqb_eq in H2;
    try apply Z.leb_le in H1'; try apply Z.leb_le in H2'.
  - apply orb_true_intro. left. apply Z.ltb_lt. lia.
  - apply orb_true_intro. left. apply Z.ltb_lt. lia.
  - apply orb_true_intro. left. apply Z.ltb_lt. lia.
  - apply orb_true_intro. right. apply andb_true_intro.
    split; [apply Z.eqb_eq | apply Z.leb_le]; lia.
Qed.

Lemma with_keys_key l ks :
  with_keys l = Some ks -> Forall (fun p => sort_key p.2 = Some p.1) ks.
Proof.
  revert ks. induction l as [| s l IH]; intros ks H; cbn [with_keys] in H.
  - injection H as <-. constructor.
  - destruct (sort_key s) as [k |] eqn:Hk; [| discriminate].
    destruct (with_keys l) as [ks' |]; [| discriminate].
    injection H as <-. constructor; [exact Hk | by apply IH].
Qed.

Lemma with_keys_none l :
  with_keys l = None <-> exists s, In s l /\ sort_key s = None.
Proof.
  induction l as [| s l IH]; cbn [with_keys].
  - split; [discriminate | intros (s & [] & _)].
  - destruct (sort_key s) as [k |] eqn:Hk.
    + destruct (with_keys l) as [ks |].
      * split; [discriminate |].
        intros (s' & [<- | Hin] & Hn); [congruence |].
        assert (@None (list (Z * Z * span)) = None) as Hnone by reflexivity.
        destruct IH as [_ IH].
        assert (Some ks = None) as Habs by (apply IH; eauto).
        discriminate Habs.
      * split; [| reflexivity]. intros _.
        destruct IH as [IH _]. destruct (IH eq_refl) as (s' & Hin & Hn).
        exists s'. split; [by right | exact Hn].
    + split; [| reflexivity]. intros _. exists s. split; [by left | exact Hk].
Qed.

Lemma ordered_map_snd (ks : list (Z * Z * span)) :
  Forall (fun p => sort_key p.2 = Some p.1) ks ->
  ordered (fun x y => key_leb x.1 y.1 = true) ks ->
  ordered reads_before (map snd ks).
Proof.
  induction ks as [| [k s] ks IH]; intros Hkeys Hord; [exact I |].
  cbn [map ordered] in *. destruct Hord as [Hhd Hord].
  inversion Hkeys as [| p l Hk Hks]; subst. cbn [fst snd] in *.
  split; [| by apply IH].
  apply Forall_map. rewrite Forall_forall in Hhd, Hks |- *.
  intros [k' s'] Hin. cbn [snd]. exists k, k'.
  split; [exact Hk |]. split; [exact (Hks _ Hin) | exact (Hhd _ Hin)].
Qed.

Lemma sorted_spans_reads_in_order filtered fs :
  sorted_spans filtered = Some fs -> ordered reads_before fs.
Proof.
  unfold sorted_spans. intros H.
  destruct (with_keys filtered) as [ks |] eqn:Hk; [| discriminate].
  injection H as <-. apply ordered_map_snd.
  - rewrite sorted_by_perm. by eapply with_keys_key.
  - apply (sorted_by_ordered key_leb fst key_leb_total key_leb_trans).
Qed.

Lemma sorted_spans_none filtered :
  sorted_spans filtered = None <->
  exists s, In s filtered /\ sort_key s = None.
Proof.
  unfold sorted_spans. rewrite <- with_keys_none.
  destruct (with_keys filtered); split; congruence.
Qed.

(** X12. When the sort of the WhatsApp pipeline returns, its result is a
    rearrangement of the kept spans in which every span reads before all
    later ones (by top edge, then left edge of its first corner); the sort
    raises exactly when some kept span has an empty box. *)
Theorem sorted_spans_ordered filtered :
  (forall fs, sorted_spans filtered = Some fs ->
              fs ≡ₚ filtered /\ ordered reads_before fs)
  /\ (sorted_spans filtered = None <->
      exists s, In s filtered /\ sort_key s = None).
Proof.
  split; [| apply sorted_spans_none].
  intros fs H. split; [by apply sorted_spans_perm |].
  by eapply sorted_spans_reads_in_order.
Qed.

Lemma sorted_spans_ordered_witness :
  let a := {| bbox := Some [(0, 0)]; text := lit "a"; conf := Some HIGH |} in
  let b := {| bbox := Some [(5, 10)]; text := lit "b"; conf := Some HIGH |} in
  let c := {| bbox := Some [(50, 10)]; text := lit "c"; conf := Some HIGH |} in
  sorted_spans [c; b; a] = Some [a; b; c]
  /\ [a; b; c] ≡ₚ [c; b; a]
  /\ ordered reads_before [a; b; c].
Proof.
  intros a b c. split; [vm_compute; reflexivity |].
  destruct (sorted_spans_ordered [c; b; a]) as [H _].
  apply H. vm_compute. reflexivity.
Defined.

(** ** The raw text is the lines, joined *)

Lemma join_app sep (l1 l2 : list pystr) :
  l1 <> [] -> l2 <> [] ->
  join sep (l1 ++ l2) = join sep l1 ++ sep ++ join sep l2.
Proof.
  intros H1 H2. induction l1 as [| a l1 IH]; [congruence |].
  destruct l1 as [| b l1].
  - cbn [app join]. destruct l2; [congruence | reflexivity].
  - change ((a :: b :: l1) ++ l2) with (a :: (b :: l1) ++ l2).
    change (join sep (a :: (b :: l1) ++ l2))
      with (a ++ sep ++ join sep ((b :: l1) ++ l2)).
    rewrite IH by discriminate.
    change (join sep (a :: b :: l1)) with (a ++ sep ++ join sep (b :: l1)).
    by rewrite <- !app_assoc.
Qed.

Lemma read_region_output_ok E reader detail reg :
  (forall ls ts, detail reg = Some (ls, ts) -> region_output_ok (ls, ts)) ->
  region_output_ok (read_region E reader detail reg).
Proof.
  intros Hd. unfold read_region.
  destruct (detail reg) as [[ls ts] |] eqn:He; [by apply Hd |].
  unfold fallback_pass.
  destruct (call_readtext_plain E reader reg) as [[| w ws] |];
    [by left | | by left].
  right. cbn [fst snd map]. split; [discriminate | reflexivity].
Qed.

Lemma detail_pass_whatsapp_output_ok E reader theta reg ls ts :
  detail_pass_whatsapp E reader theta reg = Some (ls, ts) ->
  region_output_ok (ls, ts).
Proof.
  unfold detail_pass_whatsapp.
  destruct (call_readtext_detail E reader reg) as [res |]; [| discriminate].
  destruct (confidence_filter theta res) as [| s f] eqn:Hf.
  - intros [= <- <-]. by left.
  - destruct (sorted_spans (s :: f)) as [fs |] eqn:Hs; [| discriminate].
    intros [= <- <-]. right. cbn [fst snd]. split; [| reflexivity].
    intros ->. apply sorted_spans_perm in Hs.
    by apply Permutation_nil_cons in Hs.
Qed.

Lemma detail_pass_urdu_output_ok E reader theta reg ls ts :
  detail_pass_urdu E reader theta reg = Some (ls, ts) ->
  region_output_ok (ls, ts).
Proof.
  unfold detail_pass_urdu.
  destruct (call_readtext_detail E reader reg) as [res |]; [| discriminate].
  destruct (confidence_filter theta res) as [| s f] eqn:Hf.
  - intros [= <- <-]. by left.
  - intros [= <- <-]. right. cbn [fst snd]. split; [discriminate | reflexivity].
Qed.

Lemma read_regions_joined step regions :
  (forall reg, region_output_ok (step reg)) ->
  let out := read_regions step regions in
  join SPACE out.2 = join SPACE (map text out.1)
  /\ (out.2 = [] <-> out.1 = []).
Proof.
  intros Hstep. unfold read_regions.
  assert (Hgen : forall acc : list span * list pystr,
             join SPACE acc.2 = join SPACE (map text acc.1)
             /\ (acc.2 = [] <-> acc.1 = []) ->
             let out :=
               fold_left
                 (fun acc reg => let r := step reg in
                                 (acc.1 ++ r.1, acc.2 ++ r.2))
                 regions acc in
             join SPACE out.2 = join SPACE (map text out.1)
             /\ (out.2 = [] <-> out.1 = [])).
  { induction regions as [| reg regions IH]; intros acc Hacc;
      cbn [fold_left]; [exact Hacc |].
    apply IH. cbn zeta. cbn [fst snd].
    destruct Hacc as [Hjoin Hnil].
    destruct (Hstep reg) as [-> | [Hne Hts]].
    - cbn [fst snd]. by rewrite !app_nil_r.
    - rewrite Hts. split.
      + destruct acc as [lines assembled]. cbn [fst snd] in *.
        destruct lines as [| l lines].
        * destruct Hnil as [_ Hnil]. rewrite (Hnil eq_refl).
          reflexivity.
        * assert (assembled <> []) as Ha.
          { intros Ha. apply Hnil in Ha. discriminate Ha. }
          rewrite map_app.
          rewrite (join_app SPACE assembled) by (assumption || discriminate).
          rewrite (join_app SPACE (map text (l :: lines))).
          -- rewrite Hjoin. reflexivity.
          -- discriminate.
          -- intros Hm. apply map_eq_nil in Hm. contradiction.
      + split; intros Happ; apply app_eq_nil in Happ as [_ Happ];
          [discriminate | contradiction]. }
  apply Hgen. by split.
Qed.

(** X13. In a result of [extract_text_whatsapp_aware], and of
    [extract_text_with_urdu_support] when the detected language is not
    [ur], [raw_text] is exactly the texts of [lines] joined by single
    blanks, in the order of [lines]. *)
Theorem raw_text_is_joined_lines
    E image_input engine pf min_confidence sl st r st' :
  extract_text_whatsapp_aware E image_input engine pf min_confidence sl st
  = (Ok r, st')
  \/ (extract_text_with_urdu_support E image_input min_confidence pf st
      = (Ok r, st')
      /\ res_detected_language r <> Some "ur"%string) ->
  res_raw_text r = join SPACE (map text (res_lines r)).
Proof.
  intros [H | [H Hlang]].
  - apply whatsapp_ok_inv in H as (img & rd & regions & _ & _ & _ & ->).
    cbn [res_raw_text res_lines].
    apply read_regions_joined. intros reg. apply read_region_output_ok.
    intros ls ts. apply detail_pass_whatsapp_output_ok.
  - apply urdu_ok_inv in H
      as (img & rd & st1 & reader & regions & lang & clean & lines
          & _ & _ & _ & _ & -> & [[_ ->] | (-> & _)]);
      cbn [res_raw_text res_lines res_detected_language] in *;
      [| congruence].
    apply read_regions_joined. intros reg. apply read_region_output_ok.
    intros ls ts. apply detail_pass_urdu_output_ok.
Qed.

Lemma raw_text_is_joined_lines_witness :
  (exists r st',
      extract_text_whatsapp_aware env_page (InArray img_40x60) "easyocr"
        None DEFAULT_MIN_CONFIDENCE None st0 = (Ok r, st')
      /\ length (res_lines r) = 2%nat
      /\ res_raw_text r = join SPACE (map text (res_lines r)))
  /\ (exists r st',
         extract_text_with_urdu_support env_retry (InArray img_1x1)
           DEFAULT_MIN_CONFIDENCE None st0 = (Ok r, st')
         /\ res_raw_text r = lit "hi"
         /\ res_raw_text r = join SPACE (map text (res_lines r))).
Proof.
  split.
  - eexists _, _. split; [vm_compute; reflexivity |].
    split; [reflexivity |].
    eapply (raw_text_is_joined_lines env_page (InArray img_40x60) "easyocr"
              None DEFAULT_MIN_CONFIDENCE None st0).
    left. vm_compute. reflexivity.
  - eexists _, _. split; [vm_compute; reflexivity |].
    split; [reflexivity |].
    eapply (raw_text_is_joined_lines env_retry (InArray img_1x1) "easyocr"
              None DEFAULT_MIN_CONFIDENCE None st0).
    right. split; [vm_compute; reflexivity | discriminate].
Defined.

(** ** The recognizer cache across calls *)

Lemma build_reader_post E langs gpu st o st' :
  build_reader E langs gpu st = (o, st') ->
  match o with
  | Ok _ => exists ll, easyocr_Reader E langs gpu = Some ll
                       /\ st' = installed st (fresh_reader st ll gpu)
  | Raise _ => st' = st
  end.
Proof.
  unfold build_reader. destruct (easyocr_Reader E langs gpu) as [ll |].
  - intros [= <- <-]. by exists ll.
  - by intros [= <- <-].
Qed.

(** X14. After any call of [get_reader]: a returned recognizer is the one
    now cached; a call that returns [None] or raises leaves the state as
    it was; and a call constructs at most one recognizer, the cache
    changing only when one was constructed. *)
Theorem get_reader_post E langs gpu st o st' :
  get_reader E langs gpu st = (o, st') ->
  match o with
  | Ok (Some r) => _OCR_READER st' = Some r
  | Ok None => st' = st
  | Raise _ => st' = st
  end
  /\ (st' = st \/ (created st' = S (created st)
                   /\ exists ll, _OCR_READER st'
                                 = Some (fresh_reader st ll gpu))).
Proof.
  unfold get_reader. destruct (easyocr_present E); cbn [negb];
    [| intros [= <- <-]; auto].
  unfold bind, try_except. fold (requested langs).
  set (first := match _OCR_READER st with
                | Some r =>
                    if missing_langs (requested langs) r
                    then build_reader E (requested langs) gpu st
                    else (Ok (), st)
                | None => build_reader E (requested langs) gpu st
                end).
  assert (Hfirst : first = (Ok (), st)
                   \/ first = build_reader E (requested langs) gpu st).
  { subst first. destruct (_OCR_READER st) as [r |]; [| by right].
    destruct (missing_langs (requested langs) r); auto. }
  assert (Hbuilt : forall l o1 st1,
             build_reader E l gpu st = (o1, st1) ->
             match o1 with
             | Ok _ => created st1 = S (created st)
                       /\ exists ll, _OCR_READER st1
                                     = Some (fresh_reader st ll gpu)
             | Raise _ => st1 = st
             end).
  { intros l o1 st1 Hb. apply build_reader_post in Hb.
    destruct o1 as [u | e]; [| exact Hb].
    destruct Hb as (ll & _ & ->). split; [reflexivity | by exists ll]. }
  destruct Hfirst as [Hf | Hf]; rewrite Hf.
  - intros [= <- <-]. split; [| by left].
    destruct (_OCR_READER st); reflexivity.
  - destruct (build_reader E (requested langs) gpu st) as [[u | e] st1] eqn:Hb.
    + intros [= <- <-]. apply Hbuilt in Hb as [Hc (ll & Hr)].
      rewrite Hr. split; [reflexivity |]. right. split; [exact Hc |]. eauto.
    + apply Hbuilt in Hb as ->.
      destruct (build_reader E DEFAULT_LANGS gpu st) as [[u | e'] st2] eqn:Hb2.
      * intros [= <- <-]. apply Hbuilt in Hb2 as [Hc (ll & Hr)].
        rewrite Hr. split; [reflexivity |]. right. split; [exact Hc |]. eauto.
      * intros [= <- <-]. apply Hbuilt in Hb2 as ->. auto.
Qed.

Lemma get_reader_post_witness :
  _OCR_READER st_en = Some reader_en
  /\ (st_en = st0
      \/ (created st_en = S (created st0)
          /\ exists ll, _OCR_READER st_en = Some (fresh_reader st0 ll false))).
Proof.
  exact (get_reader_post env_hello None false st0 (Ok (Some reader_en)) st_en
           eq_refl).
Defined.

(** A returned recognizer is the cached one. *)
Lemma get_reader_cached E langs gpu st r st' :
  get_reader E langs gpu st = (Ok (Some r), st') -> _OCR_READER st' = Some r.
Proof.
  unfold get_reader. destruct (easyocr_present E); cbn [negb];
    [| discriminate].
  unfold bind, try_except, build_reader. fold (requested langs).
  destruct (_OCR_READER st) as [r0 |] eqn:Hr.
  - destruct (missing_langs (requested langs) r0).
    + destruct (easyocr_Reader E (requested langs) gpu);
        [by intros [= <- <-] |].
      destruct (easyocr_Reader E DEFAULT_LANGS gpu);
        [by intros [= <- <-] | discriminate].
    + by intros [= <- <-].
  - destruct (easyocr_Reader E (requested langs) gpu);
      [by intros [= <- <-] |].
    destruct (easyocr_Reader E DEFAULT_LANGS gpu);
      [by intros [= <- <-] | discriminate].
Qed.

Lemma get_reader_present E langs gpu st r st' :
  get_reader E langs gpu st = (Ok (Some r), st') -> easyocr_present E = true.
Proof. intros H. exact (get_reader_outcome _ _ _ _ _ _ H). Qed.

Lemma get_reader_then_reuse_aux E langs gpu st r st' langs' gpu' :
  get_reader E langs gpu st = (Ok (Some r), st') ->
  (forall l, In l (requested langs') -> In l (lang_list r)) ->
  get_reader E langs' gpu' st' = (Ok (Some r), st').
Proof.
  intros H Hsub. apply get_reader_reuse; [| | exact Hsub].
  - by eapply get_reader_present.
  - by eapply get_reader_cached.
Qed.

(** X15. Once [get_reader] has returned a recognizer, every later call
    that asks only for languages in that recognizer's [lang_list] returns
    the same recognizer and changes nothing, whatever [gpu] flag it
    passes. *)
Theorem get_reader_then_reuse E langs gpu st r st' langs' gpu' :
  get_reader E langs gpu st = (Ok (Some r), st') ->
  (forall l, In l (requested langs') -> In l (lang_list r)) ->
  get_reader E langs' gpu' st' = (Ok (Some r), st').
Proof. apply get_reader_then_reuse_aux. Qed.

Lemma get_reader_then_reuse_witness :
  get_reader env_hello (Some ["en"; "ur"]%string) false st0
  = (Ok (Some {| reader_id := 0; lang_list := ["en"; "ur"]%string;
                 reader_gpu := false |}),
     {| _OCR_READER :=
          Some {| reader_id := 0; lang_list := ["en"; "ur"]%string;
                  reader_gpu := false |};
        created := 1 |})
  /\ get_reader env_hello (Some ["ur"%string]) true
       {| _OCR_READER :=
            Some {| reader_id := 0; lang_list := ["en"; "ur"]%string;
                    reader_gpu := false |};
          created := 1 |}
     = (Ok (Some {| reader_id := 0; lang_list := ["en"; "ur"]%string;
                    reader_gpu := false |}),
        {| _OCR_READER :=
             Some {| reader_id := 0; lang_list := ["en"; "ur"]%string;
                     reader_gpu := false |};
           created := 1 |}).
Proof.
  split; [vm_compute; reflexivity |].
  apply (get_reader_then_reuse env_hello (Some ["en"; "ur"]%string) false st0
           _ _ (Some ["ur"%string]) true); [vm_compute; reflexivity |].
  intros l [<- | []]. cbn. auto.
Defined.

(** ** Running a pipeline again *)

Lemma get_reader_default_english E st rd st1 :
  default_reader_reads_english E ->
  get_reader E None false st = (Ok (Some rd), st1) ->
  forall l, In l (requested None) -> In l (lang_list rd).
Proof.
  intros Hctor H l [<- | []].
  unfold get_reader in H. destruct (easyocr_present E); cbn [negb] in H;
    [| discriminate].
  unfold bind, try_except, build_reader in H.
  destruct (_OCR_READER st) as [r0 |] eqn:Hr.
  - destruct (missing_langs DEFAULT_LANGS r0) eqn:Hm.
    + destruct (easyocr_Reader E DEFAULT_LANGS false) as [ll |] eqn:Hc;
        [| discriminate].
      injection H as <- <-. cbn [lang_list]. by apply Hctor.
    + injection H as Hrd <-. rewrite Hr in Hrd. injection Hrd as <-.
      apply (proj1 (missing_langs_false DEFAULT_LANGS r0) Hm). by left.
  - destruct (easyocr_Reader E DEFAULT_LANGS false) as [ll |] eqn:Hc;
      [| discriminate].
    injection H as <- <-. cbn [lang_list]. by apply Hctor.
Qed.

(** The result of a run depends on the state only through what the calls
    of [get_reader] answer. *)
Lemma whatsapp_same_reader E image_input engine pf theta sl st sa rd st' sa' r :
  get_reader E None false st = (Ok (Some rd), st') ->
  get_reader E None false sa = (Ok (Some rd), sa') ->
  extract_text_whatsapp_aware E image_input engine pf theta sl st
  = (Ok r, st') ->
  extract_text_whatsapp_aware E image_input engine pf theta sl sa
  = (Ok r, sa').
Proof.
  intros Hst Hsa. unfold extract_text_whatsapp_aware, bind, lift.
  destruct (load_image_whatsapp E image_input) as [img | e]; [| discriminate].
  rewrite Hst, Hsa.
  destruct (detect_text_regions E _ _ _) as [regions | e]; [| discriminate].
  destruct (read_regions _ _). unfold ret. by intros [= <-].
Qed.

Lemma urdu_same_reader E image_input theta pf st sa rd st1 sa1 reader st' sa' r :
  get_reader E None false st = (Ok (Some rd), st1) ->
  get_reader E None false sa = (Ok (Some rd), sa1) ->
  try_except (get_reader E None false) (get_reader E None false) st1
  = (Ok reader, st') ->
  try_except (get_reader E None false) (get_reader E None false) sa1
  = (Ok reader, sa') ->
  extract_text_with_urdu_support E image_input theta pf st = (Ok r, st') ->
  extract_text_with_urdu_support E image_input theta pf sa = (Ok r, sa').
Proof.
  intros Hst Hsa Hst1 Hsa1. unfold extract_text_with_urdu_support, bind, lift.
  destruct (load_image_urdu E image_input) as [img | e]; [| discriminate].
  rewrite Hst, Hsa, Hst1, Hsa1.
  destruct (detect_text_regions E _ _ _) as [regions | e]; [| discriminate].
  destruct (read_regions _ _).
  destruct (String.eqb _ _); [destruct (shape_and_bidi _ _) |];
    unfold ret; by intros [= <-].
Qed.

(** X16. If the constructor called for the default languages loads
    English, a region pipeline that returned can be run again from the
    state it left: it returns the same result, constructs no recognizer
    and leaves that state unchanged. *)
Theorem pipeline_rerun_stable
    E image_input engine pf min_confidence sl st r st' :
  default_reader_reads_english E ->
  (extract_text_whatsapp_aware E image_input engine pf min_confidence sl st
   = (Ok r, st') ->
   extract_text_whatsapp_aware E image_input engine pf min_confidence sl st'
   = (Ok r, st'))
  /\ (extract_text_with_urdu_support E image_input min_confidence pf st
      = (Ok r, st') ->
      extract_text_with_urdu_support E image_input min_confidence pf st'
      = (Ok r, st')).
Proof.
  intros Hctor. split; intros H.
  - pose proof H as Hinv.
    apply whatsapp_ok_inv in Hinv as (img & rd & regions & _ & Hg & _).
    assert (Hre : get_reader E None false st' = (Ok (Some rd), st')).
    { eapply get_reader_then_reuse_aux; [exact Hg |].
      by eapply get_reader_default_english. }
    exact (whatsapp_same_reader E image_input engine pf min_confidence sl
             st st' rd st' st' r Hg Hre H).
  - pose proof H as Hinv.
    apply urdu_ok_inv in Hinv
      as (img & rd & st1 & reader & regions & lang & clean & lines
          & _ & Hg & Hg2 & _).
    assert (Hre : get_reader E None false st1 = (Ok (Some rd), st1)).
    { eapply get_reader_then_reuse_aux; [exact Hg |].
      by eapply get_reader_default_english. }
    unfold try_except in Hg2. rewrite Hre in Hg2. injection Hg2 as <- <-.
    assert (Htry : try_except (get_reader E None false)
                     (get_reader E None false) st1 = (Ok (Some rd), st1))
      by (unfold try_except; by rewrite Hre).
    exact (urdu_same_reader E image_input min_confidence pf st st1 rd st1 st1
             (Some rd) st1 st1 r Hg Hre Htry Htry H).
Qed.

Lemma pipeline_rerun_stable_witness :
  (exists r,
      extract_text_whatsapp_aware env_unsorted (InArray img_1x1) "easyocr"
        None DEFAULT_MIN_CONFIDENCE None st0 = (Ok r, st_en)
      /\ extract_text_whatsapp_aware env_unsorted (InArray img_1x1) "easyocr"
           None DEFAULT_MIN_CONFIDENCE None st_en = (Ok r, st_en))
  /\ (exists r,
         extract_text_with_urdu_support env_urdu (InArray img_1x1)
           DEFAULT_MIN_CONFIDENCE None st0 = (Ok r, st_en)
         /\ extract_text_with_urdu_support env_urdu (InArray img_1x1)
              DEFAULT_MIN_CONFIDENCE None st_en = (Ok r, st_en)).
Proof.
  assert (Hen : forall E, easyocr_Reader E = known_langs_only ->
                          default_reader_reads_english E).
  { intros E HE ll. rewrite HE. intros [= <-]. by left. }
  split.
  - eexists. split; [vm_compute; reflexivity |].
    apply (pipeline_rerun_stable env_unsorted (InArray img_1x1) "easyocr"
             None DEFAULT_MIN_CONFIDENCE None st0 _ st_en
             (Hen env_unsorted eq_refl)).
    vm_compute. reflexivity.
  - eexists. split; [vm_compute; reflexivity |].
    apply (pipeline_rerun_stable env_urdu (InArray img_1x1) "easyocr"
             None DEFAULT_MIN_CONFIDENCE None st0 _ st_en
             (Hen env_urdu eq_refl)).
    vm_compute. reflexivity.
Defined.

(** ** The preprocessing hook and the whole-image pass *)

Lemma apply_preprocess_func_without_cv2 E pf img :
  cv2_present E = false ->
  apply_preprocess_func E pf img
  = match pf with
    | Some f => left_behind f img
    | None => img
    end.
Proof.
  intros Hcv. unfold apply_preprocess_func, left_behind.
  destruct pf as [f |]; [| reflexivity].
  destruct (f img) as [[proc | e] img']; cbn [snd]; [| reflexivity].
  by rewrite Hcv.
Qed.

(** X17. Without OpenCV the region pipelines never use what the
    preprocessing hook answers, nor whether it raises, because the
    [import cv2] inside the guarded block fails: they go on with the
    loaded array as the hook leaves it.  So two hooks that leave the same
    array behind give the same outcome, and a hook that does not change
    its argument gives the outcome of no hook at all. *)
Theorem hook_answer_unused_without_cv2
    E image_input engine f g min_confidence sl st :
  cv2_present E = false ->
  ((forall img, left_behind f img = left_behind g img) ->
   extract_text_whatsapp_aware E image_input engine (Some f) min_confidence
     sl st
   = extract_text_whatsapp_aware E image_input engine (Some g)
       min_confidence sl st
   /\ extract_text_with_urdu_support E image_input min_confidence (Some f) st
      = extract_text_with_urdu_support E image_input min_confidence (Some g)
          st)
  /\ ((forall img, left_behind f img = img) ->
      extract_text_whatsapp_aware E image_input engine (Some f)
        min_confidence sl st
      = extract_text_whatsapp_aware E image_input engine None min_confidence
          sl st
      /\ extract_text_with_urdu_support E image_input min_confidence (Some f)
           st
         = extract_text_with_urdu_support E image_input min_confidence None
             st).
Proof.
  intros Hcv. split; intros Hsame; split.
  - unfold extract_text_whatsapp_aware, bind, lift.
    destruct (load_image_whatsapp E image_input) as [img | e]; [| reflexivity].
    by rewrite !(apply_preprocess_func_without_cv2 E _ img Hcv), (Hsame img).
  - unfold extract_text_with_urdu_support, bind, lift.
    destruct (load_image_urdu E image_input) as [img | e]; [| reflexivity].
    by rewrite !(apply_preprocess_func_without_cv2 E _ img Hcv), (Hsame img).
  - unfold extract_text_whatsapp_aware, bind, lift.
    destruct (load_image_whatsapp E image_input) as [img | e]; [| reflexivity].
    by rewrite !(apply_preprocess_func_without_cv2 E _ img Hcv), (Hsame img).
  - unfold extract_text_with_urdu_support, bind, lift.
    destruct (load_image_urdu E image_input) as [img | e]; [| reflexivity].
    by rewrite !(apply_preprocess_func_without_cv2 E _ img Hcv), (Hsame img).
Qed.

Lemma hook_answer_unused_without_cv2_witness :
  (exists r st',
      extract_text_whatsapp_aware (env_brightness false) (InArray img_1x1)
        "easyocr" (Some (hook_const img_light)) DEFAULT_MIN_CONFIDENCE None
        st0 = (Ok r, st')
      /\ res_raw_text r = lit "dark")
  /\ (exists r st',
         extract_text_whatsapp_aware (env_brightness false) (InArray img_1x1)
           "easyocr" (Some (hook_overwrite img_light)) DEFAULT_MIN_CONFIDENCE
           None st0 = (Ok r, st')
         /\ res_raw_text r = lit "light")
  /\ (exists r st',
         extract_text_whatsapp_aware (env_brightness true) (InArray img_1x1)
           "easyocr" (Some (hook_const img_light)) DEFAULT_MIN_CONFIDENCE
           None st0 = (Ok r, st')
         /\ res_raw_text r = lit "light").
Proof.
  split; [| split].
  - destruct (hook_answer_unused_without_cv2 (env_brightness false)
                (InArray img_1x1) "easyocr" (hook_const img_light)
                (hook_const img_light) DEFAULT_MIN_CONFIDENCE None st0
                eq_refl) as [_ Hnone].
    destruct Hnone as [-> _]; [reflexivity |].
    eexists _, _. split; vm_compute; reflexivity.
  - destruct (hook_answer_unused_without_cv2 (env_brightness false)
                (InArray img_1x1) "easyocr" (hook_overwrite img_light)
                (fun _ => (Ok img_1x1, img_light)) DEFAULT_MIN_CONFIDENCE
                None st0 eq_refl) as [Hsame _].
    destruct Hsame as [-> _]; [reflexivity |].
    eexists _, _. split; vm_compute; reflexivity.
  - eexists _, _. split; vm_compute; reflexivity.
Defined.

Lemma detect_without_cv2 E img :
  cv2_present E = false ->
  detect_text_regions E img DEFAULT_MIN_AREA DEFAULT_MAX_AREA_RATIO = Ok [].
Proof. intros Hcv. unfold detect_text_regions. by rewrite Hcv. Qed.

(** X18. When the region detector finds no region, as always without
    OpenCV, and the detailed recognition of the whole image returns items
    whose kept spans all have a box, the [lines] returned by
    [extract_text_whatsapp_aware] are exactly the spans the confidence
    filter keeps of those items, rearranged in reading order. *)
Theorem whatsapp_whole_image_lines
    E image_input engine pf min_confidence sl st r st' :
  extract_text_whatsapp_aware E image_input engine pf min_confidence sl st
  = (Ok r, st') ->
  (forall img,
      load_image_whatsapp E image_input = Ok img ->
      detect_text_regions E (apply_preprocess_func E pf img) DEFAULT_MIN_AREA
        DEFAULT_MAX_AREA_RATIO = Ok []) ->
  exists img rd,
    load_image_whatsapp E image_input = Ok img
    /\ get_reader E None false st = (Ok (Some rd), st')
    /\ forall res,
         readtext_detail E rd (apply_preprocess_func E pf img) = Some res ->
         (forall s, In s (confidence_filter min_confidence res) ->
                    sort_key s <> None) ->
         res_lines r ≡ₚ confidence_filter min_confidence res
         /\ ordered reads_before (res_lines r).
Proof.
  intros H Hnone.
  apply whatsapp_ok_inv in H as (img & rd & regions & Hl & Hg & Hd & ->).
  rewrite (Hnone img Hl) in Hd. injection Hd as <-.
  exists img, rd. split; [exact Hl |]. split; [exact Hg |].
  intros res Hres Hbox. cbn zeta.
  unfold read_regions. cbn [fold_left fst snd app res_lines].
  unfold read_region, detail_pass_whatsapp.
  cbn [call_readtext_detail]. rewrite Hres.
  destruct (confidence_filter min_confidence res) as [| s f] eqn:Hf;
    [by split |].
  destruct (sorted_spans (s :: f)) as [fs |] eqn:Hs.
  - cbn [fst]. split; [by apply sorted_spans_perm |].
    by eapply sorted_spans_reads_in_order.
  - apply sorted_spans_none in Hs as (s' & Hin & Hk).
    by destruct (Hbox s' Hin).
Qed.

Lemma whatsapp_whole_image_lines_witness :
  exists r st',
    extract_text_whatsapp_aware env_unsorted (InArray img_1x1) "easyocr" None
      DEFAULT_MIN_CONFIDENCE None st0 = (Ok r, st')
    /\ map text (res_lines r) = [lit "a"; lit "b"; lit "c"]
    /\ ordered reads_before (res_lines r).
Proof.
  eexists _, _. split; [vm_compute; reflexivity |].
  split; [reflexivity |].
  destruct (whatsapp_whole_image_lines env_unsorted (InArray img_1x1)
              "easyocr" None DEFAULT_MIN_CONFIDENCE None st0 _ _ eq_refl)
    as (img & rd & Hl & Hg & Hlines).
  { intros img _. by apply detect_without_cv2. }
  injection Hl as <-.
  vm_compute in Hg. injection Hg as <-.
  edestruct Hlines as [_ Hord]; [vm_compute; reflexivity | | exact Hord].
  intros s Hs. vm_compute in Hs.
  repeat (destruct Hs as [<- | Hs]; [discriminate |]). destruct Hs.
Defined.

(** ** A span without confidence in the whole-image pipeline *)

Lemma simple_lines_of_unscored results b txt :
  In (b, txt, None) results -> simple_lines_of results = Raise ExternalError.
Proof.
  induction results as [| [[b' t'] c'] results IH]; [intros [] |].
  intros [[= -> -> ->] | Hin]; cbn [simple_lines_of]; [reflexivity |].
  destruct c' as [v |]; [| reflexivity]. by rewrite (IH Hin).
Qed.

(** X19. [extract_text_from_image] with the easyocr engine raises when
    the recognizer reports an item without confidence ([float(None)]),
    where the region pipelines count such an item as confidence 0.0. *)
Theorem plain_unscored_span_raises E image_pil st pre rd st' results b txt :
  easyocr_present E = true ->
  preprocess_image E (pil_to_bgr image_pil) = Ok pre ->
  get_reader E None false st = (Ok (Some rd), st') ->
  readtext_detail E rd pre = Some results ->
  In (b, txt, None) results ->
  extract_text_from_image E image_pil "easyocr" st
  = (Raise ExternalError, st').
Proof.
  intros He Hp Hg Hr Hin. unfold extract_text_from_image, bind, lift.
  rewrite Hp, He. cbn [String.eqb Ascii.eqb Bool.eqb andb].
  rewrite Hg. cbn [call_readtext_detail]. rewrite Hr. cbn [of_call].
  by rewrite (simple_lines_of_unscored results b txt Hin).
Qed.

Lemma plain_unscored_span_raises_witness :
  extract_text_from_image env_unscored pil_1x1 "easyocr" st0
  = (Raise ExternalError, st_en)
  /\ exists r st',
       extract_text_whatsapp_aware env_unscored (InPil pil_1x1) "easyocr"
         None ZERO_CONF None st0 = (Ok r, st')
       /\ map conf (res_lines r) = [Some ZERO_CONF; Some HIGH].
Proof.
  split.
  - eapply (plain_unscored_span_raises env_unscored pil_1x1 st0 _ reader_en
              st_en _ [(0, 0)] (lit "n")).
    + reflexivity.
    + vm_compute. reflexivity.
    + vm_compute. reflexivity.
    + vm_compute. reflexivity.
    + left. reflexivity.
  - eexists _, _. split; vm_compute; reflexivity.
Defined.

(** ** The detected regions and their crops *)

Lemma ordered_impl {A : Type} (R R' : A -> A -> Prop) (l : list A) :
  (forall x y, R x y -> R' x y) -> ordered R l -> ordered R' l.
Proof.
  intros HR. induction l as [| x l IH]; cbn [ordered]; [done |].
  intros [H1 H2]. split; [| by apply IH].
  eapply Forall_impl; [exact H1 |]. intros y. apply HR.
Qed.

Lemma text_regions_ordered min_area ratio w_img h_img rects :
  ordered not_below (text_regions min_area ratio w_img h_img rects).
Proof.
  unfold text_regions.
  eapply ordered_impl;
    [| apply (sorted_by_ordered Z.leb region_top)].
  - intros a b Hab. unfold not_below. by apply Z.leb_le.
  - intros a b. rewrite !Z.leb_le. lia.
  - intros a b c. rewrite !Z.leb_le. lia.
Qed.

(** What holds of every padded kept rectangle holds of every region. *)
Lemma text_regions_Forall (P : region -> Prop) min_area ratio w_img h_img
    rects :
  (forall r, In r rects ->
             accepted min_area ratio w_img h_img r = true ->
             P (padded_region w_img h_img r)) ->
  Forall P (text_regions min_area ratio w_img h_img rects).
Proof.
  intros HP. unfold text_regions. rewrite sorted_by_perm.
  apply Forall_map, Forall_forall. intros r Hr.
  apply list_elem_of_In, filter_In in Hr as [Hr Hacc]. by apply HP.
Qed.

(** X20. When the detector's coordinate stage returns, its regions are in
    top-to-bottom order (each starts at or above all later ones), the
    crops are cut in that order, and the regions are, up to order, the
    padded bounding rectangles of exactly the contours that pass the area
    test; so there are never more regions than contours. *)
Theorem detect_regions_top_to_bottom E img min_area ratio regions :
  detect_regions_coords E img min_area ratio = Ok regions ->
  ordered not_below regions
  /\ _detect_with_cv2 E img min_area ratio
     = Ok (map (crop_region img) regions)
  /\ exists gray contours h w,
       cv2_BGR2GRAY E img = Some gray
       /\ cv2_text_contours E gray = Some contours
       /\ shape2 gray = Ok (h, w)
       /\ regions
          ≡ₚ map (padded_region (Z.of_nat w) (Z.of_nat h))
               (List.filter
                  (accepted min_area ratio (Z.of_nat w) (Z.of_nat h))
                  (map (cv2_boundingRect E) contours))
       /\ (length regions <= length contours)%nat.
Proof.
  intros H. unfold _detect_with_cv2. rewrite H. cbn [obind].
  unfold detect_regions_coords in H.
  destruct (cv2_BGR2GRAY E img) as [gray |] eqn:Hg; [| discriminate].
  cbn [of_call obind] in H.
  destruct (cv2_text_contours E gray) as [contours |] eqn:Hc;
    [| discriminate].
  cbn [of_call obind] in H.
  destruct (shape2 gray) as [[h w] | e] eqn:Hs; [| discriminate].
  cbn [obind] in H. injection H as <-.
  split; [apply text_regions_ordered |]. split; [reflexivity |].
  exists gray, contours, h, w.
  split; [reflexivity |]. split; [exact Hc |]. split; [exact Hs |].
  unfold text_regions. split; [apply sorted_by_perm |].
  rewrite (Permutation_length (sorted_by_perm Z.leb region_top _)).
  rewrite length_map.
  etransitivity; [apply filter_length_le |]. by rewrite length_map.
Qed.

Lemma detect_regions_top_to_bottom_witness :
  exists regions,
    detect_regions_coords env_page img_40x60 DEFAULT_MIN_AREA
      DEFAULT_MAX_AREA_RATIO = Ok regions
    /\ map (cv2_boundingRect env_page) [ [(5, 25); (34, 38)]; [(0, 0); (59, 9)] ]
       = [(5, 25, 30, 14); (0, 0, 60, 10)]
    /\ regions = [(0, 0, 12, 60); (23, 3, 40, 37)]
    /\ ordered not_below regions.
Proof.
  eexists. split; [vm_compute; reflexivity |].
  split; [vm_compute; reflexivity |]. split; [reflexivity |].
  apply (detect_regions_top_to_bottom env_page img_40x60 DEFAULT_MIN_AREA
           DEFAULT_MAX_AREA_RATIO).
  vm_compute. reflexivity.
Defined.

Lemma padded_region_covers w_img h_img r :
  rect_inside w_img h_img r = true -> covers (padded_region w_img h_img r) r.
Proof.
  destruct r as [[[x y] w] h]. unfold rect_inside, padded_region, covers.
  intros Hin. repeat (apply andb_prop in Hin as [Hin ?]).
  assert (0 <= Z.quot (w * 2) 100) by (apply Z.quot_pos; lia).
  assert (0 <= Z.quot (h * 5) 100) by (apply Z.quot_pos; lia).
  lia.
Qed.

Lemma accepted_area min_area ratio w_img h_img x y w h :
  accepted min_area ratio w_img h_img (x, y, w, h) = true ->
  min_area <= w * h.
Proof.
  unfold accepted, area_rejected. rewrite negb_true_iff, orb_false_iff.
  intros [Ha _]. lia.
Qed.

Lemma covers_area reg x y w h :
  0 <= w -> 0 <= h -> covers reg (x, y, w, h) -> w * h <= region_area reg.
Proof.
  destruct reg as [[[y0 x0] y1] x1]. unfold covers, region_area.
  intros Hw Hh (? & ? & ? & ?). nia.
Qed.

Lemma padded_region_area min_area ratio w_img h_img r :
  rect_inside w_img h_img r = true ->
  accepted min_area ratio w_img h_img r = true ->
  min_area <= region_area (padded_region w_img h_img r).
Proof.
  intros Hin Hacc. pose proof (padded_region_covers _ _ _ Hin) as Hcov.
  destruct r as [[[x y] w] h].
  apply accepted_area in Hacc.
  etransitivity; [exact Hacc |]. apply (covers_area _ x y w h); [| | exact Hcov];
    unfold rect_inside in Hin; repeat (apply andb_prop in Hin as [Hin ?]); lia.
Qed.

(** X21. When every bounding rectangle lies inside the image, each region
    of the detector is the padded form of a rectangle that passed the area
    test, covers that rectangle entirely (padding and clamping never cut
    into it), and so has at least [min_area] pixels. *)
Theorem regions_cover_accepted_rects min_area ratio w_img h_img rects :
  forallb (rect_inside w_img h_img) rects = true ->
  Forall (fun reg =>
            exists r,
              In r rects
              /\ accepted min_area ratio w_img h_img r = true
              /\ reg = padded_region w_img h_img r
              /\ covers reg r
              /\ min_area <= region_area reg)
    (text_regions min_area ratio w_img h_img rects).
Proof.
  intros Hall. rewrite forallb_forall in Hall.
  apply text_regions_Forall. intros r Hr Hacc. exists r.
  split; [exact Hr |]. split; [exact Hacc |]. split; [reflexivity |].
  split.
  - apply padded_region_covers. by apply Hall.
  - eapply padded_region_area; [by apply Hall | exact Hacc].
Qed.

Lemma regions_cover_accepted_rects_witness :
  forallb (rect_inside 60 40) [(5, 25, 30, 14); (0, 0, 60, 10); (50, 30, 3, 3)]
  = true
  /\ text_regions DEFAULT_MIN_AREA DEFAULT_MAX_AREA_RATIO 60 40
       [(5, 25, 30, 14); (0, 0, 60, 10); (50, 30, 3, 3)]
     = [(0, 0, 12, 60); (23, 3, 40, 37)]
  /\ Forall (fun reg =>
               exists r,
                 In r [(5, 25, 30, 14); (0, 0, 60, 10); (50, 30, 3, 3)]
                 /\ accepted DEFAULT_MIN_AREA DEFAULT_MAX_AREA_RATIO 60 40 r
                    = true
                 /\ reg = padded_region 60 40 r
                 /\ covers reg r
                 /\ DEFAULT_MIN_AREA <= region_area reg)
       (text_regions DEFAULT_MIN_AREA DEFAULT_MAX_AREA_RATIO 60 40
          [(5, 25, 30, 14); (0, 0, 60, 10); (50, 30, 3, 3)]).
Proof.
  split; [vm_compute; reflexivity |]. split; [vm_compute; reflexivity |].
  apply (regions_cover_accepted_rects DEFAULT_MIN_AREA DEFAULT_MAX_AREA_RATIO
           60 40 [(5, 25, 30, 14); (0, 0, 60, 10); (50, 30, 3, 3)]).
  vm_compute. reflexivity.
Defined.

Lemma slice_inside {A : Type} (a b : Z) (l : list A) :
  0 <= a <= b -> b <= Z.of_nat (length l) ->
  length (slice a b l) = Z.to_nat (b - a)
  /\ forall x, In x (slice a b l) -> In x l.
Proof.
  intros Hab Hb. unfold slice, slice_index.
  destruct (Z.ltb_spec a 0); [lia |]. destruct (Z.ltb_spec b 0); [lia |].
  split.
  - rewrite length_take, length_drop. lia.
  - intros x Hx. apply list_elem_of_In. apply list_elem_of_In in Hx.
    apply subseteq_take in Hx. by apply subseteq_drop in Hx.
Qed.

Lemma rectangular_In {A : Type} (rows : list (list A)) (r : list A) :
  rectangular rows = true -> In r rows -> length r = row_width rows.
Proof.
  unfold rectangular. rewrite forallb_forall. intros H Hr.
  apply Nat.eqb_eq. by apply H.
Qed.

Lemma crop_rows_shape {A : Type} (rows : list (list A)) y0 x0 y1 x1 :
  rectangular rows = true ->
  0 <= y0 < y1 -> y1 <= Z.of_nat (length rows) ->
  0 <= x0 <= x1 -> x1 <= Z.of_nat (row_width rows) ->
  length (map (slice x0 x1) (slice y0 y1 rows)) = Z.to_nat (y1 - y0)
  /\ row_width (map (slice x0 x1) (slice y0 y1 rows)) = Z.to_nat (x1 - x0).
Proof.
  intros Hrect Hy Hy1 Hx Hx1.
  destruct (slice_inside y0 y1 rows) as [Hlen Hin]; [lia | lia |].
  rewrite length_map. split; [exact Hlen |].
  destruct (slice y0 y1 rows) as [| r rs] eqn:Hs.
  - cbn [length] in Hlen. lia.
  - cbn [map row_width].
    assert (length r = row_width rows) as Hr
        by (apply rectangular_In; [done | apply Hin; by left]).
    destruct (slice_inside x0 x1 r) as [Hl _]; [lia | lia | exact Hl].
Qed.

(** A crop has the height and width of its region. *)
Lemma crop_region_shape img reg h w :
  rectangular_array img = true ->
  shape_hw img = (h, w) ->
  region_inside (Z.of_nat w) (Z.of_nat h) reg ->
  (0 < (region_hw reg).1)%nat ->
  shape_hw (crop_region img reg) = region_hw reg.
Proof.
  destruct reg as [[[y0 x0] y1] x1].
  unfold region_inside, region_hw, crop_region, crop. cbn [fst].
  intros Hrect Hshape (Hy & Hy1 & Hx & Hx1) Hrows.
  destruct img as [rows | rows]; cbn [rectangular_array shape_hw] in *;
    injection Hshape as <- <-;
    (destruct (crop_rows_shape rows y0 x0 y1 x1) as [-> ->];
     [done | lia | lia | lia | lia | reflexivity]).
Qed.

(** X22. On a rectangular image whose contours' bounding rectangles lie
    inside it, and for a positive [min_area], [_detect_with_cv2] returns
    one crop per region, each crop having exactly the height and width of
    its region: at least one row and one column, no more than the image
    has, and at least [min_area] pixels. *)
Theorem detect_crops_shape E img min_area ratio gray contours h w :
  rectangular_array img = true ->
  shape_hw img = (h, w) ->
  cv2_BGR2GRAY E img = Some gray ->
  shape2 gray = Ok (h, w) ->
  cv2_text_contours E gray = Some contours ->
  forallb (rect_inside (Z.of_nat w) (Z.of_nat h))
    (map (cv2_boundingRect E) contours) = true ->
  0 < min_area ->
  exists regions,
    _detect_with_cv2 E img min_area ratio
    = Ok (map (crop_region img) regions)
    /\ Forall (fun reg =>
                 let '(ch, cw) := shape_hw (crop_region img reg) in
                 (ch, cw) = region_hw reg
                 /\ (0 < ch <= h)%nat /\ (0 < cw <= w)%nat
                 /\ min_area <= Z.of_nat ch * Z.of_nat cw)
         regions.
Proof.
  intros Hrect Hshape Hgray Hshape2 Hcnt Hrects Hmin.
  unfold _detect_with_cv2, detect_regions_coords.
  rewrite Hgray. cbn [of_call obind]. rewrite Hcnt. cbn [of_call obind].
  rewrite Hshape2. cbn [obind].
  eexists. split; [reflexivity |].
  rewrite forallb_forall in Hrects.
  apply text_regions_Forall. intros r Hr Hacc.
  pose proof (padded_region_inside (Z.of_nat w) (Z.of_nat h) r
                ltac:(lia) ltac:(lia) (Hrects r Hr)) as Hin.
  pose proof (padded_region_area min_area ratio _ _ r (Hrects r Hr) Hacc)
    as Harea.
  destruct (padded_region (Z.of_nat w) (Z.of_nat h) r)
    as [[[y0 x0] y1] x1] eqn:Hreg.
  assert (Hpos : y0 < y1 /\ x0 < x1).
  { unfold region_inside in Hin. unfold region_area in Harea. nia. }
  rewrite (crop_region_shape img (y0, x0, y1, x1) h w Hrect Hshape Hin);
    [| cbn [region_hw fst]; lia].
  unfold region_inside in Hin. unfold region_area in Harea.
  cbn [region_hw]. split; [reflexivity |].
  split; [lia |]. split; [lia |].
  rewrite !Z2Nat.id by lia. exact Harea.
Qed.

Lemma detect_crops_shape_witness :
  map shape_hw
    (map (crop_region img_40x60) [(0, 0, 12, 60); (23, 3, 40, 37)])
  = [(12%nat, 60%nat); (17%nat, 34%nat)]
  /\ _detect_with_cv2 env_page img_40x60 DEFAULT_MIN_AREA
       DEFAULT_MAX_AREA_RATIO
     = Ok (map (crop_region img_40x60) [(0, 0, 12, 60); (23, 3, 40, 37)])
  /\ exists regions,
       _detect_with_cv2 env_page img_40x60 DEFAULT_MIN_AREA
         DEFAULT_MAX_AREA_RATIO
       = Ok (map (crop_region img_40x60) regions)
       /\ Forall (fun reg =>
                    let '(ch, cw) := shape_hw (crop_region img_40x60 reg) in
                    (ch, cw) = region_hw reg
                    /\ (0 < ch <= 40)%nat /\ (0 < cw <= 60)%nat
                    /\ DEFAULT_MIN_AREA <= Z.of_nat ch * Z.of_nat cw)
            regions.
Proof.
  split; [vm_compute; reflexivity |]. split; [vm_compute; reflexivity |].
  apply (detect_crops_shape env_page img_40x60 DEFAULT_MIN_AREA
           DEFAULT_MAX_AREA_RATIO
           (Arr2 (repeat (repeat 200 60%nat) 40%nat))
           [ [(5, 25); (34, 38)]; [(0, 0); (59, 9)] ] 40%nat 60%nat);
    vm_compute; reflexivity.
Defined.

(** ** The fallback threshold *)

Lemma In_scalars_upscale2 a v :
  In v (scalars (upscale2 a)) -> In v (scalars a).
Proof.
  assert (Hdouble : forall (A : Type) (l : list A) (x : A),
             In x (flat_map (fun y => [y; y]) l) -> In x l).
  { intros A l x Hx. apply in_flat_map in Hx as (y & Hy & Hxy).
    destruct Hxy as [<- | [<- | []]]; exact Hy. }
  assert (Hrows : forall (A : Type) (rows : list (list A)) (x : A),
             In x (concat (repeat_axis0 rows)) -> In x (concat rows)).
  { intros A rows x Hx. apply in_concat in Hx as (r & Hr & Hxr).
    apply Hdouble in Hr. apply in_concat. eauto. }
  destruct a as [rows | rows]; cbn [upscale2 scalars];
    rewrite concat_repeat_axis1; intros Hv.
  - by apply Hrows, Hdouble.
  - apply in_concat in Hv as (px & Hpx & Hv).
    apply Hdouble, Hrows in Hpx. apply in_concat. eauto.
Qed.

Lemma sum_uniform c xs :
  Forall (fun x => x = c) xs ->
  fold_right Z.add 0 xs = Z.of_nat (length xs) * c.
Proof.
  induction 1 as [| x xs -> _ IH]; cbn [fold_right length]; [lia |].
  rewrite IH. lia.
Qed.

(** Some value is at or below the mean. *)
Lemma min_below_sum xs :
  xs <> [] ->
  exists m, In m xs /\ Z.of_nat (length xs) * m <= fold_right Z.add 0 xs.
Proof.
  induction xs as [| x xs IH]; [congruence |]. intros _.
  destruct xs as [| y ys].
  - exists x. split; [by left |]. cbn [length fold_right]. lia.
  - destruct IH as (m & Hm & Hsum); [discriminate |].
    destruct (Z.le_gt_cases x m) as [Hx | Hx].
    + exists x. split; [by left |].
      cbn [length fold_right] in *. nia.
    + exists m. split; [by right |].
      cbn [length fold_right] in *. nia.
Qed.

Lemma threshold_black gray t :
  mean_int gray = Ok t ->
  In 0 (scalars (map_scalars (fun v => if t <? v then 255 else 0) gray))
  /\ (uniform gray ->
      Forall (fun v => v = 0)
        (scalars (map_scalars (fun v => if t <? v then 255 else 0) gray))).
Proof.
  unfold mean_int, uniform. rewrite scalars_map_scalars.
  destruct (scalars gray) as [| x xs] eqn:Hs; [discriminate |].
  intros [= <-]. split.
  - destruct (min_below_sum (x :: xs)) as (m & Hm & Hsum); [discriminate |].
    apply in_map_iff. exists m. split; [| exact Hm]. cbn beta.
    assert (m <= Z.quot (fold_right Z.add 0 (x :: xs))
                   (Z.of_nat (length (x :: xs)))) as Hle
        by (apply Z.quot_le_lower_bound; [cbn [length]; lia | exact Hsum]).
    apply Z.ltb_ge in Hle. cbn [fold_right length] in Hle. by rewrite Hle.
  - intros (c & Hc). pose proof (sum_uniform c _ Hc) as Hsum.
    cbn [fold_right length] in Hsum. rewrite Hsum.
    rewrite Z.mul_comm, Z.quot_mul by lia.
    apply Forall_map. eapply Forall_impl; [exact Hc |].
    intros v ->. cbn beta. by rewrite Z.ltb_irrefl.
Qed.

(** The grayscale step keeps an array without values without values, and
    turns an image of one level into one of one level. *)
Lemma gray_step E img :
  let gray :=
    match img with
    | Arr3 rows =>
        if (3 <=? channels rows)%nat
        then Arr2 (map (map (luminosity E)) rows)
        else map_scalars to_uint8 img
    | Arr2 _ => map_scalars to_uint8 img
    end in
  (scalars gray = [] <-> scalars img = [])
  /\ (well_formed_image img = true -> uniform img -> uniform gray).
Proof.
  assert (Hu8 : forall a,
             (scalars (map_scalars to_uint8 a) = [] <-> scalars a = [])
             /\ (uniform a -> uniform (map_scalars to_uint8 a))).
  { intros a. rewrite scalars_map_scalars. split.
    - destruct (scalars a); cbn [map]; split; congruence.
    - intros (v & Hv). exists (to_uint8 v). rewrite scalars_map_scalars.
      apply Forall_map. eapply Forall_impl; [exact Hv |]. by intros x ->. }
  destruct img as [rows | rows]; cbn zeta.
  - destruct (Hu8 (Arr2 rows)) as [H1 H2]. split; [exact H1 | auto].
  - destruct (3 <=? channels rows)%nat eqn:Hch.
    2:{ destruct (Hu8 (Arr3 rows)) as [H1 H2]. split; [exact H1 | auto]. }
    apply Nat.leb_le in Hch. split.
    + destruct rows as [| [| px r] rows]; cbn [channels] in Hch; try lia.
      destruct px as [| v px]; cbn [length] in Hch; [lia |].
      cbn. split; discriminate.
    + intros Hwf (v & Hv). exists (luminance_u8 E v v v).
      cbn [well_formed_image] in Hwf.
      apply andb_prop in Hwf as [_ Hpx].
      rewrite forallb_forall in Hpx.
      cbn [scalars] in Hv |- *. rewrite Forall_forall in Hv.
      apply Forall_forall. intros g Hg.
      apply list_elem_of_In, in_concat in Hg as (grow & Hgrow & Hg).
      apply in_map_iff in Hgrow as (row & <- & Hrow).
      apply in_map_iff in Hg as (px & <- & Hpxin).
      specialize (Hpx row Hrow). rewrite forallb_forall in Hpx.
      specialize (Hpx px Hpxin). apply Nat.eqb_eq in Hpx.
      assert (Hall : forall x, In x px -> x = v).
      { intros x Hx. apply Hv, list_elem_of_In, in_concat.
        exists px. split; [| exact Hx]. apply in_concat. eauto. }
      destruct px as [| a [| b [| c px]]]; cbn [length] in Hpx; try lia.
      cbn [luminosity].
      rewrite (Hall a), (Hall b), (Hall c); cbn [In]; auto.
Qed.

Lemma uniform_upscale2 a : uniform a -> uniform (upscale2 a).
Proof.
  intros (v & Hv). exists v. rewrite Forall_forall in Hv.
  apply Forall_forall. intros x Hx.
  apply Hv, list_elem_of_In, In_scalars_upscale2. by apply list_elem_of_In.
Qed.

(** X23. Without OpenCV [preprocess_image] raises exactly on an array that
    holds no value (no row, no column or no channel): [int] of the NaN
    mean fails.  On every other array it returns. *)
Theorem fallback_preprocess_raises_iff_empty E img :
  cv2_present E = false ->
  (scalars img = [] -> preprocess_image E img = Raise ExternalError)
  /\ (scalars img <> [] -> exists th, preprocess_image E img = Ok th).
Proof.
  intros Hcv. unfold preprocess_image. rewrite Hcv.
  unfold _preprocess_without_cv2.
  destruct (gray_step E img) as [Hempty _]. cbn zeta in Hempty |- *.
  set (gray := match img with
               | Arr3 rows =>
                   if (3 <=? channels rows)%nat
                   then Arr2 (map (map (luminosity E)) rows)
                   else map_scalars to_uint8 img
               | Arr2 _ => map_scalars to_uint8 img
               end) in *.
  split.
  - intros Himg. apply Hempty in Himg.
    destruct (shape_hw gray) as [h w].
    assert (Hup : mean_int (if (Nat.min h w <? 400)%nat
                            then upscale2 gray else gray)
                  = Raise ExternalError).
    { unfold mean_int. destruct (Nat.min h w <? 400)%nat.
      - pose proof (length_scalars_upscale2 gray) as Hlen.
        rewrite Himg in Hlen. cbn [length] in Hlen.
        by destruct (scalars (upscale2 gray)).
      - by rewrite Himg. }
    by rewrite Hup.
  - intros Himg.
    destruct (threshold_stage gray) as (th & Hth & _).
    + intros Hg. by apply Himg, Hempty.
    + eauto.
Qed.

Lemma fallback_preprocess_raises_iff_empty_witness :
  scalars img_no_column = []
  /\ preprocess_image env_unscored img_no_column = Raise ExternalError
  /\ exists th, preprocess_image env_unscored img_corner = Ok th.
Proof.
  destruct (fallback_preprocess_raises_iff_empty env_unscored img_no_column)
    as [Hraise _]; [reflexivity |].
  destruct (fallback_preprocess_raises_iff_empty env_unscored img_corner)
    as [_ Hok]; [reflexivity |].
  split; [reflexivity |]. split.
  - apply Hraise. reflexivity.
  - apply Hok. discriminate.
Defined.

(** X24. Whenever the fallback of [preprocess_image] returns, its result
    has at least one black (0) value, because the smallest gray value is
    never above the truncated mean; and an image of a single level (all
    values equal) comes out entirely black. *)
Theorem fallback_threshold_never_all_white E img th :
  cv2_present E = false ->
  preprocess_image E img = Ok th ->
  In 0 (scalars th)
  /\ (well_formed_image img = true -> uniform img ->
      Forall (fun v => v = 0) (scalars th)).
Proof.
  intros Hcv. unfold preprocess_image. rewrite Hcv.
  unfold _preprocess_without_cv2.
  destruct (gray_step E img) as [_ Hunif]. cbn zeta in Hunif |- *.
  set (gray := match img with
               | Arr3 rows =>
                   if (3 <=? channels rows)%nat
                   then Arr2 (map (map (luminosity E)) rows)
                   else map_scalars to_uint8 img
               | Arr2 _ => map_scalars to_uint8 img
               end) in *.
  destruct (shape_hw gray) as [h w].
  set (scaled := if (Nat.min h w <? 400)%nat then upscale2 gray else gray).
  assert (Hscaled : uniform gray -> uniform scaled).
  { unfold scaled. destruct (Nat.min h w <? 400)%nat; [| done].
    apply uniform_upscale2. }
  destruct (mean_int scaled) as [t | e] eqn:Hmean; cbn [obind];
    [| discriminate].
  intros [= <-]. destruct (threshold_black scaled t Hmean) as [Hin Hall].
  split; [exact Hin |]. intros Hwf Hu. apply Hall, Hscaled, Hunif; done.
Qed.

Lemma fallback_threshold_never_all_white_witness :
  preprocess_image env_unscored img_corner
  = Ok (Arr2 [ [0; 0; 255; 255]; [0; 0; 255; 255];
               [255; 255; 255; 255]; [255; 255; 255; 255] ])
  /\ In 0 (scalars (Arr2 [ [0; 0; 255; 255]; [0; 0; 255; 255];
                           [255; 255; 255; 255]; [255; 255; 255; 255] ]))
  /\ exists th,
       preprocess_image env_unscored img_flat = Ok th
       /\ Forall (fun v => v = 0) (scalars th).
Proof.
  split; [vm_compute; reflexivity |]. split.
  - apply (fallback_threshold_never_all_white env_unscored img_corner);
      vm_compute; reflexivity.
  - eexists. split; [vm_compute; reflexivity |].
    apply (fallback_threshold_never_all_white env_unscored img_flat);
      [reflexivity | vm_compute; reflexivity | vm_compute; reflexivity |].
    exists 90. vm_compute. repeat constructor.
Defined.

(** ** Which inputs are refused *)

Lemma load_image_whatsapp_unsupported E input :
  load_image_whatsapp E input = Raise UnsupportedInputKind -> input = InOther.
Proof.
  destruct input as [path | pil | a |]; cbn [load_image_whatsapp].
  - destruct (image_open E path); cbn; discriminate.
  - discriminate.
  - destruct (ndim a =? 2); [| discriminate].
    destruct (cv2_present E); [| discriminate].
    destruct a; cbn [gray2bgr]; discriminate.
  - reflexivity.
Qed.

Lemma load_image_urdu_unsupported E input :
  load_image_urdu E input = Raise UnsupportedInputKind -> input = InOther.
Proof.
  destruct input as [path | pil | a |]; cbn [load_image_urdu].
  - destruct (image_open E path); cbn; discriminate.
  - discriminate.
  - discriminate.
  - reflexivity.
Qed.

Lemma whatsapp_unsupported_only E input engine pf theta sl st st' :
  extract_text_whatsapp_aware E input engine pf theta sl st
  = (Raise UnsupportedInputKind, st') ->
  input = InOther /\ st' = st.
Proof.
  unfold extract_text_whatsapp_aware. unfold bind at 1. unfold lift at 1.
  destruct (load_image_whatsapp E input) as [img | e] eqn:Hl.
  - unfold bind at 1.
    destruct (get_reader E None false st) as [[[rd |] | e] st1] eqn:Hg.
    + unfold bind at 1. unfold lift at 1.
      destruct (detect_text_regions E _ _ _) as [regions | e] eqn:Hd.
      * destruct (read_regions _ _). discriminate.
      * apply detect_text_regions_raises in Hd as ->. discriminate.
    + cbv [raise]. discriminate.
    + pose proof (get_reader_outcome _ _ _ _ _ _ Hg) as He. cbn in He.
      subst e. discriminate.
  - intros [= -> <-]. split; [| reflexivity].
    by apply load_image_whatsapp_unsupported in Hl.
Qed.

Lemma urdu_unsupported_only E input theta pf st st' :
  extract_text_with_urdu_support E input theta pf st
  = (Raise UnsupportedInputKind, st') ->
  input = InOther /\ st' = st.
Proof.
  unfold extract_text_with_urdu_support. unfold bind at 1. unfold lift at 1.
  destruct (load_image_urdu E input) as [img | e] eqn:Hl.
  - unfold bind at 1.
    destruct (get_reader E None false st) as [[[rd |] | e] st1] eqn:Hg.
    + unfold bind at 1.
      destruct (try_except _ _ st1) as [[reader | e] st2] eqn:Hg2.
      * unfold bind at 1. unfold lift at 1.
        destruct (detect_text_regions E _ _ _) as [regions | e] eqn:Hd.
        -- destruct (read_regions _ _).
           destruct (String.eqb _ _); [destruct (shape_and_bidi _ _) |];
             discriminate.
        -- apply detect_text_regions_raises in Hd as ->. discriminate.
      * unfold try_except in Hg2.
        destruct (get_reader E None false st1) as [[o | e1] st3] eqn:Hg3;
          [discriminate |].
        pose proof (get_reader_outcome _ _ _ _ _ _ Hg2) as He. cbn in He.
        subst e. discriminate.
    + cbv [raise]. discriminate.
    + pose proof (get_reader_outcome _ _ _ _ _ _ Hg) as He. cbn in He.
      subst e. discriminate.
  - intros [= -> <-]. split; [| reflexivity].
    by apply load_image_urdu_unsupported in Hl.
Qed.

(** X25. The region pipelines raise the "Unsupported image_input type"
    error exactly for an input that is neither a path, a PIL image nor an
    array; they raise it before anything else happens, so the recognizer
    cache is left as it was. *)
Theorem unsupported_input_iff E input engine pf theta sl st st' :
  (extract_text_whatsapp_aware E input engine pf theta sl st
   = (Raise UnsupportedInputKind, st')
   <-> input = InOther /\ st' = st)
  /\ (extract_text_with_urdu_support E input theta pf st
      = (Raise UnsupportedInputKind, st')
      <-> input = InOther /\ st' = st).
Proof.
  split; split.
  - apply whatsapp_unsupported_only.
  - by intros [-> ->].
  - apply urdu_unsupported_only.
  - by intros [-> ->].
Qed.

(** ** [run_pipeline] *)

Lemma preprocess_image_raises E img e :
  preprocess_image E img = Raise e -> e = ExternalError.
Proof.
  unfold preprocess_image, _preprocess_with_cv2, _preprocess_without_cv2.
  destruct (cv2_present E).
  - destruct (cv2_BGR2GRAY E img) as [g |]; cbn [of_call obind];
      [| by intros [= <-]].
    destruct (cv2_medianBlur E g 3) as [g' |]; cbn [of_call obind];
      [| by intros [= <-]].
    destruct g' as [rows | rows]; cbn [shape2 obind]; [| by intros [= <-]].
    destruct (Nat.min _ _ <? 400)%nat.
    + destruct (cv2_resize_linear E _ _) as [g2 |]; cbn [of_call obind];
        [| by intros [= <-]].
      destruct (cv2_adaptiveThreshold E _ _ _ _); cbn [of_call];
        [discriminate | by intros [= <-]].
    + cbn [obind].
      destruct (cv2_adaptiveThreshold E _ _ _ _); cbn [of_call];
        [discriminate | by intros [= <-]].
  - cbv zeta. destruct (shape_hw _) as [h w].
    unfold mean_int. destruct (scalars _); cbn [obind];
      [by intros [= <-] | discriminate].
Qed.

Lemma simple_lines_of_raises results e :
  simple_lines_of results = Raise e -> e = ExternalError.
Proof.
  induction results as [| [[b txt] [v |]] rest IH]; cbn [simple_lines_of].
  - discriminate.
  - destruct (simple_lines_of rest); cbn [obind]; [discriminate |].
    intros [= <-]. by apply IH.
  - by intros [= <-].
Qed.

Lemma plain_raises E pil engine st e st' :
  extract_text_from_image E pil engine st = (Raise e, st') ->
  e = ExternalError.
Proof.
  unfold extract_text_from_image. unfold bind at 1. unfold lift at 1.
  destruct (preprocess_image E _) as [pre | e0] eqn:Hp;
    [| intros [= <- _]; by apply preprocess_image_raises in Hp].
  unfold bind at 1.
  destruct (String.eqb engine "easyocr" && easyocr_present E).
  - unfold bind at 1.
    destruct (get_reader E None false st) as [[reader | e0] st1] eqn:Hg.
    + unfold bind at 1, lift at 1.
      destruct (call_readtext_detail E reader pre) as [results |];
        cbn [of_call]; [| by intros [= <- _]].
      unfold bind at 1, lift at 1.
      destruct (simple_lines_of results) as [lines | e0] eqn:Hs.
      * cbv [ret]. discriminate.
      * intros [= <- _]. by apply simple_lines_of_raises in Hs.
    + intros [= <- _].
      exact (get_reader_outcome _ _ _ _ _ _ Hg).
  - destruct (String.eqb engine "tesseract" && pytesseract_present E).
    + unfold bind at 1, lift at 1.
      destruct (tesseract_image_to_string E pre); cbn [of_call];
        [cbv [ret]; discriminate | by intros [= <- _]].
    + cbv [ret]. discriminate.
Qed.

Lemma whatsapp_path_as_pil E path pil engine pf theta sl st :
  image_open E path = Some pil ->
  extract_text_whatsapp_aware E (InPath path) engine pf theta sl st
  = extract_text_whatsapp_aware E (InPil pil) engine pf theta sl st.
Proof.
  intros Hopen. unfold extract_text_whatsapp_aware, bind, lift.
  cbn [load_image_whatsapp]. by rewrite Hopen.
Qed.

Lemma urdu_path_as_pil E path pil theta pf st :
  image_open E path = Some pil ->
  extract_text_with_urdu_support E (InPath path) theta pf st
  = extract_text_with_urdu_support E (InPil pil) theta pf st.
Proof.
  intros Hopen. unfold extract_text_with_urdu_support, bind, lift.
  cbn [load_image_urdu]. by rewrite Hopen.
Qed.

Lemma whatsapp_path_unopened E path engine pf theta sl st :
  image_open E path = None ->
  extract_text_whatsapp_aware E (InPath path) engine pf theta sl st
  = (Raise ExternalError, st).
Proof.
  intros Hopen. unfold extract_text_whatsapp_aware, bind, lift.
  cbn [load_image_whatsapp]. by rewrite Hopen.
Qed.

Lemma urdu_path_unopened E path theta pf st :
  image_open E path = None ->
  extract_text_with_urdu_support E (InPath path) theta pf st
  = (Raise ExternalError, st).
Proof.
  intros Hopen. unfold extract_text_with_urdu_support, bind, lift.
  cbn [load_image_urdu]. by rewrite Hopen.
Qed.

(** X26. [run_pipeline] never fails with the "Unsupported image_input
    type" error; a file that cannot be opened makes it raise with the
    recognizer cache untouched; and for a mode other than ['simple'] it
    returns exactly what the region pipeline returns when it is given the
    path itself: the WhatsApp pipeline for ['whatsapp'] and the Urdu
    pipeline for every other mode string. *)
Theorem run_pipeline_outcomes E path mode st o st' :
  run_pipeline E path mode st = (o, st') ->
  o <> Raise UnsupportedInputKind
  /\ (image_open E path = None -> o = Raise ExternalError /\ st' = st)
  /\ (mode = "whatsapp"%string ->
      forall r,
        o = Ok (RegionOut r)
        <-> extract_text_whatsapp_aware E (InPath path) "easyocr" None
              DEFAULT_MIN_CONFIDENCE None st = (Ok r, st'))
  /\ (mode <> "simple"%string -> mode <> "whatsapp"%string ->
      forall r,
        o = Ok (RegionOut r)
        <-> extract_text_with_urdu_support E (InPath path)
              DEFAULT_MIN_CONFIDENCE None st = (Ok r, st')).
Proof.
  unfold run_pipeline. unfold bind at 1. unfold lift at 1.
  destruct (image_open E path) as [pil |] eqn:Hopen; cbn [of_call].
  2:{ intros [= <- <-]. split; [discriminate |]. split; [done |].
      split; intros; (split; [discriminate |]).
      - by rewrite whatsapp_path_unopened.
      - by rewrite urdu_path_unopened. }
  rewrite (whatsapp_path_as_pil E path pil _ _ _ _ _ Hopen).
  rewrite (urdu_path_as_pil E path pil _ _ _ Hopen).
  destruct (String.eqb_spec mode "simple") as [-> | Hsimple].
  { unfold bind.
    destruct (extract_text_from_image E pil "easyocr" st) as [[r | e] st1]
      eqn:Hrun; intros [= <- <-].
    - split; [discriminate |]. split; [discriminate |].
      split; [discriminate | congruence].
    - apply plain_raises in Hrun as ->.
      split; [discriminate |]. split; [discriminate |].
      split; [discriminate | congruence]. }
  destruct (String.eqb_spec mode "whatsapp") as [-> | Hwhatsapp].
  - unfold bind at 1.
    destruct (extract_text_whatsapp_aware E (InPil pil) "easyocr" None
                DEFAULT_MIN_CONFIDENCE None st) as [[r | e] st1] eqn:Hrun;
      intros [= <- <-].
    + split; [discriminate |]. split; [discriminate |].
      split; [| congruence]. intros _ r'.
      split; [by intros [= <-] | by intros [= <-]].
    + split.
      * intros [= ->]. apply whatsapp_unsupported_only in Hrun as [? _].
        discriminate.
      * split; [discriminate |]. split; [| congruence].
        intros _ r'. split; discriminate.
  - unfold bind at 1.
    destruct (extract_text_with_urdu_support E (InPil pil)
                DEFAULT_MIN_CONFIDENCE None st) as [[r | e] st1] eqn:Hrun;
      intros [= <- <-].
    + split; [discriminate |]. split; [discriminate |].
      split; [congruence |]. intros _ _ r'.
      split; [by intros [= <-] | by intros [= <-]].
    + split.
      * intros [= ->]. apply urdu_unsupported_only in Hrun as [? _].
        discriminate.
      * split; [discriminate |]. split; [congruence |].
        intros _ _ r'. split; discriminate.
Qed.

Lemma run_pipeline_outcomes_witness :
  (exists r,
      run_pipeline env_one_file "chat.png" "urdoo" st0
      = (Ok (RegionOut r), st_en)
      /\ extract_text_with_urdu_support env_one_file (InPath "chat.png")
           DEFAULT_MIN_CONFIDENCE None st0 = (Ok r, st_en))
  /\ run_pipeline env_one_file "gone.png" "whatsapp" st0
     = (Raise ExternalError, st0).
Proof.
  split.
  - eexists. split; [vm_compute; reflexivity |].
    destruct (run_pipeline_outcomes env_one_file "chat.png" "urdoo" st0
                _ st_en ltac:(vm_compute; reflexivity))
      as (_ & _ & _ & Hurdu).
    apply Hurdu; [discriminate | discriminate | reflexivity].
  - destruct (run_pipeline env_one_file "gone.png" "whatsapp" st0)
      as [o st'] eqn:Hrun.
    destruct (run_pipeline_outcomes env_one_file "gone.png" "whatsapp" st0
                o st' Hrun) as (_ & Hgone & _).
    destruct Hgone as [-> ->]; reflexivity.
Defined.

(** ** The remote-model client and the forwarding service *)

Lemma call_gemini_without_key N api_key prompt model temperature tokens sent :
  key_given api_key = false ->
  call_gemini N api_key prompt model temperature tokens sent
  = (Raised ApiKeyRequired, sent).
Proof. unfold call_gemini. by destruct api_key as [[| c k] |]. Qed.

Lemma call_gemini_with_key N api_key prompt model temperature tokens sent
    o sent' :
  key_given api_key = true ->
  call_gemini N api_key prompt model temperature tokens sent = (o, sent') ->
  o <> Raised ApiKeyRequired
  /\ (forall status, o <> Raised (HTTPException status))
  /\ exists req,
       sent' = sent ++ [req]
       /\ api_key = Some (req_key req)
       /\ req_prompt req = prompt
       /\ req_url req = BASE_URL ++ lit "/" ++ model ++ lit ":generateText"
       /\ match o with
          | Returned r =>
              exists resp,
                requests_post N req = Some resp
                /\ raises_for_status resp = false
                /\ resp_json resp = Some (raw r)
          | Raised _ => True
          end.
Proof.
  unfold call_gemini. destruct api_key as [[| c k] |]; try discriminate.
  intros _.
  set (req := {| req_url := _; req_key := c :: k |}).
  assert (Hout : forall data e,
             output_text_of N data = Raised e -> e = NoSuchAttribute).
  { intros data e. unfold output_text_of.
    destruct data as [| | | | | | d]; try discriminate.
    destruct (dict_lookup (lit "candidates") d) as [[| | | | | [| first ?] |] |];
      try (destruct (dict_lookup (lit "output") d); discriminate).
    destruct first; try discriminate; by intros [= <-]. }
  destruct (requests_post N req) as [resp |] eqn:Hpost.
  - destruct (raises_for_status resp) eqn:Hstatus.
    + intros [= <- <-]. split; [discriminate |]. split; [discriminate |].
      exists req. by repeat split.
    + destruct (resp_json resp) as [data |] eqn:Hjson.
      * destruct (output_text_of N data) as [t | e] eqn:Ht;
          intros [= <- <-].
        -- split; [discriminate |]. split; [discriminate |].
           exists req. repeat split. exists resp. by repeat split.
        -- apply Hout in Ht as ->.
           split; [discriminate |]. split; [discriminate |].
           exists req. by repeat split.
      * intros [= <- <-]. split; [discriminate |]. split; [discriminate |].
        exists req. by repeat split.
  - intros [= <- <-]. split; [discriminate |]. split; [discriminate |].
    exists req. by repeat split.
Qed.

(** X27. [call_gemini] posts nothing when the key is [None] or empty and
    raises the "API key is required" error; with any other key it posts
    exactly one request, carrying that key and the prompt, and never
    raises that error.  When it returns, [raw] is the parsed body of a
    response whose status is not a 4xx or 5xx code. *)
Theorem call_gemini_posts_once_with_key
    N api_key prompt model temperature tokens sent o sent' :
  call_gemini N api_key prompt model temperature tokens sent = (o, sent') ->
  (key_given api_key = false -> o = Raised ApiKeyRequired /\ sent' = sent)
  /\ (key_given api_key = true ->
      o <> Raised ApiKeyRequired
      /\ exists req,
           sent' = sent ++ [req]
           /\ api_key = Some (req_key req)
           /\ req_prompt req = prompt
           /\ match o with
              | Returned r =>
                  exists resp,
                    requests_post N req = Some resp
                    /\ raises_for_status resp = false
                    /\ resp_json resp = Some (raw r)
              | Raised _ => True
              end).
Proof.
  intros Hrun. split; intros Hkey.
  - rewrite call_gemini_without_key in Hrun by exact Hkey.
    by injection Hrun as <- <-.
  - destruct (call_gemini_with_key _ _ _ _ _ _ _ _ _ Hkey Hrun)
      as (Hne & _ & req & Hsent & Hk & Hp & _ & Hraw).
    split; [exact Hne |]. exists req. by repeat split.
Qed.

Lemma call_gemini_posts_once_with_key_witness :
  call_gemini net_echo (Some []) (lit "p") DEFAULT_MODEL DEFAULT_TEMPERATURE
    DEFAULT_MAX_OUTPUT_TOKENS [] = (Raised ApiKeyRequired, [])
  /\ exists r req,
       call_gemini net_echo (Some (lit "k1")) (lit "p") DEFAULT_MODEL
         DEFAULT_TEMPERATURE DEFAULT_MAX_OUTPUT_TOKENS [] = (Returned r, [req])
       /\ content r = JStr (lit "k1")
       /\ req_prompt req = lit "p".
Proof.
  split.
  - destruct (call_gemini net_echo (Some []) (lit "p") DEFAULT_MODEL
                DEFAULT_TEMPERATURE DEFAULT_MAX_OUTPUT_TOKENS [])
      as [o sent'] eqn:Hrun.
    destruct (call_gemini_posts_once_with_key _ _ _ _ _ _ _ _ _ Hrun)
      as [Hnone _].
    destruct Hnone as [-> ->]; reflexivity.
  - eexists _, _. split; [vm_compute; reflexivity |].
    split; [reflexivity |].
    destruct (call_gemini_posts_once_with_key net_echo (Some (lit "k1"))
                (lit "p") DEFAULT_MODEL DEFAULT_TEMPERATURE
                DEFAULT_MAX_OUTPUT_TOKENS [] _ _
                ltac:(vm_compute; reflexivity)) as [_ Hsome].
    destruct Hsome as (_ & req & Hsent & _ & Hp & _); [reflexivity |].
    cbn [app] in Hsent. injection Hsent as <-. exact Hp.
Defined.

Lemma send_member2_key N member2_payload api_key model :
  send_member2_output_to_gemini N member2_payload api_key model
  = call_gemini N
      (match api_key with
       | None => environ_GEMINI_API_KEY N
       | Some _ => api_key
       end)
      (build_prompt_from_payload N member2_payload) model
      DEFAULT_TEMPERATURE DEFAULT_MAX_OUTPUT_TOKENS.
Proof. reflexivity. Qed.

(** With [member_id] 2 and a key, [forward] posts once. *)
Lemma forward_with_key N request sent o sent' :
  forward N request sent = (o, sent') ->
  member_id request = 2 ->
  key_given (effective_key N request) = true ->
  exists req,
    sent' = sent ++ [req]
    /\ Some (req_key req) = effective_key N request
    /\ req_prompt req = build_prompt_from_payload N (payload request)
    /\ ((exists r, o = Returned {| status := lit "ok"; gemini := r |})
        \/ o = Raised (HTTPException 502)).
Proof.
  unfold forward. fold (effective_key N request). intros Hrun Hid Hkey.
  rewrite Hid, Hkey in Hrun. cbn [Z.eqb Pos.eqb negb] in Hrun.
  rewrite send_member2_key in Hrun.
  assert (Heff : (match effective_key N request with
                  | None => environ_GEMINI_API_KEY N
                  | Some _ => effective_key N request
                  end) = effective_key N request).
  { destruct (effective_key N request); [reflexivity | discriminate]. }
  rewrite Heff in Hrun.
  destruct (call_gemini N (effective_key N request) _ _ _ _ sent)
    as [[r | e] sent1] eqn:Hcall;
    destruct (call_gemini_with_key _ _ _ _ _ _ _ _ _ Hkey Hcall)
      as (_ & _ & req & Hsent & Hk & Hp & _);
    injection Hrun as <- <-; exists req;
    (split; [exact Hsent |]; split; [by rewrite Hk |];
     split; [exact Hp |]).
  - left. by exists r.
  - by right.
Qed.

(** X28. What [POST /forward] answers.  A [member_id] other than 2 gives
    status 400 and a missing key (none in the request, none in the
    environment) gives 500, both without any request to the model, the
    400 taking precedence.  Otherwise exactly one request is posted, with
    the key of the request if it has one and the environment's key if
    not, and with the prompt built from the payload; the answer is the
    reply of the model or status 502.  No other error leaves [forward]. *)
Theorem forward_status N request sent o sent' :
  forward N request sent = (o, sent') ->
  (member_id request <> 2 ->
   o = Raised (HTTPException 400) /\ sent' = sent)
  /\ (member_id request = 2 -> key_given (effective_key N request) = false ->
      o = Raised (HTTPException 500) /\ sent' = sent)
  /\ (member_id request = 2 -> key_given (effective_key N request) = true ->
      (exists req,
          sent' = sent ++ [req]
          /\ Some (req_key req) = effective_key N request
          /\ req_prompt req = build_prompt_from_payload N (payload request))
      /\ ((exists r, o = Returned {| status := lit "ok"; gemini := r |})
          \/ o = Raised (HTTPException 502))).
Proof.
  unfold forward. fold (effective_key N request).
  destruct (Z.eqb_spec (member_id request) 2) as [Hid | Hid]; cbn [negb].
  2:{ intros [= <- <-]. split; [done |]. split; intros; contradiction. }
  destruct (key_given (effective_key N request)) eqn:Hkey; cbn [negb].
  2:{ intros [= <- <-]. split; [intros; contradiction |].
      split; [done | discriminate]. }
  intros Hrun. split; [intros; contradiction |]. split; [discriminate |].
  intros _ _.
  destruct (forward_with_key N request sent o sent') as (req & ? & ? & ? & ?).
  - unfold forward. fold (effective_key N request).
    destruct (Z.eqb_spec (member_id request) 2); [| contradiction].
    by rewrite Hkey.
  - exact Hid.
  - exact Hkey.
  - split; [by exists req | assumption].
Qed.

Lemma forward_status_witness :
  forward net_echo {| member_id := 3; payload := JDict [];
                      api_key := Some (lit "k1") |} []
  = (Raised (HTTPException 400), [])
  /\ forward net_denied {| member_id := 2; payload := JDict [];
                           api_key := Some [] |} []
     = (Raised (HTTPException 500), [])
  /\ exists req,
       forward net_denied {| member_id := 2; payload := JDict [];
                             api_key := Some (lit "k1") |} []
       = (Raised (HTTPException 502), [req])
       /\ req_key req = lit "k1".
Proof.
  split; [| split].
  - destruct (forward net_echo {| member_id := 3; payload := JDict [];
                                  api_key := Some (lit "k1") |} [])
      as [o sent'] eqn:Hrun.
    destruct (forward_status _ _ _ _ _ Hrun) as (H400 & _).
    destruct H400 as [-> ->]; [discriminate | reflexivity].
  - destruct (forward net_denied {| member_id := 2; payload := JDict [];
                                    api_key := Some [] |} [])
      as [o sent'] eqn:Hrun.
    destruct (forward_status _ _ _ _ _ Hrun) as (_ & H500 & _).
    destruct H500 as [-> ->]; reflexivity.
  - eexists. split; [vm_compute; reflexivity |].
    destruct (forward_status net_denied
                {| member_id := 2; payload := JDict [];
                   api_key := Some (lit "k1") |} [] _ _
                ltac:(vm_compute; reflexivity)) as (_ & _ & Hsend).
    destruct Hsend as [(req & Hsent & Hk & _) _]; [reflexivity .. |].
    cbn [app] in Hsent. injection Hsent as <-.
    vm_compute in Hk |- *. reflexivity.
Defined.

(** X29. An empty string as key is treated in two ways.  Given to
    [send_member2_output_to_gemini] it is not replaced by the
    environment's key, so the call raises the "API key is required" error
    and posts nothing even though the environment holds a key; in the body
    of a [POST /forward] with [member_id] 2 it is replaced, and one
    request is posted with the environment's key. *)
Theorem empty_key_two_ways N member2_payload model k sent :
  environ_GEMINI_API_KEY N = Some k ->
  k <> [] ->
  send_member2_output_to_gemini N member2_payload (Some []) model sent
  = (Raised ApiKeyRequired, sent)
  /\ send_member2_output_to_gemini N member2_payload None model sent
     = call_gemini N (Some k) (build_prompt_from_payload N member2_payload)
         model DEFAULT_TEMPERATURE DEFAULT_MAX_OUTPUT_TOKENS sent
  /\ exists o req,
       forward N {| member_id := 2; payload := member2_payload;
                    api_key := Some [] |} sent
       = (o, sent ++ [req])
       /\ req_key req = k
       /\ o <> Raised (HTTPException 500).
Proof.
  intros Henv Hk. split; [reflexivity |]. split.
  - rewrite send_member2_key. by rewrite Henv.
  - destruct (forward N {| member_id := 2; payload := member2_payload;
                           api_key := Some [] |} sent)
      as [o sent'] eqn:Hrun.
    destruct (forward_with_key N _ _ _ _ Hrun) as (req & -> & Hreq & _ & Ho).
    + reflexivity.
    + unfold effective_key. cbn. rewrite Henv. by destruct k.
    + exists o, req. split; [reflexivity |]. split.
      * unfold effective_key in Hreq. cbn in Hreq. rewrite Henv in Hreq.
        by injection Hreq.
      * destruct Ho as [[r ->] | ->]; discriminate.
Qed.

Lemma empty_key_two_ways_witness :
  send_member2_output_to_gemini net_echo (JDict []) (Some []) DEFAULT_MODEL []
  = (Raised ApiKeyRequired, [])
  /\ exists o req,
       forward net_echo {| member_id := 2; payload := JDict [];
                           api_key := Some [] |} []
       = (o, [] ++ [req])
       /\ req_key req = lit "env-key"
       /\ o <> Raised (HTTPException 500).
Proof.
  destruct (empty_key_two_ways net_echo (JDict []) DEFAULT_MODEL
              (lit "env-key") []) as (Hsend & _ & Hforward);
    [reflexivity | discriminate |].
  split; [exact Hsend | exact Hforward].
Defined.

(** ** The whole-image pipeline keeps every item *)

Lemma simple_lines_of_ok results lines :
  simple_lines_of results = Ok lines ->
  map text lines = map raw_text_of results
  /\ map conf lines = map snd results
  /\ map bbox lines = map (fun r => Some r.1.1) results.
Proof.
  revert lines.
  induction results as [| [[b txt] [v |]] rest IH]; intros lines;
    cbn [simple_lines_of].
  - by intros [= <-].
  - destruct (simple_lines_of rest) as [ls |]; cbn [obind]; [| discriminate].
    intros [= <-]. destruct (IH ls eq_refl) as (Ht & Hc & Hb).
    cbn [map text conf bbox raw_text_of fst snd].
    by rewrite Ht, Hc, Hb.
  - discriminate.
Qed.

(** X30. [extract_text_from_image] with the easyocr engine applies no
    confidence threshold and no sorting: when it returns, [lines] has one
    entry per recognized item, in the recognizer's order and with the
    item's box, text and confidence, whatever that confidence is;
    [raw_text] is the texts of those lines joined by blanks and
    [clean_text] is [clean_text] of it. *)
Theorem plain_keeps_every_item E image_pil st r st' :
  easyocr_present E = true ->
  extract_text_from_image E image_pil "easyocr" st = (Ok r, st') ->
  exists pre rd results,
    preprocess_image E (pil_to_bgr image_pil) = Ok pre
    /\ get_reader E None false st = (Ok (Some rd), st')
    /\ readtext_detail E rd pre = Some results
    /\ map text (simple_lines r) = map raw_text_of results
    /\ map conf (simple_lines r) = map snd results
    /\ map bbox (simple_lines r) = map (fun x => Some x.1.1) results
    /\ simple_raw_text r = join SPACE (map text (simple_lines r))
    /\ simple_clean_text r = clean_text E (Some (simple_raw_text r)).
Proof.
  intros He. unfold extract_text_from_image. unfold bind at 1, lift at 1.
  destruct (preprocess_image E _) as [pre | e0] eqn:Hp; [| discriminate].
  unfold bind at 1. rewrite He. cbn [String.eqb Ascii.eqb Bool.eqb andb].
  unfold bind at 1.
  destruct (get_reader E None false st) as [[reader | e0] st1] eqn:Hg;
    [| discriminate].
  unfold bind at 1, lift at 1.
  destruct reader as [rd |]; cbn [call_readtext_detail];
    [| cbn [of_call]; discriminate].
  destruct (readtext_detail E rd pre) as [results |] eqn:Hr; cbn [of_call];
    [| discriminate].
  unfold bind at 1, lift at 1.
  destruct (simple_lines_of results) as [lines | e0] eqn:Hs; [| discriminate].
  cbv [ret]. intros [= <- <-].
  destruct (simple_lines_of_ok results lines Hs) as (Ht & Hc & Hb).
  exists pre, rd, results. cbn [simple_lines simple_raw_text simple_clean_text].
  repeat split; try assumption; try reflexivity.
  by rewrite Ht.
Qed.

Lemma plain_keeps_every_item_witness :
  exists r,
    extract_text_from_image env_two_levels pil_1x1 "easyocr" st0
    = (Ok r, st_en)
    /\ map text (simple_lines r) = [lit "c"; lit "zz"]
    /\ map conf (simple_lines r) = [Some HIGH; Some LOW]
    /\ exists pre rd results,
         preprocess_image env_two_levels (pil_to_bgr pil_1x1) = Ok pre
         /\ get_reader env_two_levels None false st0 = (Ok (Some rd), st_en)
         /\ readtext_detail env_two_levels rd pre = Some results
         /\ map conf (simple_lines r) = map snd results.
Proof.
  eexists. split; [vm_compute; reflexivity |].
  split; [vm_compute; reflexivity |]. split; [vm_compute; reflexivity |].
  destruct (plain_keeps_every_item env_two_levels pil_1x1 st0 _ st_en
              eq_refl ltac:(vm_compute; reflexivity))
    as (pre & rd & results & Hp & Hg & Hr & _ & Hc & _).
  exists pre, rd, results. by repeat split.
Defined.
